(** * SpessaSynth: the frame render loop of [render.js] and the playlist
    manager of [playlist_manager.js]

    A shallow embedding of [src/website/js/renderer/render.js] and the
    properties of its idle/active state machine, frame composition and
    frame timer, followed by a shallow embedding of the class
    [PlaylistManager] of [src/website/js/playlist/playlist_manager.js] and
    the properties of its playlist, its current index and its list
    element.

    JavaScript numbers that are measured quantities (timestamps, tempo,
    playback rate, canvas and font sizes) are IEEE 754 binary64 values,
    embedded as Rocq's primitive [float]; counters (voices, notes on
    screen) and enumeration tags are embedded as [Z].

    An invocation of [render] is a computation in a state, trace and
    exception monad: it returns the operations it performed on the
    scheduler, the drawing context and its collaborators, in program
    order, the state it leaves, and how it ended. *)

From Stdlib Require Import ZArith Floats String Ascii List Bool Lia.
From Stdlib Require Import DecimalString.
From Stdlib Require Import Permutation.
Import ListNotations.

Local Open Scope string_scope.
Local Open Scope Z_scope.

(** ** The part of the ECMAScript runtime that [render] relies on *)

Module JS.

(** An integer as a Number; exact for magnitudes up to [2^53]. *)
Definition of_Z (z : Z) : float :=
  match z with
  | Z0 => PrimFloat.zero
  | Zpos _ => PrimFloat.of_uint63 (Uint63.of_Z z)
  | Zneg p => PrimFloat.opp (PrimFloat.of_uint63 (Uint63.of_Z (Zpos p)))
  end.

(** [Math.round]: the closest integral Number, ties towards +Infinity;
    NaN, zeros, infinities and integral values are returned as they are,
    and a negative input that rounds to zero gives [-0]. *)
Definition Math_round (x : float) : float :=
  match Prim2SF x with
  | S754_finite s m e =>
      if 0 <=? e then x
      else
        let d := 2 ^ (- e) in
        let q := Zpos m / d in
        let r := Zpos m mod d in
        if s then
          let n := if d <? 2 * r then q + 1 else q in
          if n =? 0 then PrimFloat.neg_zero else PrimFloat.opp (of_Z n)
        else
          of_Z (if d <=? 2 * r then q + 1 else q)
  | _ => x
  end.

(** Non-negative fractions [num / den] with [den > 0]. *)
Definition frac : Type := Z * Z.

Definition frac_leb (a b : frac) : bool := fst a * snd b <=? fst b * snd a.
Definition frac_ltb (a b : frac) : bool := fst a * snd b <? fst b * snd a.
Definition frac_mid (a b : frac) : frac :=
  (fst a * snd b + fst b * snd a, 2 * snd a * snd b).
(** [| a - b |] *)
Definition frac_dist (a b : frac) : frac :=
  (Z.abs (fst a * snd b - fst b * snd a), snd a * snd b).
Definition pow10 (n : Z) : frac :=
  if 0 <=? n then (10 ^ n, 1) else (1, 10 ^ (- n)).
Definition frac_scale (s : Z) (a : frac) : frac := (s * fst a, snd a).

(** The exact value of a positive Number; an infinity stands for [2^1024],
    the value the rounding interval of the largest finite Number ends at. *)
Definition frac_of (x : float) : frac :=
  match Prim2SF x with
  | S754_finite _ m e =>
      if 0 <=? e then (Zpos m * 2 ^ e, 1) else (Zpos m, 2 ^ (- e))
  | S754_infinity _ => (2 ^ 1024, 1)
  | _ => (0, 1)
  end.

Definition even_significand (x : float) : bool :=
  match Prim2SF x with
  | S754_finite _ m _ => Z.even (Zpos m)
  | _ => true
  end.

(** Does the real number [c] convert to the Number [x] (round to nearest,
    ties to even)? *)
Definition rounds_to (x : float) (c : frac) : bool :=
  let v := frac_of x in
  let lo := frac_mid (frac_of (PrimFloat.next_down x)) v in
  let hi := frac_mid v (frac_of (PrimFloat.next_up x)) in
  if even_significand x
  then frac_leb lo c && frac_leb c hi
  else frac_ltb lo c && frac_ltb c hi.

(** The least [n], searched upwards from [n], with [v < 10^n]. *)
Fixpoint decimal_exponent (fuel : nat) (v : frac) (n : Z) : Z :=
  match fuel with
  | O => n
  | S fuel' =>
      if frac_ltb v (pow10 n) then n else decimal_exponent fuel' v (n + 1)
  end.

(** Where the search starts: [l <= log2 v], and [0.30102 < log10 2 <
    0.30103], so the start is below the decimal exponent of [v] and at
    most three steps away from it. *)
Definition exponent_estimate (v : frac) : Z :=
  let l := Z.log2 (fst v) - Z.log2 (snd v) - 1 in
  Z.min (l * 30102 / 100000) (l * 30103 / 100000).

(** The digits [s], their number [k] and the exponent [n] of
    Number::toString: [k] as small as possible such that
    [s * 10^(n-k)] converts to [x], and [s] closest to [x] among them. *)
Fixpoint shortest_digits (fuel : nat) (x : float) (n0 k : Z) : Z * Z * Z :=
  let v := frac_of x in
  let unit := pow10 (n0 - k) in
  let s_lo := (fst v * snd unit) / (snd v * fst unit) in
  let s_hi := s_lo + 1 in
  let c_lo := frac_scale s_lo unit in
  let c_hi := frac_scale s_hi unit in
  let norm s := if s =? 10 ^ k then (10 ^ (k - 1), k, n0 + 1) else (s, k, n0) in
  match rounds_to x c_lo, rounds_to x c_hi, fuel with
  | true, true, _ =>
      let d_lo := frac_dist v c_lo in
      let d_hi := frac_dist c_hi v in
      if frac_ltb d_lo d_hi then norm s_lo
      else if frac_ltb d_hi d_lo then norm s_hi
      else if Z.even s_lo then norm s_lo else norm s_hi
  | true, false, _ => norm s_lo
  | false, true, _ => norm s_hi
  | false, false, S fuel' => shortest_digits fuel' x n0 (k + 1)
  | false, false, O => norm s_lo
  end.

Definition digits_of (s : Z) : string :=
  NilZero.string_of_uint (N.to_uint (Z.to_N s)).

Fixpoint zeros (n : nat) : string :=
  match n with
  | O => ""
  | S n' => "0" ++ zeros n'
  end.

Definition exponent_part (e : Z) : string :=
  "e" ++ (if 0 <=? e then "+" else "-") ++ digits_of (Z.abs e).

(** Number::toString (radix 10) of a positive finite Number. *)
Definition positive_to_string (x : float) : string :=
  let v := frac_of x in
  let n0 := decimal_exponent 8 v (exponent_estimate v) in
  let '(s, k, n) := shortest_digits 20 x n0 1 in
  let d := digits_of s in
  if (k <=? n) && (n <=? 21) then d ++ zeros (Z.to_nat (n - k))
  else if (0 <? n) && (n <=? 21) then
    substring 0 (Z.to_nat n) d ++ "." ++ substring (Z.to_nat n) (Z.to_nat (k - n)) d
  else if (-6 <? n) && (n <=? 0) then "0." ++ zeros (Z.to_nat (- n)) ++ d
  else if k =? 1 then d ++ exponent_part (n - 1)
  else substring 0 1 d ++ "." ++ substring 1 (Z.to_nat (k - 1)) d
       ++ exponent_part (n - 1).

(** Number::toString, the conversion behind [x.toString()], [x + "text"]
    and template literals. *)
Definition Number_toString (x : float) : string :=
  match Prim2SF x with
  | S754_nan => "NaN"
  | S754_zero _ => "0"
  | S754_infinity s => if s then "-Infinity" else "Infinity"
  | S754_finite s _ _ =>
      if s then "-" ++ positive_to_string (PrimFloat.opp x)
      else positive_to_string x
  end.

(** The same conversion for a Number that is a counter: an integer below
    10^21 in absolute value, as every array length and every count of
    notes or voices is; from 10^21 on a Number is printed with an
    exponent, which this function does not do. *)
Definition Integer_toString (z : Z) : string :=
  NilZero.string_of_int (Z.to_int z).

End JS.

(** ** Completions *)

(** What a JavaScript call ends in: a value, or a thrown exception that
    unwinds [render] and reaches the host's top-level handler. *)
Inductive exn : Type :=
| TypeError (msg : string)
| CollaboratorError (msg : string).

Inductive completion (A : Type) : Type :=
| Normal (a : A)
| Throw (e : exn).

Arguments Normal {A} a.
Arguments Throw {A} e.

(** ** The renderer and its collaborators *)

Section Render.

(** Imports of [render.js] that live in [renderer.js] and
    [draw_notes.js]: the type of a projected note, the note-timing data,
    the [FONT_SIZE] constant, the [rendererModes.waveformsMode] tag and
    the [drawNotes] routine (its completion; the surface argument is the
    renderer's only drawing context). *)
Context {NoteToRender NoteTimes : Type}.
Variable FONT_SIZE : float.
Variable waveformsMode : Z.
Variable drawNotes : list NoteToRender -> bool -> completion unit.

(** [performance.now()]: the value of the [n]-th reading of the clock. *)
Variable performance_now : nat -> float.

(** [this.seq] *)
Record Sequencer : Type := {
  paused : bool;
  currentTempo : float;
  playbackRate : float
}.

(** [this.synth] *)
Record Synthetizer : Type := {
  voicesAmount : Z;
  highPerformanceMode : bool
}.

(** [this.canvas] *)
Record Canvas : Type := {
  width : float;
  height : float
}.

(** Modelled from the spec: the methods [renderWaveforms] and
    [computeNotePositions], the hook [onRender] and the imported [drawNotes]
    are not in the sources; by the specification's section on external
    interfaces their only side effect is drawing and they leave the
    renderer as it is, so each is given by the completion of its call.

    [this]: the fields and methods of the [Renderer] that [render] reads.
    A field that may be [undefined] is an [option]. *)
Record Renderer : Type := {
  seq : option Sequencer;
  synth : Synthetizer;
  rendererMode : Z;
  renderBool : bool;
  renderAnalysers : bool;
  renderNotes : bool;
  noteTimes : option NoteTimes;
  sideways : bool;
  frameTimeStart : float;
  canvas : Canvas;
  version : string;
  notesOnScreen : Z;
  currentTimeSignature : string;
  showHoldPedal : bool;
  holdPedalIsDownText : string;
  renderWaveforms : bool -> completion unit;
  computeNotePositions : bool -> completion (list NoteToRender);
  onRender : option (completion unit)
}.

Definition set_frameTimeStart (t : float) (r : Renderer) : Renderer :=
  {| seq := seq r; synth := synth r; rendererMode := rendererMode r;
     renderBool := renderBool r; renderAnalysers := renderAnalysers r;
     renderNotes := renderNotes r; noteTimes := noteTimes r;
     sideways := sideways r; frameTimeStart := t; canvas := canvas r;
     version := version r; notesOnScreen := notesOnScreen r;
     currentTimeSignature := currentTimeSignature r;
     showHoldPedal := showHoldPedal r;
     holdPedalIsDownText := holdPedalIsDownText r;
     renderWaveforms := renderWaveforms r;
     computeNotePositions := computeNotePositions r;
     onRender := onRender r |}.

(** What one invocation does to the outside world, in program order: the
    display-refresh scheduler, the drawing context, and the calls of the
    collaborators. *)
Inductive event : Type :=
| RequestAnimationFrame
| ClearRect (x y w h : float)
| RenderWaveforms (forceStraight : bool)
| ComputeNotePositions (highPerformance : bool)
| DrawNotes (notes : list NoteToRender) (sideways : bool)
| TextBaseline (v : string)
| TextAlign (v : string)
| Font (v : string)
| FillStyle (v : string)
| StrokeStyle (v : string)
| FillText (text : string) (x y : float)
| OnRender.

(** The state that outlives an invocation: the module-level
    [hasRenderedNoVoices] (the specification's [idleSettled]), the renderer
    object, whose [frameTimeStart] is the specification's [lastFrameStart],
    and the number of clock readings taken so far. *)
Record State : Type := {
  hasRenderedNoVoices : bool;
  this : Renderer;
  clockReads : nat
}.

(** *** A state, trace and exception monad *)

Record Result (A : Type) : Type := mkResult {
  events : list event;
  final : State;
  outcome : completion A
}.

Arguments mkResult {A} events final outcome.
Arguments events {A} r.
Arguments final {A} r.
Arguments outcome {A} r.

Definition M (A : Type) : Type := State -> Result A.

Definition ret {A} (a : A) : M A := fun s => mkResult [] s (Normal a).

Definition bind {A B} (m : M A) (k : A -> M B) : M B :=
  fun s =>
    let r := m s in
    match outcome r with
    | Normal a =>
        let r' := k a (final r) in
        mkResult (events r ++ events r') (final r') (outcome r')
    | Throw e => mkResult (events r) (final r) (Throw e)
    end.

Notation "x <- m ;; k" := (bind m (fun x => k))
  (at level 61, m at next level, right associativity).
Notation "m ;; k" := (bind m (fun _ => k))
  (at level 61, right associativity).

Definition throw {A} (e : exn) : M A := fun s => mkResult [] s (Throw e).

(** An operation on the scheduler or the drawing context. *)
Definition emit (e : event) : M unit := fun s => mkResult [e] s (Normal tt).

(** A call of a collaborator, with the completion it ends in. *)
Definition call {A} (e : event) (c : completion A) : M A :=
  fun s => mkResult [e] s c.

Definition when (b : bool) (m : M unit) : M unit :=
  if b then m else ret tt.

Definition get : M State := fun s => mkResult [] s (Normal s).

Definition set_hasRenderedNoVoices (b : bool) : M unit :=
  fun s => mkResult []
    {| hasRenderedNoVoices := b; this := this s; clockReads := clockReads s |}
    (Normal tt).

Definition assign_frameTimeStart (t : float) : M unit :=
  fun s => mkResult []
    {| hasRenderedNoVoices := hasRenderedNoVoices s;
       this := set_frameTimeStart t (this s);
       clockReads := clockReads s |}
    (Normal tt).

Definition now : M float :=
  fun s => mkResult []
    {| hasRenderedNoVoices := hasRenderedNoVoices s; this := this s;
       clockReads := S (clockReads s) |}
    (Normal (performance_now (clockReads s))).

(** Reading a property of [this.seq]. *)
Definition seq_property {A} (r : Renderer) (name : string)
    (f : Sequencer -> A) : M A :=
  match seq r with
  | Some q => ret (f q)
  | None =>
      throw (TypeError ("Cannot read properties of undefined (reading '"
                        ++ name ++ "')"))
  end.

Definition is_undefined {A} (o : option A) : bool :=
  match o with None => true | Some _ => false end.

Definition truthy {A} (o : option A) : bool := negb (is_undefined o).

(** *** [render] *)

(** Lines 14 to 18: the activity predicate. *)
Definition nothingToDo (force : bool) (r : Renderer) : bool :=
  (is_undefined (seq r)
   || match seq r with Some q => paused q | None => false end)
  && (voicesAmount (synth r) =? 0)
  && (rendererMode r =? waveformsMode)
  && negb force.

(** Lines 85 to 94: tempo and time signature. *)
Definition tempoLabel (tempo rate : float) : string :=
  JS.Number_toString (JS.Math_round (tempo * rate * 100) / 100)%float
  ++ "BPM".

Definition drawTempo (r : Renderer) : M unit :=
  emit (TextAlign "start") ;;
  tempo <- seq_property r "currentTempo" currentTempo ;;
  rate <- seq_property r "playbackRate" playbackRate ;;
  emit (FillText (tempoLabel tempo rate) 0 5) ;;
  emit (FillText (currentTimeSignature r) 0 (FONT_SIZE + 5)).

(** Lines 97 to 102: the hold pedal message. *)
Definition drawHoldPedal (r : Renderer) : M unit :=
  emit (Font (JS.Number_toString (FONT_SIZE * 3) ++ "px monospace")) ;;
  emit (TextAlign "center") ;;
  emit (FillText (holdPedalIsDownText r)
          (width (canvas r) / 2) (height (canvas r) / 4)).

Definition fpsLabel (fps : float) : string :=
  JS.Number_toString (JS.Math_round fps) ++ " FPS".

(** Lines 70 to 108: the frame timer, the overlay and the hook. *)
Definition drawOverlay (r : Renderer) : M unit :=
  t <- now ;;
  let timeSinceLastFrame := (t - frameTimeStart r)%float in
  t' <- now ;;
  assign_frameTimeStart t' ;;
  let fps := (1000 / timeSinceLastFrame)%float in
  emit (TextBaseline "hanging") ;;
  emit (TextAlign "end") ;;
  emit (Font (JS.Number_toString FONT_SIZE ++ "px monospace")) ;;
  emit (FillStyle "white") ;;
  emit (StrokeStyle "white") ;;
  emit (FillText (fpsLabel fps)
          (width (canvas r)) (FONT_SIZE * 2 + 5)) ;;
  emit (FillText (version r) (width (canvas r)) 5) ;;
  emit (FillText (JS.Integer_toString (notesOnScreen r) ++ " notes")
          (width (canvas r)) (FONT_SIZE + 5)) ;;
  when (truthy (noteTimes r)) (drawTempo r) ;;
  when (showHoldPedal r) (drawHoldPedal r) ;;
  match onRender r with
  | Some hook => call OnRender hook
  | None => ret tt
  end.

(** Lines 48 to 67: the analysers and the notes. *)
Definition drawLayers (forceStraight : bool) (r : Renderer) : M unit :=
  when (renderAnalysers r && negb (highPerformanceMode (synth r)))
    (call (RenderWaveforms forceStraight) (renderWaveforms r forceStraight)) ;;
  when (renderNotes r && truthy (noteTimes r))
    (notesToDraw <- call (ComputeNotePositions (highPerformanceMode (synth r)))
                      (computeNotePositions r (highPerformanceMode (synth r))) ;;
     when (negb (highPerformanceMode (synth r)))
       (call (DrawNotes notesToDraw (sideways r))
          (drawNotes notesToDraw (sideways r)))).

(** Lines 42 to 46: the next frame and the clear. *)
Definition scheduleAndClear (auto : bool) (r : Renderer) : M unit :=
  when auto
    (emit RequestAnimationFrame ;;
     emit (ClearRect 0 0 (width (canvas r)) (height (canvas r)))).

(** Lines 42 to 108: what [render] does once it has decided to draw. *)
Definition drawFrame (auto forceStraight : bool) : M unit :=
  s <- get ;;
  let r := this s in
  scheduleAndClear auto r ;;
  drawLayers forceStraight r ;;
  drawOverlay r.

(** [render(auto = true, force = false)] *)
Definition render (auto force : bool) : M unit :=
  s <- get ;;
  let nothingToDo := nothingToDo force (this s) in
  if negb (renderBool (this s)) || nothingToDo then
    if hasRenderedNoVoices s then
      when auto (emit RequestAnimationFrame)
    else
      set_hasRenderedNoVoices true ;;
      drawFrame auto true
  else
    set_hasRenderedNoVoices false ;;
    drawFrame auto false.

(** *** Observations on an invocation *)

Definition is_schedule (e : event) : bool :=
  match e with
  | RequestAnimationFrame => true
  | _ => false
  end.

Definition is_clear (e : event) : bool :=
  match e with
  | ClearRect _ _ _ _ => true
  | _ => false
  end.

(** The texts that an invocation draws, in program order. *)
Definition texts (es : list event) : list string :=
  flat_map (fun e => match e with
                     | FillText text _ _ => [text]
                     | _ => []
                     end) es.

(** The calls of the layer collaborators. *)
Definition is_layer_call (e : event) : bool :=
  match e with
  | RenderWaveforms _ | ComputeNotePositions _ | DrawNotes _ _ => true
  | _ => false
  end.

(** The overlay's operations on the drawing context, and the hook. *)
Definition is_overlay (e : event) : bool :=
  match e with
  | TextBaseline _ | TextAlign _ | Font _ | FillStyle _ | StrokeStyle _
  | FillText _ _ _ | OnRender => true
  | _ => false
  end.

(** How many next invocations the frame has asked the scheduler for. *)
Definition scheduled (evs : list event) : nat :=
  length (filter is_schedule evs).

(** Everything the frame did apart from scheduling: the clear and the
    draw calls. *)
Definition surface_ops (evs : list event) : list event :=
  filter (fun e => negb (is_schedule e)) evs.

Definition drawn (evs : list event) : bool :=
  existsb (fun e => negb (is_schedule e)) evs.

(** The state with the module-level flag replaced. *)
Definition with_flag (b : bool) (s : State) : State :=
  {| hasRenderedNoVoices := b; this := this s; clockReads := clockReads s |}.

(** What line 89 throws when [this.seq] is [undefined]. *)
Definition undefinedTempo : exn :=
  TypeError "Cannot read properties of undefined (reading 'currentTempo')".

(** The completion of the hook of line 107. *)
Definition hookOutcome (r : Renderer) : completion unit :=
  match onRender r with
  | Some hook => hook
  | None => Normal tt
  end.

(** The state after lines 70 and 71: two readings of the clock, the
    second one stored. *)
Definition afterTimer (s : State) : State :=
  {| hasRenderedNoVoices := hasRenderedNoVoices s;
     this := set_frameTimeStart (performance_now (S (clockReads s))) (this s);
     clockReads := S (S (clockReads s)) |}.

(** The next frame and the clear of lines 44 and 45. *)
Definition scheduleAndClearEvents (auto : bool) (r : Renderer) : list event :=
  if auto
  then [RequestAnimationFrame;
        ClearRect 0 0 (width (canvas r)) (height (canvas r))]
  else [].

(** Lines 25 to 29: the frame that is not drawn. *)
Definition skipFrame (auto : bool) (s : State) : Result unit :=
  mkResult (if auto then [RequestAnimationFrame] else []) s (Normal tt).

(** Line 20: the idle branch is taken. *)
Definition idleBranch (force : bool) (r : Renderer) : bool :=
  negb (renderBool r) || nothingToDo force r.

(** Line 20 together with line 22: the invocation returns at line 29. *)
Definition skips (force : bool) (s : State) : bool :=
  idleBranch force (this s) && hasRenderedNoVoices s.

(** *** The loop as the host drives it

    Between two invocations the host may change the renderer object (a
    sequencer is connected, voices start, a toggle is flipped); it cannot
    reach the module-level flag. *)
Record Call : Type := {
  hostUpdate : Renderer -> Renderer;
  callAuto : bool;
  callForce : bool
}.

Definition enter (c : Call) (s : State) : State :=
  {| hasRenderedNoVoices := hasRenderedNoVoices s;
     this := hostUpdate c (this s);
     clockReads := clockReads s |}.

Definition invoke (c : Call) (s : State) : Result unit :=
  render (callAuto c) (callForce c) (enter c s).

(** The frames of a sequence of invocations, and the state they leave.
    An exception ends its own invocation only. *)
Fixpoint run (cs : list Call) (s : State) : list (list event) * State :=
  match cs with
  | [] => ([], s)
  | c :: cs' =>
      let r := invoke c s in
      let rest := run cs' (final r) in
      (events r :: fst rest, snd rest)
  end.

(** [p force this] holds on entry to every invocation of the run. *)
Fixpoint throughout (p : bool -> Renderer -> bool) (cs : list Call)
    (s : State) : bool :=
  match cs with
  | [] => true
  | c :: cs' =>
      p (callForce c) (this (enter c s))
      && throughout p cs' (final (invoke c s))
  end.

Definition framesDrawn (frames : list (list event)) : nat :=
  length (filter drawn frames).

End Render.

Arguments mkResult {NoteToRender NoteTimes A} events final outcome.
Arguments events {NoteToRender NoteTimes A} r.
Arguments final {NoteToRender NoteTimes A} r.
Arguments outcome {NoteToRender NoteTimes A} r.
Arguments skipFrame {NoteToRender NoteTimes} auto s.
Arguments JS.Number_toString : simpl never.
Arguments JS.Math_round : simpl never.
Arguments JS.Integer_toString : simpl never.
Arguments tempoLabel : simpl never.
Arguments fpsLabel : simpl never.

(** ** Concrete renderers *)

Module Demo.

Definition FONT_SIZE : float := 16.
Definition waveformsMode : Z := 0.
Definition drawNotes (_ : list unit) (_ : bool) : completion unit := Normal tt.

(** A clock that stands still within a frame and advances by 100 ms from
    one drawn frame to the next. *)
Definition performance_now (n : nat) : float :=
  JS.of_Z (100 * Z.of_nat (Nat.div2 n)).

Local Abbreviation Renderer := (@Renderer unit unit).
Local Abbreviation State := (@State unit unit).
Local Abbreviation Call := (@Call unit unit).

Definition song (paused : bool) : Sequencer :=
  {| paused := paused; currentTempo := 120; playbackRate := 1.5 |}.

Definition works (_ : bool) : completion unit := Normal tt.
Definition fails (_ : bool) : completion unit :=
  Throw (CollaboratorError "analyser").

Definition renderer (q : option Sequencer) (voices : Z)
    (highPerformance enabled notes : bool)
    (analysers : bool -> completion unit) : Renderer :=
  {| seq := q;
     synth := {| voicesAmount := voices;
                 highPerformanceMode := highPerformance |};
     rendererMode := 0;
     renderBool := enabled;
     renderAnalysers := true;
     renderNotes := notes;
     noteTimes := Some tt;
     sideways := false;
     frameTimeStart := 0;
     canvas := {| width := 800; height := 600 |};
     version := "v3.0";
     notesOnScreen := 12;
     currentTimeSignature := "4/4";
     showHoldPedal := true;
     holdPedalIsDownText := "Hold pedal is down";
     renderWaveforms := analysers;
     computeNotePositions := fun _ => Normal [tt; tt];
     onRender := Some (Normal tt) |}.

(** A song is playing. *)
Definition playing : Renderer :=
  renderer (Some (song false)) 3 false true true works.

(** The song is paused and the last voice has ended. *)
Definition silent : Renderer :=
  renderer (Some (song true)) 0 false true true works.

(** Voices sound, but rendering is switched off. *)
Definition disabled : Renderer :=
  renderer (Some (song false)) 3 false false true works.

(** Note times are there, the sequencer is not. *)
Definition orphaned : Renderer :=
  renderer None 3 false true true works.

(** A dense file is played in high-performance mode. *)
Definition dense : Renderer :=
  renderer (Some (song false)) 3 true true true works.

(** The same with the notes switched off. *)
Definition denseNoNotes : Renderer :=
  renderer (Some (song false)) 3 true true false works.

(** The analysers fail. *)
Definition failing : Renderer :=
  renderer (Some (song false)) 3 false true true fails.

Definition start (idle : bool) (r : Renderer) : State :=
  {| hasRenderedNoVoices := idle; this := r; clockReads := 2 |}.

(** The first invocation: the clock has not been read and stands where
    [frameTimeStart] does. *)
Definition firstFrame (r : Renderer) : State :=
  {| hasRenderedNoVoices := false; this := r; clockReads := 0 |}.

(** No file is loaded: neither note times nor a sequencer. *)
Definition unloaded : Renderer :=
  {| seq := None;
     synth := {| voicesAmount := 3; highPerformanceMode := false |};
     rendererMode := 0;
     renderBool := true;
     renderAnalysers := true;
     renderNotes := true;
     noteTimes := None;
     sideways := false;
     frameTimeStart := 0;
     canvas := {| width := 800; height := 600 |};
     version := "v3.0";
     notesOnScreen := 0;
     currentTimeSignature := "4/4";
     showHoldPedal := true;
     holdPedalIsDownText := "Hold pedal is down";
     renderWaveforms := works;
     computeNotePositions := fun _ => Normal [];
     onRender := None |}.

(** A clock that advances by 5 ms between the two readings of a frame:
    100, 105, 200, 205, ... *)
Definition drifting_now (n : nat) : float :=
  JS.of_Z (100 * Z.of_nat (S (Nat.div2 n)) + 5 * Z.of_nat (Nat.modulo n 2)).

Definition renderDrifting : bool -> bool -> State -> Result unit :=
  render FONT_SIZE waveformsMode drawNotes drifting_now.

Definition render : bool -> bool -> State -> Result unit :=
  render FONT_SIZE waveformsMode drawNotes performance_now.
Definition invoke : Call -> State -> Result unit :=
  invoke FONT_SIZE waveformsMode drawNotes performance_now.
Definition run : list Call -> State -> list (list event) * State :=
  run FONT_SIZE waveformsMode drawNotes performance_now.

(** The host changes nothing, or swaps the renderer's fields. *)
Definition keep (auto force : bool) : Call :=
  {| hostUpdate := fun r => r; callAuto := auto; callForce := force |}.
Definition become (r : Renderer) (auto force : bool) : Call :=
  {| hostUpdate := fun r' => set_frameTimeStart (frameTimeStart r') r;
     callAuto := auto; callForce := force |}.

End Demo.

(** ** The playlist manager of [playlist_manager.js]

    A method of [PlaylistManager] is a computation on the page: the
    manager's fields and the elements that the manager looks up by id.
    It returns what it did that can be observed from outside
    (notifications, the console, scrolling, the calls of the sequencer,
    of the manager and of a file), the page it leaves, and how it ended.

    [playFile] is [async]: it runs up to its [await] when it is called,
    and from there on when the promise of [arrayBuffer()] has settled.
    The two parts are [playFile] and [playFileResumed]; other calls may
    run in between.

    The menu of [showContextMenu], which only builds elements, and
    [showFileInfo] with [formatFileSize], which rest on [Math.log],
    [toFixed] and [toLocaleString], are not embedded. *)

Module Playlist.

Local Open Scope list_scope.

(** JavaScript strings are sequences of UTF-16 code units. *)
Definition jsstring : Type := list N.

(** The code units of a string literal of the source file, which is
    encoded in UTF-8. *)
Fixpoint utf16 (fuel : nat) (bytes : list N) : jsstring :=
  match fuel with
  | O => []
  | S fuel' =>
      match bytes with
      | [] => []
      | b :: rest =>
          if (b <? 128)%N then b :: utf16 fuel' rest
          else if (b <? 224)%N then
            match rest with
            | c :: rest' =>
                ((b - 192) * 64 + (c - 128))%N :: utf16 fuel' rest'
            | _ => []
            end
          else if (b <? 240)%N then
            match rest with
            | c :: d :: rest' =>
                ((b - 224) * 4096 + (c - 128) * 64 + (d - 128))%N
                  :: utf16 fuel' rest'
            | _ => []
            end
          else
            match rest with
            | c :: d :: e :: rest' =>
                let cp := ((b - 240) * 262144 + (c - 128) * 4096
                           + (d - 128) * 64 + (e - 128) - 65536)%N in
                (55296 + cp / 1024)%N :: (56320 + cp mod 1024)%N
                  :: utf16 fuel' rest'
            | _ => []
            end
      end
  end.

Definition js (s : string) : jsstring :=
  utf16 (String.length s) (map N_of_ascii (list_ascii_of_string s)).

Fixpoint jsstring_eqb (a b : jsstring) : bool :=
  match a, b with
  | [], [] => true
  | x :: a', y :: b' => (x =? y)%N && jsstring_eqb a' b'
  | _, _ => false
  end.

(** [s.endsWith(suffix)] *)
Definition endsWith (s suffix : jsstring) : bool :=
  (length suffix <=? length s)%nat
  && jsstring_eqb (skipn (length s - length suffix) s) suffix.

(** A count in a template literal. *)
Definition countToString (n : nat) : jsstring :=
  js (JS.Integer_toString (Z.of_nat n)).

(** *** The objects *)

(** A [File]: its name, size and modification time, and what the promise
    of [arrayBuffer()] settles to. *)
Record File : Type := {
  file_name : jsstring;
  file_size : Z;
  file_lastModified : Z;
  arrayBuffer : completion (list Byte.byte)
}.

(** An entry of [this.playlist], as [addToPlaylist] builds it. *)
Record Item : Type := {
  file : File;
  name : jsstring;
  size : Z;
  lastModified : Z
}.

(** The argument of [loadNewSongList] and of [manager.play]. *)
Record Song : Type := {
  binary : list Byte.byte;
  altName : jsstring
}.

Record MidiData : Type := {
  midiName : jsstring
}.

(** The sequencer and the manager are collaborators whose code is not
    part of the sources, so nothing is assumed of them: a method is given
    by the completion of its call, whatever that is, and
    [loadNewSongList] also by the [midiData] it leaves behind. *)
Record Sequencer : Type := {
  midiData : option MidiData;
  loadNewSongList : list Song -> completion (option MidiData);
  pause : completion unit;
  seq_play : completion unit
}.

Record Manager : Type := {
  seq : option Sequencer;
  play : list Song -> completion unit
}.

(** An [li] of the playlist element: its text, its title, its
    [dataset.index], and whether its class list holds [active]. *)
Record Li : Type := {
  textContent : jsstring;
  title : jsstring;
  dataset_index : Z;
  active : bool
}.

(** The elements that the manager looks up by id, each of which may be
    missing; a button by its [disabled], a label by its [textContent]. *)
Record Document : Type := {
  prevBtn : option bool;
  nextBtn : option bool;
  clearBtn : option bool;
  playlistCount : option jsstring;
  currentTrack : option jsstring;
  windowShowNotification : bool
}.

(** [this] *)
Record PlaylistManager : Type := {
  playlist : list Item;
  currentIndex : Z;
  isPlaying : bool;
  playlistElement : option (list Li);
  manager : option Manager
}.

Record Page : Type := {
  this : PlaylistManager;
  document : Document
}.

Inductive effect : Type :=
| ShowNotification (title message : jsstring)
| ConsoleLog (label message : jsstring)
| ConsoleError (label : jsstring) (error : exn)
| ScrollIntoView (index : Z)
| CallArrayBuffer (f : File)
| CallLoadNewSongList (songs : list Song)
| CallManagerPlay (songs : list Song)
| CallPause
| CallPlay
| PreventDefault.

(** *** Computations on the page *)

Record Step (A : Type) : Type := mkStep {
  effects : list effect;
  after : Page;
  result : completion A
}.

Arguments mkStep {A} effects after result.
Arguments effects {A} s.
Arguments after {A} s.
Arguments result {A} s.

Definition Action (A : Type) : Type := Page -> Step A.

Definition done {A} (a : A) : Action A := fun p => mkStep [] p (Normal a).

Definition raise {A} (e : exn) : Action A := fun p => mkStep [] p (Throw e).

Definition andThen {A B} (m : Action A) (k : A -> Action B) : Action B :=
  fun p =>
    let r := m p in
    match result r with
    | Normal a =>
        let r' := k a (after r) in
        mkStep (effects r ++ effects r') (after r') (result r')
    | Throw e => mkStep (effects r) (after r) (Throw e)
    end.

(** [try { m } catch (error) { handler error }] *)
Definition tryCatch {A} (m : Action A) (handler : exn -> Action A)
  : Action A :=
  fun p =>
    let r := m p in
    match result r with
    | Normal a => r
    | Throw e =>
        let r' := handler e (after r) in
        mkStep (effects r ++ effects r') (after r') (result r')
    end.

Local Notation "x <- m ;; k" := (andThen m (fun x => k))
  (at level 61, m at next level, right associativity).
Local Notation "m ;; k" := (andThen m (fun _ => k))
  (at level 61, right associativity).

Definition perform (e : effect) : Action unit :=
  fun p => mkStep [e] p (Normal tt).

(** A call of a collaborator. *)
Definition invokeMethod {A} (e : effect) (c : completion A) : Action A :=
  fun p => mkStep [e] p c.

Definition getThis : Action PlaylistManager :=
  fun p => mkStep [] p (Normal (this p)).

Definition getDocument : Action Document :=
  fun p => mkStep [] p (Normal (document p)).

Definition setThis (f : PlaylistManager -> PlaylistManager) : Action unit :=
  fun p => mkStep [] {| this := f (this p); document := document p |}
             (Normal tt).

Definition setDocument (f : Document -> Document) : Action unit :=
  fun p => mkStep [] {| this := this p; document := f (document p) |}
             (Normal tt).

Definition whenever (b : bool) (m : Action unit) : Action unit :=
  if b then m else done tt.

(** Assignments to the fields of [this]. *)
Definition set_playlist (l : list Item) (t : PlaylistManager)
  : PlaylistManager :=
  {| playlist := l; currentIndex := currentIndex t; isPlaying := isPlaying t;
     playlistElement := playlistElement t; manager := manager t |}.

Definition set_currentIndex (i : Z) (t : PlaylistManager) : PlaylistManager :=
  {| playlist := playlist t; currentIndex := i; isPlaying := isPlaying t;
     playlistElement := playlistElement t; manager := manager t |}.

Definition set_isPlaying (b : bool) (t : PlaylistManager) : PlaylistManager :=
  {| playlist := playlist t; currentIndex := currentIndex t; isPlaying := b;
     playlistElement := playlistElement t; manager := manager t |}.

Definition set_playlistElement (e : option (list Li)) (t : PlaylistManager)
  : PlaylistManager :=
  {| playlist := playlist t; currentIndex := currentIndex t;
     isPlaying := isPlaying t; playlistElement := e; manager := manager t |}.

Definition set_manager (m : option Manager) (t : PlaylistManager)
  : PlaylistManager :=
  {| playlist := playlist t; currentIndex := currentIndex t;
     isPlaying := isPlaying t; playlistElement := playlistElement t;
     manager := m |}.

(** Reading or writing a property of [this.playlistElement] when it is
    [null]. *)
Definition nullElement (access property : string) : exn :=
  TypeError
    ("Cannot " ++ access ++ " properties of null (" ++ property ++ ")")%string.

(** [this.playlist.length] *)
Definition playlistLength (t : PlaylistManager) : Z :=
  Z.of_nat (length (playlist t)).

(** [this.playlist[index]] for an integer [index]. *)
Definition playlistAt (t : PlaylistManager) (index : Z) : option Item :=
  if index <? 0 then None else nth_error (playlist t) (Z.to_nat index).

(** *** The texts

    The string and template literals of the notifications and labels. *)

Definition playingName (name : jsstring) : jsstring :=
  js "Đang phát: " ++ name.
Definition playingText (item : Item) : jsstring := playingName (name item).
Definition failedText (item : Item) : jsstring :=
  js "Lỗi khi phát file: " ++ name item.
Definition noTrackText : jsstring := js "Không có bài nào đang phát".
Definition countText (t : PlaylistManager) : jsstring :=
  countToString (length (playlist t)) ++ js " bài hát".
Definition clearedText : jsstring := js "Đã xóa playlist".
Definition removedText : jsstring := js "Đã xóa file khỏi playlist".
Definition noMidiText : jsstring := js "Không tìm thấy file MIDI nào trong thư mục đã chọn.".
Definition importedText (n : nat) : jsstring :=
  js "Đã import " ++ countToString n ++ js " file MIDI vào playlist.".

(** *** The methods *)

(** Lines 159 to 164. *)
Definition formatFileName (filename : jsstring) : jsstring :=
  if (30 <? length filename)%nat
  then firstn 27 filename ++ js "..."
  else filename.

(** Lines 488 to 499. *)
Definition showNotification (message : jsstring) : Action unit :=
  d <- getDocument ;;
  if windowShowNotification d
  then perform (ShowNotification (js "Playlist") message)
  else perform (ConsoleLog (js "Playlist:") message).

(** Lines 302 to 318. *)
Definition updatePlaylistInfo : Action unit :=
  t <- getThis ;;
  d <- getDocument ;;
  whenever (truthy (playlistCount d))
    (setDocument (fun d =>
       {| prevBtn := prevBtn d; nextBtn := nextBtn d; clearBtn := clearBtn d;
          playlistCount :=
            Some (countText t);
          currentTrack := currentTrack d;
          windowShowNotification := windowShowNotification d |})) ;;
  whenever (truthy (currentTrack d))
    (text <-
       (if (0 <=? currentIndex t) && (currentIndex t <? playlistLength t)
        then match playlistAt t (currentIndex t) with
             | Some currentItem => done (playingText currentItem)
             | None =>
                 raise (TypeError
                   "Cannot read properties of undefined (reading 'name')")
             end
        else done noTrackText) ;;
     setDocument (fun d =>
       {| prevBtn := prevBtn d; nextBtn := nextBtn d; clearBtn := clearBtn d;
          playlistCount := playlistCount d;
          currentTrack := Some text;
          windowShowNotification := windowShowNotification d |})).

(** Lines 278 to 297. *)
Definition updateControlButtons : Action unit :=
  t <- getThis ;;
  d <- getDocument ;;
  whenever (truthy (prevBtn d))
    (setDocument (fun d =>
       {| prevBtn := Some ((playlistLength t =? 0) || (currentIndex t <=? 0));
          nextBtn := nextBtn d; clearBtn := clearBtn d;
          playlistCount := playlistCount d; currentTrack := currentTrack d;
          windowShowNotification := windowShowNotification d |})) ;;
  whenever (truthy (nextBtn d))
    (setDocument (fun d =>
       {| prevBtn := prevBtn d;
          nextBtn := Some ((playlistLength t =? 0)
                           || (playlistLength t - 1 <=? currentIndex t));
          clearBtn := clearBtn d;
          playlistCount := playlistCount d; currentTrack := currentTrack d;
          windowShowNotification := windowShowNotification d |})) ;;
  whenever (truthy (clearBtn d))
    (setDocument (fun d =>
       {| prevBtn := prevBtn d; nextBtn := nextBtn d;
          clearBtn := Some (playlistLength t =? 0);
          playlistCount := playlistCount d; currentTrack := currentTrack d;
          windowShowNotification := windowShowNotification d |})) ;;
  updatePlaylistInfo.

Definition deactivate (li : Li) : Li :=
  {| textContent := textContent li; title := title li;
     dataset_index := dataset_index li; active := false |}.

Definition activate (li : Li) : Li :=
  {| textContent := textContent li; title := title li;
     dataset_index := dataset_index li; active := true |}.

(** [allItems[activeIndex].classList.add('active')] *)
Fixpoint activateAt (n : nat) (lis : list Li) : list Li :=
  match lis, n with
  | [], _ => []
  | li :: rest, O => activate li :: rest
  | li :: rest, S n' => li :: activateAt n' rest
  end.

(** Lines 217 to 237. *)
Definition updatePlaylistUI (activeIndex : Z) : Action unit :=
  t <- getThis ;;
  match playlistElement t with
  | None => raise (nullElement "read" "reading 'querySelectorAll'")
  | Some allItems =>
      setThis (set_playlistElement (Some (map deactivate allItems))) ;;
      whenever ((0 <=? activeIndex)
                && (activeIndex <? Z.of_nat (length allItems)))
        (setThis (set_playlistElement
                    (Some (activateAt (Z.to_nat activeIndex)
                             (map deactivate allItems)))) ;;
         perform (ScrollIntoView activeIndex)) ;;
      updateControlButtons
  end.

(** Lines 134 to 152. *)
Definition renderPlaylistItem (item : Item) (index : Z) : Action unit :=
  let li := {| textContent := formatFileName (name item);
               title := name item;
               dataset_index := index;
               active := false |} in
  t <- getThis ;;
  match playlistElement t with
  | None => raise (nullElement "read" "reading 'appendChild'")
  | Some children => setThis (set_playlistElement (Some (children ++ [li])))
  end.

(** Lines 116 to 127. *)
Definition addToPlaylist (f : File) : Action unit :=
  let playlistItem := {| file := f; name := file_name f; size := file_size f;
                         lastModified := file_lastModified f |} in
  setThis (fun t => set_playlist (playlist t ++ [playlistItem]) t) ;;
  t <- getThis ;;
  renderPlaylistItem playlistItem (playlistLength t - 1) ;;
  updateControlButtons.

(** The [catch] block of lines 207 to 210. *)
Definition playFileFailed (item : Item) (error : exn) : Action unit :=
  perform (ConsoleError (js "Error playing file:") error) ;;
  showNotification (failedText item).

(** Which of the two [await]s of [playFile] is pending. *)
Inductive Pending : Type :=
| AwaitForSequencer (item : Item)
| AwaitForManager (item : Item).

(** Lines 170 to 211, up to the [await]: an [async] function runs
    synchronously until then.  The result tells whether, and where, the
    call is suspended. *)
Definition playFile (index : Z) : Action (option Pending) :=
  t <- getThis ;;
  if (index <? 0) || (playlistLength t <=? index) then done None
  else
    match playlistAt t index with
    | None => done None
    | Some item =>
        tryCatch
          (updatePlaylistUI index ;;
           setThis (set_currentIndex index) ;;
           t <- getThis ;;
           match manager t with
           | Some m =>
               match seq m with
               | Some _ =>
                   perform (CallArrayBuffer (file item)) ;;
                   done (Some (AwaitForSequencer item))
               | None =>
                   perform (CallArrayBuffer (file item)) ;;
                   done (Some (AwaitForManager item))
               end
           | None => done None
           end)
          (fun error => playFileFailed item error ;; done None)
    end.

Definition set_midiData (d : option MidiData) (q : Sequencer) : Sequencer :=
  {| midiData := d; loadNewSongList := loadNewSongList q; pause := pause q;
     seq_play := seq_play q |}.

Definition set_seq (q : option Sequencer) (m : Manager) : Manager :=
  {| seq := q; play := play m |}.

Definition undefinedProperty (property : string) : exn :=
  TypeError ("Cannot read properties of undefined (reading '"
             ++ property ++ "')")%string.

Definition nullProperty (property : string) : exn :=
  TypeError
    ("Cannot read properties of null (reading '" ++ property ++ "')")%string.

(** [this.manager.seq], read again after the [await]. *)
Definition theSequencer : Action (Manager * Sequencer) :=
  t <- getThis ;;
  match manager t with
  | None => raise (nullProperty "seq")
  | Some m =>
      match seq m with
      | None => raise (undefinedProperty "loadNewSongList")
      | Some q => done (m, q)
      end
  end.

(** Lines 183 to 195 and 198 to 204, from the [await] on: the promise of
    [arrayBuffer()] has settled to [settled]. *)
Definition playFileResumed (pending : Pending)
    (settled : completion (list Byte.byte)) : Action unit :=
  match pending with
  | AwaitForSequencer item =>
      tryCatch
        (match settled with
         | Throw reason => raise reason
         | Normal buffer =>
             let parsed := [{| binary := buffer; altName := name item |}] in
             mq <- theSequencer ;;
             loaded <- invokeMethod (CallLoadNewSongList parsed)
                         (loadNewSongList (snd mq) parsed) ;;
             setThis (fun t =>
               set_manager
                 (Some (set_seq (Some (set_midiData loaded (snd mq)))
                          (fst mq))) t) ;;
             setThis (set_isPlaying true) ;;
             whenever (truthy loaded)
               (setThis (fun t =>
                  set_manager
                    (Some (set_seq
                             (Some (set_midiData
                                      (Some {| midiName := name item |})
                                      (snd mq)))
                             (fst mq))) t)) ;;
             showNotification (playingText item)
         end)
        (playFileFailed item)
  | AwaitForManager item =>
      tryCatch
        (match settled with
         | Throw reason => raise reason
         | Normal buffer =>
             let parsed := [{| binary := buffer; altName := name item |}] in
             t <- getThis ;;
             match manager t with
             | None => raise (nullProperty "play")
             | Some m =>
                 invokeMethod (CallManagerPlay parsed) (play m parsed) ;;
                 setThis (set_isPlaying true) ;;
                 showNotification (playingText item)
             end
         end)
        (playFileFailed item)
  end.

(** Lines 242 to 249. *)
Definition playNext : Action (option Pending) :=
  t <- getThis ;;
  if currentIndex t <? playlistLength t - 1
  then playFile (currentIndex t + 1)
  else if 0 <? playlistLength t
       then playFile 0
       else done None.

(** Lines 254 to 261. *)
Definition playPrevious : Action (option Pending) :=
  t <- getThis ;;
  if 0 <? currentIndex t
  then playFile (currentIndex t - 1)
  else if 0 <? playlistLength t
       then playFile (playlistLength t - 1)
       else done None.

(** [this.playlistElement.innerHTML = ''] *)
Definition emptyPlaylistElement : Action unit :=
  t <- getThis ;;
  match playlistElement t with
  | None => raise (nullElement "set" "setting 'innerHTML'")
  | Some _ => setThis (set_playlistElement (Some []))
  end.

(** Lines 266 to 273. *)
Definition clearPlaylist : Action unit :=
  setThis (set_playlist []) ;;
  setThis (set_currentIndex (-1)) ;;
  setThis (set_isPlaying false) ;;
  emptyPlaylistElement ;;
  updateControlButtons ;;
  showNotification clearedText.

(** [this.playlist.forEach((item, index) => this.renderPlaylistItem(item,
    index))], from [index] on. *)
Fixpoint renderItemsFrom (index : Z) (items : list Item) : Action unit :=
  match items with
  | [] => done tt
  | item :: rest =>
      renderPlaylistItem item index ;;
      renderItemsFrom (index + 1) rest
  end.

(** Lines 342 to 348. *)
Definition renderPlaylist : Action unit :=
  emptyPlaylistElement ;;
  t <- getThis ;;
  renderItemsFrom 0 (playlist t) ;;
  t <- getThis ;;
  updatePlaylistUI (currentIndex t).

(** [array.splice(index, 1)] for [0 <= index < array.length]. *)
Definition splice1 {A} (index : nat) (l : list A) : list A :=
  firstn index l ++ skipn (S index) l.

(** Lines 324 to 337. *)
Definition removeFromPlaylist (index : Z) : Action unit :=
  t <- getThis ;;
  if (index <? 0) || (playlistLength t <=? index) then done tt
  else
    setThis (fun t => set_playlist (splice1 (Z.to_nat index) (playlist t)) t) ;;
    renderPlaylist ;;
    t <- getThis ;;
    whenever (index <=? currentIndex t)
      (setThis (set_currentIndex (Z.max 0 (currentIndex t - 1)))) ;;
    updateControlButtons ;;
    showNotification removedText.

(** What [handleKeyboardShortcuts] reads of a [KeyboardEvent]. *)
Record KeyboardEvent : Type := {
  target_tagName : jsstring;
  targetIsBody : bool;
  key : jsstring;
  ctrlKey : bool
}.

(** Lines 447 to 482.  The result is the [await] that a [playFile]
    started by the key has left pending. *)
Definition handleKeyboardShortcuts (event : KeyboardEvent)
  : Action (option Pending) :=
  if jsstring_eqb (target_tagName event) (js "INPUT")
     || jsstring_eqb (target_tagName event) (js "TEXTAREA")
  then done None
  else if jsstring_eqb (key event) (js "ArrowRight") then
    if ctrlKey event
    then perform PreventDefault ;; playNext
    else done None
  else if jsstring_eqb (key event) (js "ArrowLeft") then
    if ctrlKey event
    then perform PreventDefault ;; playPrevious
    else done None
  else if jsstring_eqb (key event) (js " ") then
    if targetIsBody event then
      perform PreventDefault ;;
      t <- getThis ;;
      match manager t with
      | Some m =>
          match seq m with
          | Some q =>
              (if isPlaying t
               then invokeMethod CallPause (pause q) ;;
                    setThis (set_isPlaying false)
               else invokeMethod CallPlay (seq_play q) ;;
                    setThis (set_isPlaying true)) ;;
              done None
          | None => done None
          end
      | None => done None
      end
    else done None
  else done None.

(** Lines 505 to 507. *)
Definition setManager (m : option Manager) : Action unit :=
  setThis (set_manager m).

Section Folder.

(** [String.prototype.toLowerCase] and [String.prototype.localeCompare]
    belong to the runtime and its locale. *)
Variable toLowerCase : jsstring -> jsstring.
Variable localeCompare : jsstring -> jsstring -> Z.

(** The filter of lines 82 to 89. *)
Definition isMidiFile (f : File) : bool :=
  endsWith (toLowerCase (file_name f)) (js ".mid")
  || endsWith (toLowerCase (file_name f)) (js ".midi")
  || endsWith (toLowerCase (file_name f)) (js ".rmi")
  || endsWith (toLowerCase (file_name f)) (js ".kar")
  || endsWith (toLowerCase (file_name f)) (js ".xmf")
  || endsWith (toLowerCase (file_name f)) (js ".mxmf").

(** [Array.prototype.sort] is stable; with the comparator of line 97 it
    is the insertion of each file before the first one that does not
    compare below it. *)
Fixpoint insertByName (f : File) (sorted : list File) : list File :=
  match sorted with
  | [] => [f]
  | g :: rest =>
      if localeCompare (file_name f) (file_name g) <=? 0
      then f :: g :: rest
      else g :: insertByName f rest
  end.

Definition sortByName (files : list File) : list File :=
  fold_right insertByName [] files.

Fixpoint addAll (files : list File) : Action unit :=
  match files with
  | [] => done tt
  | f :: rest => addToPlaylist f ;; addAll rest
  end.

(** Lines 74 to 110; the function is [async] but awaits nothing. *)
Definition handleFolderImport (files : option (list File))
  : Action (option Pending) :=
  match files with
  | None => done None
  | Some [] => done None
  | Some files =>
      setThis (set_playlist []) ;;
      setThis (set_currentIndex (-1)) ;;
      clearPlaylist ;;
      let midiFiles := filter isMidiFile files in
      match midiFiles with
      | [] =>
          showNotification noMidiText ;;
          done None
      | _ :: _ =>
          let midiFiles := sortByName midiFiles in
          addAll midiFiles ;;
          showNotification (importedText (length midiFiles)) ;;
          t <- getThis ;;
          if 0 <? playlistLength t then playFile 0 else done None
      end
  end.

End Folder.

(** The manager as the constructor leaves it, lines 7 to 29, on a page
    whose element with id [playlist] is [element]. *)
Definition constructed (element : option (list Li)) : PlaylistManager :=
  {| playlist := []; currentIndex := -1; isPlaying := false;
     playlistElement := element; manager := None |}.

(** The [li]s that [renderPlaylistItem] makes of a playlist. *)
Fixpoint rendered (index : Z) (items : list Item) : list Li :=
  match items with
  | [] => []
  | item :: rest =>
      {| textContent := formatFileName (name item); title := name item;
         dataset_index := index; active := false |}
        :: rendered (index + 1) rest
  end.

(** *** What the methods leave on the page *)

(** The text that line 313 or line 315 writes for a manager [t]. *)
Definition trackText (t : PlaylistManager) : jsstring :=
  if (0 <=? currentIndex t) && (currentIndex t <? playlistLength t)
  then playingName (nth (Z.to_nat (currentIndex t)) (map name (playlist t)) [])
  else noTrackText.

(** The document after [updateControlButtons] has run for a manager [t]:
    every element that is there is brought up to date with [t]. *)
Definition refreshed (t : PlaylistManager) (d : Document) : Document :=
  {| prevBtn :=
       option_map (fun _ => (playlistLength t =? 0) || (currentIndex t <=? 0))
                  (prevBtn d);
     nextBtn :=
       option_map (fun _ => (playlistLength t =? 0)
                            || (playlistLength t - 1 <=? currentIndex t))
                  (nextBtn d);
     clearBtn := option_map (fun _ => playlistLength t =? 0) (clearBtn d);
     playlistCount := option_map (fun _ => countText t) (playlistCount d);
     currentTrack := option_map (fun _ => trackText t) (currentTrack d);
     windowShowNotification := windowShowNotification d |}.

(** The [li]s after [updatePlaylistUI activeIndex]. *)
Definition highlighted (activeIndex : Z) (lis : list Li) : list Li :=
  if (0 <=? activeIndex) && (activeIndex <? Z.of_nat (length lis))
  then activateAt (Z.to_nat activeIndex) (map deactivate lis)
  else map deactivate lis.

(** What [showNotification] does on a document. *)
Definition notification (d : Document) (message : jsstring) : effect :=
  if windowShowNotification d
  then ShowNotification (js "Playlist") message
  else ConsoleLog (js "Playlist:") message.

(** The entry that [addToPlaylist] makes of a file. *)
Definition itemOf (f : File) : Item :=
  {| file := f; name := file_name f; size := file_size f;
     lastModified := file_lastModified f |}.

(** The [await] that [playFile] stops at, for a manager [t]. *)
Definition pendingFor (t : PlaylistManager) (item : Item) : option Pending :=
  match manager t with
  | Some m =>
      match seq m with
      | Some _ => Some (AwaitForSequencer item)
      | None => Some (AwaitForManager item)
      end
  | None => None
  end.

(** The scroll of line 229. *)
Definition scrolled (index : Z) (lis : list Li) : list effect :=
  if (0 <=? index) && (index <? Z.of_nat (length lis))
  then [ScrollIntoView index] else [].

(** The calls of [arrayBuffer()] of lines 183 and 198. *)
Definition requested (t : PlaylistManager) (item : Item) : list effect :=
  match pendingFor t item with
  | Some _ => [CallArrayBuffer (file item)]
  | None => []
  end.

(** The manager after [clearPlaylist]. *)
Definition cleared (t : PlaylistManager) : PlaylistManager :=
  {| playlist := []; currentIndex := -1; isPlaying := false;
     playlistElement := Some []; manager := manager t |}.

(** The current index after lines 331 to 333, on the removal of the entry
    at [index]. *)
Definition adjusted (index current : Z) : Z :=
  if index <=? current then Z.max 0 (current - 1) else current.

(** The index that [playNext] passes to [playFile]; on an empty playlist,
    where [playNext] calls nothing, it is outside the playlist. *)
Definition nextIndex (t : PlaylistManager) : Z :=
  if currentIndex t <? playlistLength t - 1 then currentIndex t + 1 else 0.

(** The index that [playPrevious] passes to [playFile]; on an empty
    playlist it is outside the playlist. *)
Definition previousIndex (t : PlaylistManager) : Z :=
  if 0 <? currentIndex t then currentIndex t - 1 else playlistLength t - 1.

(** The managers that differ in [isPlaying] and [manager] at most. *)
Definition sameList (t t' : PlaylistManager) : Prop :=
  playlist t' = playlist t
  /\ currentIndex t' = currentIndex t
  /\ playlistElement t' = playlistElement t.

(** The manager after [removeFromPlaylist index], for an [index] of the
    playlist: the [li]s are marked for the index before the removal. *)
Definition removed (index : Z) (t : PlaylistManager) : PlaylistManager :=
  {| playlist := splice1 (Z.to_nat index) (playlist t);
     currentIndex := adjusted index (currentIndex t);
     isPlaying := isPlaying t;
     playlistElement :=
       Some (highlighted (currentIndex t)
               (rendered 0 (splice1 (Z.to_nat index) (playlist t))));
     manager := manager t |}.

(** The entry that a suspended [playFile] is about to play. *)
Definition pendingItem (pending : Pending) : Item :=
  match pending with
  | AwaitForSequencer item => item
  | AwaitForManager item => item
  end.

(** The manager after the sequencer [q] of the manager [m] has loaded
    [item] and left [data] as its [midiData]. *)
Definition loaded (m : Manager) (q : Sequencer) (data : option MidiData)
    (item : Item) (t : PlaylistManager) : PlaylistManager :=
  {| playlist := playlist t; currentIndex := currentIndex t;
     isPlaying := true; playlistElement := playlistElement t;
     manager :=
       Some (set_seq
               (Some (set_midiData
                        (option_map (fun _ => {| midiName := name item |})
                                    data) q)) m) |}.

(** What the [catch] block of [playFile] does for an error [e]. *)
Definition failure (d : Document) (item : Item) (e : exn) : list effect :=
  [ConsoleError (js "Error playing file:") e;
   notification d (failedText item)].


(** Whether the continuation of [playFile] gets through lines 183 to 204:
    the promise of [arrayBuffer()] was fulfilled, the manager is still
    there, for the sequencer's branch so is the sequencer, and the call of
    [loadNewSongList] or of [manager.play] completes. *)
Definition resumes (pending : Pending)
    (settled : completion (list Byte.byte)) (t : PlaylistManager) : bool :=
  match settled, manager t with
  | Normal buffer, Some m =>
      match pending with
      | AwaitForSequencer item =>
          match seq m with
          | Some q =>
              match loadNewSongList q
                      [{| binary := buffer; altName := name item |}] with
              | Normal _ => true
              | Throw _ => false
              end
          | None => false
          end
      | AwaitForManager item =>
          match play m [{| binary := buffer; altName := name item |}] with
          | Normal _ => true
          | Throw _ => false
          end
      end
  | _, _ => false
  end.

(** The manager after [addToPlaylist] of each of [files], on a playlist
    element that held [lis]. *)
Definition extended (files : list File) (lis : list Li) (t : PlaylistManager)
  : PlaylistManager :=
  {| playlist := playlist t ++ map itemOf files;
     currentIndex := currentIndex t;
     isPlaying := isPlaying t;
     playlistElement :=
       Some (lis ++ rendered (playlistLength t) (map itemOf files));
     manager := manager t |}.

(** The manager after an import of [items]: before the [playFile(0)] of
    line 108, and after it. *)
Definition listed (items : list Item) (t : PlaylistManager) : PlaylistManager :=
  {| playlist := items; currentIndex := -1; isPlaying := false;
     playlistElement := Some (rendered 0 items); manager := manager t |}.

Definition imported (items : list Item) (t : PlaylistManager)
  : PlaylistManager :=
  {| playlist := items; currentIndex := 0; isPlaying := false;
     playlistElement := Some (highlighted 0 (rendered 0 items));
     manager := manager t |}.

(** The calls of the sequencer, of the manager and of a file. *)
Definition is_playback (e : effect) : bool :=
  match e with
  | CallArrayBuffer _ | CallLoadNewSongList _ | CallManagerPlay _
  | CallPause | CallPlay => true
  | _ => false
  end.

(** The index is [-1], or one of the playlist's, or [0] on a playlist that
    a removal has emptied. *)
Definition indexInRange (t : PlaylistManager) : Prop :=
  -1 <= currentIndex t <= Z.max 0 (playlistLength t - 1).

(** The [li]s with their class lists emptied. *)
Definition unmarked (lis : list Li) : list Li := map deactivate lis.

(** The playlist element shows the playlist: an [li] per entry, in order,
    with the entry's position as its index; at most one [li] is marked.
    A manager without a playlist element never gets a current index. *)
Definition mirrored (t : PlaylistManager) : Prop :=
  match playlistElement t with
  | Some lis =>
      unmarked lis = rendered 0 (playlist t)
      /\ (length (filter active lis) <= 1)%nat
  | None => currentIndex t = -1
  end.

Section Host.

Variable toLowerCase : jsstring -> jsstring.
Variable localeCompare : jsstring -> jsstring -> Z.

(** The calls that the page and the host make on the manager. *)
Inductive Request : Type :=
| FolderImport (files : option (list File))
| AddToPlaylist (f : File)
| PlayFile (index : Z)
| Resume (pending : Pending) (settled : completion (list Byte.byte))
| PlayNext
| PlayPrevious
| ClearPlaylist
| RemoveFromPlaylist (index : Z)
| RenderPlaylist
| KeyDown (event : KeyboardEvent)
| SetManager (m : option Manager).

Definition forget {A} (m : Action A) : Action unit :=
  fun p => mkStep (effects (m p)) (after (m p))
             (match result (m p) with
              | Normal _ => Normal tt
              | Throw e => Throw e
              end).

Definition serve (r : Request) : Action unit :=
  match r with
  | FolderImport files =>
      forget (handleFolderImport toLowerCase localeCompare files)
  | AddToPlaylist f => addToPlaylist f
  | PlayFile index => forget (playFile index)
  | Resume pending settled => playFileResumed pending settled
  | PlayNext => forget playNext
  | PlayPrevious => forget playPrevious
  | ClearPlaylist => clearPlaylist
  | RemoveFromPlaylist index => removeFromPlaylist index
  | RenderPlaylist => renderPlaylist
  | KeyDown event => forget (handleKeyboardShortcuts event)
  | SetManager m => setManager m
  end.

(** The page after a sequence of calls; an exception ends its own call
    only. *)
Fixpoint serveAll (rs : list Request) (p : Page) : Page :=
  match rs with
  | [] => p
  | r :: rest => serveAll rest (after (serve r p))
  end.

End Host.

End Playlist.

(** ** A concrete page *)

Module PlaylistDemo.

Import Playlist.

Local Open Scope list_scope.

(** Stand-ins for the two functions of the runtime, for file names in
    ASCII: the letters of ASCII in lower case, where the runtime also
    maps letters outside ASCII, and below the order of the code units,
    where the runtime collates by locale.  The properties of the import
    hold for every pair of functions; these only give them a page to be
    applied on. *)
Definition toLowerCase (s : jsstring) : jsstring :=
  map (fun c => if ((65 <=? c) && (c <=? 90))%N then (c + 32)%N else c) s.

(** The order of the code units. *)
Fixpoint localeCompare (a b : jsstring) : Z :=
  match a, b with
  | [], [] => 0
  | [], _ :: _ => -1
  | _ :: _, [] => 1
  | x :: a', y :: b' =>
      if (x <? y)%N then -1
      else if (y <? x)%N then 1
      else localeCompare a' b'
  end.

Definition named (name : string) : File :=
  {| file_name := js name; file_size := 2048; file_lastModified := 0;
     arrayBuffer := Normal [] |}.

Definition sequencer : Sequencer :=
  {| midiData := None;
     loadNewSongList := fun _ => Normal (Some {| midiName := [] |});
     pause := Normal tt;
     seq_play := Normal tt |}.

Definition synthManager : Manager :=
  {| seq := Some sequencer; play := fun _ => Normal tt |}.

(** A page with the three buttons and the two labels. *)
Definition labels : Document :=
  {| prevBtn := Some true; nextBtn := Some true; clearBtn := Some true;
     playlistCount := Some (js "0 songs"); currentTrack := Some (js "-");
     windowShowNotification := true |}.

Definition songs : list Item :=
  map itemOf [named "a.mid"; named "b.mid"; named "c.mid"].

(** The folder that the user selects. *)
Definition folder : list File :=
  [named "b.mid"; named "notes.txt"; named "A.MID"].

(** The page after the constructor. *)
Definition fresh : Page :=
  {| this := constructed (Some []); document := labels |}.

(** Three songs, the second one playing. *)
Definition listening : Page :=
  {| this := {| playlist := songs; currentIndex := 1; isPlaying := true;
                playlistElement := Some (highlighted 1 (rendered 0 songs));
                manager := Some synthManager |};
     document := labels |}.

(** A manager that has been given songs on a page without a playlist
    element. *)
Definition headless : Page :=
  {| this := set_playlist songs (constructed None); document := labels |}.

Definition spaceKey : KeyboardEvent :=
  {| target_tagName := js "BODY"; targetIsBody := true; key := js " ";
     ctrlKey := false |}.

Definition nextKey : KeyboardEvent :=
  {| target_tagName := js "BODY"; targetIsBody := true;
     key := js "ArrowRight"; ctrlKey := true |}.

End PlaylistDemo.

(** ** Properties of the render loop *)

Section Properties.

Context {NoteToRender NoteTimes : Type}.
Variable FONT_SIZE : float.
Variable waveformsMode : Z.
Variable drawNotes : list NoteToRender -> bool -> completion unit.
Variable performance_now : nat -> float.

Local Abbreviation State := (@State NoteToRender NoteTimes).
Local Abbreviation Renderer := (@Renderer NoteToRender NoteTimes).
Local Abbreviation Call := (@Call NoteToRender NoteTimes).
Local Abbreviation Result := (@Result NoteToRender NoteTimes).
Local Abbreviation M := (@M NoteToRender NoteTimes).
Local Abbreviation event := (@event NoteToRender).
Local Abbreviation nothingToDo' := (nothingToDo waveformsMode).
Local Abbreviation skips' := (skips waveformsMode).
Local Abbreviation idleBranch' := (idleBranch waveformsMode).
Local Abbreviation drawLayers' := (drawLayers drawNotes).
Local Abbreviation drawOverlay' := (drawOverlay FONT_SIZE performance_now).
Local Abbreviation afterTimer' := (afterTimer performance_now).
Local Abbreviation drawFrame' :=
  (drawFrame FONT_SIZE drawNotes performance_now).
Local Abbreviation render' :=
  (render FONT_SIZE waveformsMode drawNotes performance_now).
Local Abbreviation invoke' :=
  (invoke FONT_SIZE waveformsMode drawNotes performance_now).
Local Abbreviation run' :=
  (run FONT_SIZE waveformsMode drawNotes performance_now).
Local Abbreviation throughout' :=
  (throughout FONT_SIZE waveformsMode drawNotes performance_now).

(** *** The monad *)

Lemma result_eta {A} (r : Result A) :
  mkResult (events r) (final r) (outcome r) = r.
Proof. destruct r; reflexivity. Qed.

Lemma bind_normal {A B} (m : M A) (k : A -> M B) (s : State) a :
  outcome (m s) = Normal a ->
  bind m k s =
  mkResult (events (m s) ++ events (k a (final (m s))))
           (final (k a (final (m s))))
           (outcome (k a (final (m s)))).
Proof. intros H. unfold bind. rewrite H. reflexivity. Qed.

Lemma bind_throw {A B} (m : M A) (k : A -> M B) (s : State) e :
  outcome (m s) = Throw e ->
  bind m k s = mkResult (events (m s)) (final (m s)) (Throw e).
Proof. intros H. unfold bind. rewrite H. reflexivity. Qed.

(** *** The branches of [render] *)

Lemma render_cases auto force (s : State) :
  render' auto force s =
  if negb (renderBool (this s)) || nothingToDo' force (this s) then
    if hasRenderedNoVoices s then skipFrame auto s
    else drawFrame' auto true (with_flag true s)
  else drawFrame' auto false (with_flag false s).
Proof.
  unfold render, bind at 1, get. cbn [outcome final events app].
  destruct (negb (renderBool (this s)) || nothingToDo' force (this s)).
  - destruct (hasRenderedNoVoices s).
    + destruct auto; reflexivity.
    + unfold bind at 1, set_hasRenderedNoVoices.
      cbn [outcome final events app]. apply result_eta.
  - unfold bind at 1, set_hasRenderedNoVoices.
    cbn [outcome final events app]. apply result_eta.
Qed.

(** *** The parts of a drawn frame *)

Lemma scheduleAndClear_result auto r (s : State) :
  scheduleAndClear auto r s =
  mkResult (scheduleAndClearEvents auto r) s (Normal tt).
Proof. destruct auto; reflexivity. Qed.

Lemma drawLayers_final forceStraight r (s : State) :
  final (drawLayers' forceStraight r s) = s.
Proof.
  unfold drawLayers, when.
  destruct (renderAnalysers r && negb (highPerformanceMode (synth r)));
    destruct (renderNotes r && truthy (noteTimes r));
    destruct (renderWaveforms r forceStraight);
    destruct (computeNotePositions r (highPerformanceMode (synth r)))
      as [notes|];
    destruct (negb (highPerformanceMode (synth r)));
    try destruct (drawNotes notes (sideways r));
    reflexivity.
Qed.

Lemma drawOverlay_final r (s : State) :
  final (drawOverlay' r s) = afterTimer' s.
Proof.
  unfold drawOverlay, drawTempo, drawHoldPedal, seq_property, when.
  destruct (truthy (noteTimes r)); destruct (seq r);
    destruct (showHoldPedal r); destruct (onRender r); reflexivity.
Qed.

(** *** Reasoning about the events of a computation *)

Lemma Forall_events_bind {A B} (P : event -> Prop) (m : M A)
    (k : A -> M B) (s : State) :
  Forall P (events (m s)) ->
  (forall a, outcome (m s) = Normal a ->
             Forall P (events (k a (final (m s))))) ->
  Forall P (events (bind m k s)).
Proof.
  intros Hm Hk. unfold bind.
  destruct (outcome (m s)) as [a|e] eqn:Ho; cbn [events].
  - apply Forall_app. split; [exact Hm | apply Hk; reflexivity].
  - exact Hm.
Qed.

Lemma In_events_bind_l {A B} (e : event) (m : M A) (k : A -> M B)
    (s : State) :
  In e (events (m s)) -> In e (events (bind m k s)).
Proof.
  intros H. unfold bind. destruct (outcome (m s)); cbn [events].
  - apply in_or_app. left. exact H.
  - exact H.
Qed.

Lemma In_events_bind_r {A B} (e : event) (m : M A) (k : A -> M B)
    (s : State) a :
  outcome (m s) = Normal a ->
  In e (events (k a (final (m s)))) ->
  In e (events (bind m k s)).
Proof.
  intros Ho H. rewrite (bind_normal m k s a Ho). cbn [events].
  apply in_or_app. right. exact H.
Qed.

Lemma outcome_bind_normal {A B} (m : M A) (k : A -> M B) (s : State) a :
  outcome (m s) = Normal a ->
  outcome (bind m k s) = outcome (k a (final (m s))).
Proof. intros Ho. rewrite (bind_normal m k s a Ho). reflexivity. Qed.

Ltac forall_events :=
  repeat match goal with
    | |- Forall _ (events (bind _ _ _)) =>
        apply Forall_events_bind; [|intros ? _]
    | |- Forall _ (events (when true _ _)) => cbn [when]
    | |- Forall _ (events (when false _ _)) => cbn [when]
    | |- Forall _ (events (when ?b _ _)) => destruct b eqn:?; cbn [when]
    | |- Forall _ (events (match ?o with _ => _ end _)) => destruct o
    | |- Forall _ (events (emit _ _)) => repeat constructor
    | |- Forall _ (events (call _ _ _)) => repeat constructor
    | |- Forall _ (events (ret _ _)) => constructor
    | |- Forall _ (events (throw _ _)) => constructor
    | |- Forall _ (events (now _ _)) => constructor
    | |- Forall _ (events (assign_frameTimeStart _ _)) => constructor
    end.

Lemma drawLayers_events forceStraight r (s : State) :
  Forall (fun e => is_layer_call e = true)
         (events (drawLayers' forceStraight r s)).
Proof. unfold drawLayers. forall_events. Qed.

Lemma drawOverlay_events r (s : State) :
  Forall (fun e => is_overlay e = true) (events (drawOverlay' r s)).
Proof.
  unfold drawOverlay, drawTempo, drawHoldPedal, seq_property.
  forall_events.
Qed.

Lemma events_mk {A} (ev : list event) (st : State) (o : completion A) :
  events (mkResult ev st o) = ev.
Proof. reflexivity. Qed.

Lemma final_mk {A} (ev : list event) (st : State) (o : completion A) :
  final (mkResult ev st o) = st.
Proof. reflexivity. Qed.

Lemma outcome_mk {A} (ev : list event) (st : State) (o : completion A) :
  outcome (mkResult ev st o) = o.
Proof. reflexivity. Qed.

Ltac projections := rewrite ?events_mk, ?final_mk, ?outcome_mk.

(** A drawn frame: the preamble, the layers and, unless a layer threw,
    the overlay. *)
Lemma drawFrame_unfold auto forceStraight (s : State) :
  drawFrame' auto forceStraight s =
  mkResult
    (scheduleAndClearEvents auto (this s)
     ++ events (bind (drawLayers' forceStraight (this s))
                     (fun _ => drawOverlay' (this s)) s))
    (final (bind (drawLayers' forceStraight (this s))
                 (fun _ => drawOverlay' (this s)) s))
    (outcome (bind (drawLayers' forceStraight (this s))
                   (fun _ => drawOverlay' (this s)) s)).
Proof.
  unfold drawFrame.
  rewrite (bind_normal get _ s s eq_refl).
  cbn [get events final outcome app]. rewrite result_eta.
  rewrite (bind_normal _ _ s tt)
    by (rewrite scheduleAndClear_result; reflexivity).
  rewrite scheduleAndClear_result. projections. reflexivity.
Qed.

Lemma drawFrame_normal auto forceStraight (s : State) :
  outcome (drawLayers' forceStraight (this s) s) = Normal tt ->
  drawFrame' auto forceStraight s =
  mkResult
    (scheduleAndClearEvents auto (this s)
     ++ events (drawLayers' forceStraight (this s) s)
     ++ events (drawOverlay' (this s) s))
    (afterTimer' s)
    (outcome (drawOverlay' (this s) s)).
Proof.
  intros Hl. rewrite drawFrame_unfold.
  rewrite (bind_normal _ _ s tt Hl). projections.
  rewrite drawLayers_final, drawOverlay_final. reflexivity.
Qed.

Lemma drawFrame_throw auto forceStraight (s : State) e :
  outcome (drawLayers' forceStraight (this s) s) = Throw e ->
  drawFrame' auto forceStraight s =
  mkResult
    (scheduleAndClearEvents auto (this s)
     ++ events (drawLayers' forceStraight (this s) s))
    s (Throw e).
Proof.
  intros Hl. rewrite drawFrame_unfold.
  rewrite (bind_throw _ _ s e Hl). projections.
  rewrite drawLayers_final. reflexivity.
Qed.

(** *** The overlay *)

Ltac next_step := eapply In_events_bind_r; [reflexivity | cbv beta].
Ltac this_step := apply In_events_bind_l; left; reflexivity.

Lemma drawOverlay_fps r (s : State) :
  In (FillText
        (fpsLabel (1000 / (performance_now (clockReads s)
                           - frameTimeStart r))%float)
        (width (canvas r)) (FONT_SIZE * 2 + 5)%float)
     (events (drawOverlay' r s)).
Proof. unfold drawOverlay. do 8 next_step. this_step. Qed.

Lemma drawOverlay_baseline r (s : State) :
  In (TextBaseline "hanging") (events (drawOverlay' r s)).
Proof. unfold drawOverlay. do 3 next_step. this_step. Qed.

Lemma drawTempo_label r q (s : State) :
  seq r = Some q ->
  In (FillText (tempoLabel (currentTempo q) (playbackRate q)) 0 5)
     (events (drawTempo FONT_SIZE r s)).
Proof.
  intros Hq. unfold drawTempo, seq_property. rewrite Hq.
  do 3 next_step. this_step.
Qed.

Lemma drawOverlay_tempo r q (s : State) :
  truthy (noteTimes r) = true ->
  seq r = Some q ->
  In (FillText (tempoLabel (currentTempo q) (playbackRate q)) 0 5)
     (events (drawOverlay' r s)).
Proof.
  intros Hn Hq. unfold drawOverlay. do 11 next_step.
  apply In_events_bind_l. rewrite Hn. cbn [when].
  apply drawTempo_label. exact Hq.
Qed.

Lemma outcome_bind_throw {A B} (m : M A) (k : A -> M B) (s : State) e :
  outcome (m s) = Throw e -> outcome (bind m k s) = Throw e.
Proof. intros Ho. rewrite (bind_throw m k s e Ho). reflexivity. Qed.

Ltac skip_step := erewrite outcome_bind_normal by reflexivity; cbv beta.

Lemma drawTempo_outcome r (s : State) :
  outcome (drawTempo FONT_SIZE r s) =
  match seq r with
  | Some _ => Normal tt
  | None => Throw undefinedTempo
  end.
Proof.
  unfold drawTempo, seq_property.
  destruct (seq r).
  - do 4 skip_step. reflexivity.
  - skip_step. apply outcome_bind_throw. reflexivity.
Qed.

Lemma drawHoldPedal_outcome r (s : State) :
  outcome (drawHoldPedal FONT_SIZE r s) = Normal tt.
Proof. unfold drawHoldPedal. do 2 skip_step. reflexivity. Qed.

Lemma hook_outcome (r : Renderer) (s : State) :
  outcome (match onRender r with
           | Some hook => call OnRender hook
           | None => ret tt
           end s) = hookOutcome r.
Proof. unfold hookOutcome. destruct (onRender r); reflexivity. Qed.

(** The overlay fails exactly when note times are there and the
    sequencer is not. *)
Lemma drawOverlay_outcome r (s : State) :
  outcome (drawOverlay' r s) =
  if truthy (noteTimes r) && is_undefined (seq r)
  then Throw undefinedTempo
  else hookOutcome r.
Proof.
  unfold drawOverlay. do 11 skip_step.
  destruct (truthy (noteTimes r)) eqn:Hn; cbn [when andb].
  - destruct (seq r) eqn:Hq; cbn [is_undefined].
    + erewrite outcome_bind_normal
        by (rewrite drawTempo_outcome, Hq; reflexivity).
      destruct (showHoldPedal r); cbn [when].
      * erewrite outcome_bind_normal by apply drawHoldPedal_outcome.
        apply hook_outcome.
      * skip_step. apply hook_outcome.
    + apply outcome_bind_throw. rewrite drawTempo_outcome, Hq. reflexivity.
  - skip_step. destruct (showHoldPedal r); cbn [when].
    + erewrite outcome_bind_normal by apply drawHoldPedal_outcome.
      apply hook_outcome.
    + skip_step. apply hook_outcome.
Qed.

Lemma drawOverlay_holdPedal r (s : State) :
  truthy (noteTimes r) && is_undefined (seq r) = false ->
  showHoldPedal r = true ->
  In (FillText (holdPedalIsDownText r)
        (width (canvas r) / 2)%float (height (canvas r) / 4)%float)
     (events (drawOverlay' r s)).
Proof.
  intros Hok Hp. unfold drawOverlay. do 11 next_step.
  eapply In_events_bind_r.
  - destruct (truthy (noteTimes r)); cbn [when].
    + rewrite drawTempo_outcome.
      destruct (seq r); [reflexivity | discriminate Hok].
    + reflexivity.
  - apply In_events_bind_l. rewrite Hp. cbn [when].
    unfold drawHoldPedal. do 2 next_step. left. reflexivity.
Qed.

(** *** The layers *)

Lemma drawLayers_outcome forceStraight r (s : State) :
  outcome (drawLayers' forceStraight r s) = Normal tt
  \/ exists e, outcome (drawLayers' forceStraight r s) = Throw e.
Proof.
  destruct (outcome (drawLayers' forceStraight r s)) as [[]|e];
    [left; reflexivity | right; exists e; reflexivity].
Qed.

(** A layer that throws has been called. *)
Lemma drawLayers_throw_called forceStraight r (s : State) e :
  outcome (drawLayers' forceStraight r s) = Throw e ->
  events (drawLayers' forceStraight r s) <> [].
Proof.
  unfold drawLayers, when.
  destruct (renderAnalysers r && negb (highPerformanceMode (synth r)));
    destruct (renderNotes r && truthy (noteTimes r));
    destruct (renderWaveforms r forceStraight) as [[]|];
    destruct (computeNotePositions r (highPerformanceMode (synth r)))
      as [notes|];
    destruct (negb (highPerformanceMode (synth r)));
    try destruct (drawNotes notes (sideways r)) as [[]|];
    cbv; congruence.
Qed.

Lemma drawLayers_waveforms_gate forceStraight r (s : State) :
  renderAnalysers r && negb (highPerformanceMode (synth r)) = false ->
  Forall (fun e => match e with RenderWaveforms _ => False | _ => True end)
         (events (drawLayers' forceStraight r s)).
Proof. intros H. unfold drawLayers. rewrite H. forall_events. Qed.

Lemma drawLayers_waveforms_called forceStraight r (s : State) :
  renderAnalysers r && negb (highPerformanceMode (synth r)) = true ->
  In (RenderWaveforms forceStraight) (events (drawLayers' forceStraight r s)).
Proof.
  intros H. unfold drawLayers. rewrite H. cbn [when].
  apply In_events_bind_l. left. reflexivity.
Qed.

Lemma drawLayers_waveforms_flag forceStraight r (s : State) :
  Forall (fun e => match e with
                   | RenderWaveforms b => b = forceStraight
                   | _ => True
                   end)
         (events (drawLayers' forceStraight r s)).
Proof. unfold drawLayers. forall_events. Qed.

(** *** Drawn frames *)

Lemma drawn_In (evs : list event) e :
  In e evs -> is_schedule e = false -> drawn evs = true.
Proof.
  intros Hin He. unfold drawn. apply existsb_exists.
  exists e. split; [exact Hin | rewrite He; reflexivity].
Qed.

Lemma drawFrame_In auto forceStraight (s : State) e :
  In e (events (drawFrame' auto forceStraight s)) ->
  In e (scheduleAndClearEvents auto (this s))
  \/ In e (events (drawLayers' forceStraight (this s) s))
  \/ In e (events (drawOverlay' (this s) s)).
Proof.
  destruct (drawLayers_outcome forceStraight (this s) s) as [Hl | [x Hl]].
  - rewrite (drawFrame_normal auto _ _ Hl). projections.
    rewrite !in_app_iff. tauto.
  - rewrite (drawFrame_throw auto _ _ _ Hl). projections.
    rewrite !in_app_iff. tauto.
Qed.

Lemma drawFrame_In_layers auto forceStraight (s : State) e :
  In e (events (drawLayers' forceStraight (this s) s)) ->
  In e (events (drawFrame' auto forceStraight s)).
Proof.
  destruct (drawLayers_outcome forceStraight (this s) s) as [Hl | [x Hl]].
  - rewrite (drawFrame_normal auto _ _ Hl). projections.
    rewrite !in_app_iff. tauto.
  - rewrite (drawFrame_throw auto _ _ _ Hl). projections.
    rewrite !in_app_iff. tauto.
Qed.

Lemma drawFrame_In_overlay auto forceStraight (s : State) e :
  outcome (drawLayers' forceStraight (this s) s) = Normal tt ->
  In e (events (drawOverlay' (this s) s)) ->
  In e (events (drawFrame' auto forceStraight s)).
Proof.
  intros Hl. rewrite (drawFrame_normal auto _ _ Hl). projections.
  rewrite !in_app_iff. tauto.
Qed.

Lemma drawFrame_flag auto forceStraight (s : State) :
  hasRenderedNoVoices (final (drawFrame' auto forceStraight s))
  = hasRenderedNoVoices s.
Proof.
  destruct (drawLayers_outcome forceStraight (this s) s) as [Hl | [x Hl]].
  - rewrite (drawFrame_normal auto _ _ Hl). projections. reflexivity.
  - rewrite (drawFrame_throw auto _ _ _ Hl). projections. reflexivity.
Qed.

Lemma layer_call_not_schedule (e : event) :
  is_layer_call e = true -> is_schedule e = false.
Proof. destruct e; cbn; congruence. Qed.

(** Every frame that reaches line 42 touches the surface. *)
Lemma drawFrame_drawn auto forceStraight (s : State) :
  drawn (events (drawFrame' auto forceStraight s)) = true.
Proof.
  destruct (drawLayers_outcome forceStraight (this s) s) as [Hl | [x Hl]].
  - apply drawn_In with (e := TextBaseline "hanging").
    + apply drawFrame_In_overlay; [exact Hl | apply drawOverlay_baseline].
    + reflexivity.
  - pose proof (drawLayers_throw_called _ _ _ _ Hl) as Hne.
    pose proof (drawLayers_events forceStraight (this s) s) as Hall.
    destruct (events (drawLayers' forceStraight (this s) s))
      as [|e evs] eqn:He; [congruence|].
    apply drawn_In with (e := e).
    + apply drawFrame_In_layers. rewrite He. left. reflexivity.
    + apply layer_call_not_schedule.
      apply (Forall_inv Hall).
Qed.

(** *** The decision of [render] *)

Lemma render_skip auto force (s : State) :
  skips' force s = true -> render' auto force s = skipFrame auto s.
Proof.
  unfold skips, idleBranch. intros H. apply andb_prop in H.
  destruct H as [Hi Hf]. rewrite render_cases, Hi, Hf. reflexivity.
Qed.

Lemma render_draw auto force (s : State) :
  skips' force s = false ->
  render' auto force s =
  drawFrame' auto (idleBranch' force (this s))
             (with_flag (idleBranch' force (this s)) s).
Proof.
  unfold skips, idleBranch. intros H. rewrite render_cases.
  destruct (negb (renderBool (this s)) || nothingToDo' force (this s)).
  - cbn [andb] in H. rewrite H. reflexivity.
  - reflexivity.
Qed.

(** After an invocation the flag tells which branch of line 20 it took. *)
Lemma render_flag auto force (s : State) :
  hasRenderedNoVoices (final (render' auto force s))
  = idleBranch' force (this s).
Proof.
  destruct (skips' force s) eqn:Hs.
  - rewrite (render_skip auto _ _ Hs). unfold skipFrame. projections.
    unfold skips in Hs. apply andb_prop in Hs. destruct Hs as [Hi Hf].
    rewrite Hi. exact Hf.
  - rewrite (render_draw auto _ _ Hs), drawFrame_flag. reflexivity.
Qed.

(** *** Runs of the loop *)

Lemma throughout_mono (p q : bool -> Renderer -> bool) cs :
  (forall force r, p force r = true -> q force r = true) ->
  forall s : State,
    throughout' p cs s = true -> throughout' q cs s = true.
Proof.
  intros Hpq. induction cs as [|c cs IH]; intros s H; [reflexivity|].
  cbn [throughout] in *. apply andb_prop in H. destruct H as [Hp Hrest].
  rewrite (Hpq _ _ Hp). cbn [andb]. apply IH. exact Hrest.
Qed.

Lemma framesDrawn_cons (evs : list event) frames :
  framesDrawn (evs :: frames)
  = ((if drawn evs then 1 else 0) + framesDrawn frames)%nat.
Proof. unfold framesDrawn. cbn [filter]. destruct (drawn evs); reflexivity. Qed.

Lemma skipFrame_not_drawn auto (s : State) :
  drawn (events (skipFrame auto s)) = false.
Proof. destruct auto; reflexivity. Qed.

(** While line 20 keeps taking the idle branch, one frame is drawn if the
    flag was down, none if it was up, and the flag is up afterwards. *)
Lemma run_idle cs :
  forall s : State,
    throughout' idleBranch' cs s = true ->
    framesDrawn (fst (run' cs s))
    = (if hasRenderedNoVoices s then 0
       else match cs with [] => 0 | _ :: _ => 1 end)%nat
    /\ (cs <> [] -> hasRenderedNoVoices (snd (run' cs s)) = true).
Proof.
  induction cs as [|c cs IH]; intros s H.
  - cbn [run fst snd framesDrawn filter length].
    split; [destruct (hasRenderedNoVoices s); reflexivity | congruence].
  - cbn [throughout] in H. apply andb_prop in H. destruct H as [Hi Hrest].
    destruct (IH _ Hrest) as [Hn Hflag].
    cbn [run fst snd]. rewrite framesDrawn_cons, Hn.
    assert (Hafter : hasRenderedNoVoices (final (invoke' c s)) = true).
    { unfold invoke. rewrite render_flag. exact Hi. }
    rewrite Hafter. split.
    + unfold invoke. destruct (hasRenderedNoVoices s) eqn:Hf.
      * rewrite render_skip.
        -- rewrite skipFrame_not_drawn. reflexivity.
        -- unfold skips. rewrite Hi. exact Hf.
      * rewrite render_draw.
        -- rewrite drawFrame_drawn. reflexivity.
        -- unfold skips. rewrite Hi. exact Hf.
    + intros _. destruct cs as [|c' cs'].
      * cbn [run snd]. exact Hafter.
      * apply Hflag. congruence.
Qed.

Lemma nothingToDo_idleBranch force (r : Renderer) :
  nothingToDo' force r = true -> idleBranch' force r = true.
Proof. intros H. unfold idleBranch. rewrite H. apply orb_true_r. Qed.

Lemma voices_active force (r : Renderer) :
  0 < voicesAmount (synth r) -> nothingToDo' force r = false.
Proof.
  intros H. unfold nothingToDo.
  assert ((voicesAmount (synth r) =? 0) = false) as -> by (apply Z.eqb_neq; lia).
  rewrite andb_false_r. reflexivity.
Qed.

(** The layers do not look at the state. *)
Lemma drawLayers_state forceStraight r (s s' : State) :
  outcome (drawLayers' forceStraight r s)
  = outcome (drawLayers' forceStraight r s')
  /\ events (drawLayers' forceStraight r s)
     = events (drawLayers' forceStraight r s').
Proof.
  unfold drawLayers, when.
  destruct (renderAnalysers r && negb (highPerformanceMode (synth r)));
    destruct (renderNotes r && truthy (noteTimes r));
    destruct (renderWaveforms r forceStraight) as [[]|];
    destruct (computeNotePositions r (highPerformanceMode (synth r)))
      as [notes|];
    destruct (negb (highPerformanceMode (synth r)));
    try destruct (drawNotes notes (sideways r)) as [[]|];
    split; reflexivity.
Qed.

Lemma drawLayers_highPerformance_events forceStraight r (s : State) :
  renderNotes r && truthy (noteTimes r) = true ->
  highPerformanceMode (synth r) = true ->
  events (drawLayers' forceStraight r s) = [ComputeNotePositions true].
Proof.
  intros Hn H. unfold drawLayers. rewrite H, Hn, andb_false_r.
  cbn [negb when].
  destruct (computeNotePositions r true); reflexivity.
Qed.

Lemma filter_none {A} (f : A -> bool) (l : list A) :
  Forall (fun x => f x = false) l -> filter f l = [].
Proof.
  induction 1 as [|x l Hx _ IH]; [reflexivity|].
  cbn [filter]. rewrite Hx. exact IH.
Qed.

Lemma overlay_not_layer_call (e : event) :
  is_overlay e = true -> is_layer_call e = false.
Proof. destruct e; cbn; congruence. Qed.

Lemma preamble_no_layer_call auto (r : Renderer) :
  filter is_layer_call (scheduleAndClearEvents auto r) = [].
Proof. destruct auto; reflexivity. Qed.

(** A drawn frame whose layers complete runs the overlay on the state it
    was entered with. *)
Lemma render_overlay auto force (s : State) :
  skips' force s = false ->
  outcome (drawLayers' (idleBranch' force (this s)) (this s) s) = Normal tt ->
  let s' := with_flag (idleBranch' force (this s)) s in
  (forall e, In e (events (drawOverlay' (this s) s')) ->
             In e (events (render' auto force s)))
  /\ final (render' auto force s) = afterTimer' s'
  /\ outcome (render' auto force s) = outcome (drawOverlay' (this s) s').
Proof.
  intros Hs Hl s'.
  assert (Hl' : outcome (drawLayers' (idleBranch' force (this s))
                           (this s') s') = Normal tt).
  { rewrite <- Hl. apply drawLayers_state. }
  rewrite (render_draw auto _ _ Hs). fold s'.
  rewrite (drawFrame_normal auto _ _ Hl'). projections.
  split; [|split; reflexivity].
  intros e He. rewrite !in_app_iff. right. right. exact He.
Qed.

Lemma render_timer auto force (s : State) :
  skips' force s = false ->
  outcome (drawLayers' (idleBranch' force (this s)) (this s) s) = Normal tt ->
  In (FillText
        (fpsLabel (1000 / (performance_now (clockReads s)
                           - frameTimeStart (this s)))%float)
        (width (canvas (this s))) (FONT_SIZE * 2 + 5)%float)
     (events (render' auto force s))
  /\ frameTimeStart (this (final (render' auto force s)))
     = performance_now (S (clockReads s))
  /\ clockReads (final (render' auto force s)) = S (S (clockReads s)).
Proof.
  intros Hs Hl.
  destruct (render_overlay auto force s Hs Hl) as (Hin & Hf & _).
  split; [|rewrite Hf; split; reflexivity].
  apply Hin.
  apply (drawOverlay_fps (this s) (with_flag (idleBranch' force (this s)) s)).
Qed.

Lemma ten_fps (t last : float) :
  (t - last)%float = 100%float ->
  (1000 / (t - last))%float = 10%float
  /\ fpsLabel (1000 / (t - last))%float = "10 FPS".
Proof. intros ->. split; vm_compute; reflexivity. Qed.

(** ** The claims *)

(** C2. A frame has nothing to do exactly when the sequencer is
    [undefined] or its [paused] is [true], no voice sounds, the renderer
    mode is [waveformsMode], and [force] is not set. *)
Theorem nothingToDo_iff force (r : Renderer) :
  nothingToDo' force r = true <->
  ((seq r = None \/ exists q, seq r = Some q /\ paused q = true)
   /\ voicesAmount (synth r) = 0
   /\ rendererMode r = waveformsMode
   /\ force = false).
Proof.
  unfold nothingToDo.
  rewrite !andb_true_iff, !Z.eqb_eq, negb_true_iff, orb_true_iff.
  destruct (seq r) as [q|]; cbn [is_undefined]; split.
  - intros [[[[H|H] Hv] Hm] Hf]; [discriminate|].
    repeat split; try assumption. right. exists q. split; [reflexivity|exact H].
  - intros [[H|[q' [Hq Hp]]] [Hv [Hm Hf]]]; [discriminate|].
    injection Hq as <-. repeat split; try assumption. right. exact Hp.
  - intros [[[_ Hv] Hm] Hf]. repeat split; try assumption. left. reflexivity.
  - intros [_ [Hv [Hm Hf]]]. repeat split; try assumption. left. reflexivity.
Qed.

(** C3. With nothing to do and the flag already up, the invocation clears
    nothing, draws nothing and leaves the state (frame timer and clock
    included) as it was; it asks for exactly one next frame when [auto]
    is set and for none otherwise. *)
Theorem idle_frame_skipped auto force (s : State) :
  nothingToDo' force (this s) = true ->
  hasRenderedNoVoices s = true ->
  events (render' auto force s)
  = (if auto then [RequestAnimationFrame] else [])
  /\ surface_ops (events (render' auto force s)) = []
  /\ scheduled (events (render' auto force s)) = (if auto then 1 else 0)%nat
  /\ final (render' auto force s) = s
  /\ frameTimeStart (this (final (render' auto force s)))
     = frameTimeStart (this s)
  /\ outcome (render' auto force s) = Normal tt.
Proof.
  intros Hn Hf. rewrite render_skip.
  - unfold skipFrame. projections. destruct auto; repeat split; reflexivity.
  - unfold skips. rewrite (nothingToDo_idleBranch _ _ Hn). exact Hf.
Qed.

(** C1, amended. With nothing to do, the first invocation (flag down)
    draws one full frame, the settle frame, and raises the flag; every
    later one (flag up) draws nothing and leaves the flag up; so a run
    of invocations that all have nothing to do draws at most one frame.
    An invocation that has something to do, such as sounding voices,
    draws a full frame without [force] and lowers the flag, provided
    that [renderBool] is set. *)
Theorem settle_once_then_resume auto force (s : State) :
  (nothingToDo' force (this s) = true ->
   if hasRenderedNoVoices s
   then surface_ops (events (render' auto force s)) = []
        /\ hasRenderedNoVoices (final (render' auto force s)) = true
   else render' auto force s = drawFrame' auto true (with_flag true s)
        /\ drawn (events (render' auto force s)) = true
        /\ hasRenderedNoVoices (final (render' auto force s)) = true)
  /\ (forall cs,
         throughout' nothingToDo' cs s = true ->
         (framesDrawn (fst (run' cs s)) <= 1)%nat)
  /\ (nothingToDo' force (this s) = false ->
      renderBool (this s) = true ->
      render' auto force s = drawFrame' auto false (with_flag false s)
      /\ drawn (events (render' auto force s)) = true
      /\ hasRenderedNoVoices (final (render' auto force s)) = false)
  /\ (0 < voicesAmount (synth (this s)) ->
      renderBool (this s) = true ->
      render' auto false s = drawFrame' auto false (with_flag false s)
      /\ drawn (events (render' auto false s)) = true
      /\ hasRenderedNoVoices (final (render' auto false s)) = false).
Proof.
  assert (Hactive : forall f,
             nothingToDo' f (this s) = false ->
             renderBool (this s) = true ->
             render' auto f s = drawFrame' auto false (with_flag false s)
             /\ drawn (events (render' auto f s)) = true
             /\ hasRenderedNoVoices (final (render' auto f s)) = false).
  { intros f Hn Hb.
    assert (Hi : idleBranch' f (this s) = false)
      by (unfold idleBranch; rewrite Hn, Hb; reflexivity).
    assert (Hs : skips' f s = false) by (unfold skips; rewrite Hi; reflexivity).
    split; [|split].
    - rewrite (render_draw auto _ _ Hs), Hi. reflexivity.
    - rewrite (render_draw auto _ _ Hs). apply drawFrame_drawn.
    - rewrite render_flag. exact Hi. }
  split; [|split; [|split]].
  - intros Hn. pose proof (nothingToDo_idleBranch _ _ Hn) as Hi.
    destruct (hasRenderedNoVoices s) eqn:Hf.
    + split; [|rewrite render_flag; exact Hi].
      rewrite render_skip by (unfold skips; rewrite Hi; exact Hf).
      destruct auto; reflexivity.
    + assert (Hs : skips' force s = false)
        by (unfold skips; rewrite Hi; exact Hf).
      split; [|split].
      * rewrite (render_draw auto _ _ Hs), Hi. reflexivity.
      * rewrite (render_draw auto _ _ Hs). apply drawFrame_drawn.
      * rewrite render_flag. exact Hi.
  - intros cs H.
    apply (throughout_mono _ idleBranch') in H;
      [|intros; apply nothingToDo_idleBranch; assumption].
    destruct (run_idle cs s H) as [-> _].
    destruct (hasRenderedNoVoices s); [lia|]. destruct cs; lia.
  - apply Hactive.
  - intros Hv. apply Hactive. apply voices_active. exact Hv.
Qed.

Lemma body_event_kind (e : event) :
  is_layer_call e = true \/ is_overlay e = true ->
  is_schedule e = false /\ is_clear e = false.
Proof. destruct e; cbn; intros [H|H]; split; congruence. Qed.

Lemma not_scheduled (evs : list event) :
  Forall (fun e => is_schedule e = false /\ is_clear e = false) evs ->
  scheduled evs = 0%nat.
Proof.
  unfold scheduled. induction 1 as [|e evs [He _] _ IH]; [reflexivity|].
  cbn [filter]. rewrite He. exact IH.
Qed.

(** With [auto] a drawn frame begins with lines 44 and 45, whatever the
    collaborators do afterwards. *)
Lemma drawFrame_auto_events forceStraight (s : State) :
  exists rest,
    events (drawFrame' true forceStraight s)
    = RequestAnimationFrame
        :: ClearRect 0 0 (width (canvas (this s))) (height (canvas (this s)))
        :: rest
    /\ Forall (fun e => is_schedule e = false /\ is_clear e = false) rest.
Proof.
  pose proof (drawLayers_events forceStraight (this s) s) as Hl.
  pose proof (drawOverlay_events (this s) s) as Ho.
  destruct (drawLayers_outcome forceStraight (this s) s) as [H | [x H]].
  - rewrite (drawFrame_normal true _ _ H). projections.
    eexists. split; [reflexivity|].
    apply Forall_app. split.
    + eapply Forall_impl; [|exact Hl].
      intros e He. apply body_event_kind. left. exact He.
    + eapply Forall_impl; [|exact Ho].
      intros e He. apply body_event_kind. right. exact He.
  - rewrite (drawFrame_throw true _ _ _ H). projections.
    eexists. split; [reflexivity|].
    eapply Forall_impl; [|exact Hl].
    intros e He. apply body_event_kind. left. exact He.
Qed.

(** C10. With [auto], an invocation that is not skipped asks for the next
    frame first, clears second, and only then calls the layers and draws
    the overlay; this holds whatever the invocation ends in, so a
    collaborator that throws leaves the next frame scheduled, once. *)
Theorem next_frame_scheduled_first force (s : State) :
  skips' force s = false ->
  exists rest,
    events (render' true force s)
    = RequestAnimationFrame
        :: ClearRect 0 0 (width (canvas (this s))) (height (canvas (this s)))
        :: rest
    /\ Forall (fun e => is_schedule e = false /\ is_clear e = false) rest
    /\ scheduled (events (render' true force s)) = 1%nat.
Proof.
  intros Hs. rewrite (render_draw true _ _ Hs).
  destruct (drawFrame_auto_events (idleBranch' force (this s))
              (with_flag (idleBranch' force (this s)) s))
    as (rest & -> & Hrest).
  exists rest. split; [reflexivity|]. split; [exact Hrest|].
  unfold scheduled. cbn [filter is_schedule length].
  f_equal. apply (not_scheduled rest Hrest).
Qed.

(** C4, amended. With [force] and with [renderBool] set, the invocation
    draws a full frame whatever the sequencer, the voices and the mode
    are, and leaves the flag down; none of the three decides the flag. *)
Theorem force_draws_when_enabled auto (s : State) :
  renderBool (this s) = true ->
  nothingToDo' true (this s) = false
  /\ render' auto true s = drawFrame' auto false (with_flag false s)
  /\ drawn (events (render' auto true s)) = true
  /\ hasRenderedNoVoices (final (render' auto true s)) = false.
Proof.
  intros Hb.
  assert (Hn : nothingToDo' true (this s) = false)
    by (unfold nothingToDo; apply andb_false_r).
  assert (Hi : idleBranch' true (this s) = false)
    by (unfold idleBranch; rewrite Hn, Hb; reflexivity).
  assert (Hs : skips' true s = false) by (unfold skips; rewrite Hi; reflexivity).
  split; [exact Hn|]. split; [|split].
  - rewrite (render_draw auto _ _ Hs), Hi. reflexivity.
  - rewrite (render_draw auto _ _ Hs). apply drawFrame_drawn.
  - rewrite render_flag. exact Hi.
Qed.

(** C9. While [renderBool] is off every invocation takes the idle branch,
    [force], voices and mode notwithstanding: with the flag down it draws
    the settle frame, with the flag up it draws nothing, and either way
    the flag is up afterwards, so a run with [renderBool] off draws at
    most one frame.  Once the flag is up, an invocation draws, and lowers
    the flag, exactly when [renderBool] is set and there is something to
    do. *)
Theorem renderBool_gates_drawing auto force (s : State) :
  renderBool (this s) = false ->
  idleBranch' force (this s) = true
  /\ (if hasRenderedNoVoices s
      then surface_ops (events (render' auto force s)) = []
      else render' auto force s = drawFrame' auto true (with_flag true s)
           /\ drawn (events (render' auto force s)) = true)
  /\ hasRenderedNoVoices (final (render' auto force s)) = true
  /\ (forall cs,
         throughout' (fun _ r => negb (renderBool r)) cs s = true ->
         (framesDrawn (fst (run' cs s)) <= 1)%nat)
  /\ (forall auto' force' (s' : State),
         hasRenderedNoVoices s' = true ->
         (drawn (events (render' auto' force' s')) = true
          <-> renderBool (this s') = true
              /\ nothingToDo' force' (this s') = false)
         /\ (hasRenderedNoVoices (final (render' auto' force' s')) = false
             <-> renderBool (this s') = true
                 /\ nothingToDo' force' (this s') = false)).
Proof.
  intros Hb.
  assert (Hi : idleBranch' force (this s) = true)
    by (unfold idleBranch; rewrite Hb; reflexivity).
  split; [exact Hi|]. split; [|split; [|split]].
  - destruct (hasRenderedNoVoices s) eqn:Hf.
    + rewrite render_skip by (unfold skips; rewrite Hi; exact Hf).
      destruct auto; reflexivity.
    + assert (Hs : skips' force s = false)
        by (unfold skips; rewrite Hi; exact Hf).
      rewrite (render_draw auto _ _ Hs), Hi.
      split; [reflexivity | apply drawFrame_drawn].
  - rewrite render_flag. exact Hi.
  - intros cs H.
    apply (throughout_mono _ idleBranch') in H.
    + destruct (run_idle cs s H) as [-> _].
      destruct (hasRenderedNoVoices s); [lia|]. destruct cs; lia.
    + intros f r Hr. unfold idleBranch. rewrite Hr. reflexivity.
  - intros auto' force' s' Hf.
    assert (Hiff : idleBranch' force' (this s') = false
                   <-> renderBool (this s') = true
                       /\ nothingToDo' force' (this s') = false).
    { unfold idleBranch. rewrite orb_false_iff, negb_false_iff. tauto. }
    split.
    + rewrite <- Hiff. destruct (idleBranch' force' (this s')) eqn:Hi'.
      * rewrite render_skip by (unfold skips; rewrite Hi'; exact Hf).
        rewrite skipFrame_not_drawn. split; discriminate.
      * rewrite render_draw by (unfold skips; rewrite Hi'; reflexivity).
        rewrite drawFrame_drawn. split; reflexivity.
    + rewrite render_flag. exact Hiff.
Qed.

(** C5, amended. In a drawn frame with [renderNotes] set, note times
    present and high-performance mode on, the layer calls are exactly one
    call of [computeNotePositions], with the flag: [drawNotes] and
    [renderWaveforms] are not called.  In any frame [renderWaveforms] is
    called only with [renderAnalysers] set and high-performance mode off,
    and in a drawn frame it is then called. *)
Theorem highPerformance_frame auto force (s : State) :
  (skips' force s = false ->
   renderNotes (this s) = true ->
   truthy (noteTimes (this s)) = true ->
   highPerformanceMode (synth (this s)) = true ->
   filter is_layer_call (events (render' auto force s))
   = [ComputeNotePositions true]
   /\ (forall notes sw,
          ~ In (DrawNotes notes sw) (events (render' auto force s)))
   /\ (forall b, ~ In (RenderWaveforms b) (events (render' auto force s))))
  /\ (forall b,
         In (RenderWaveforms b) (events (render' auto force s)) ->
         renderAnalysers (this s) = true
         /\ highPerformanceMode (synth (this s)) = false)
  /\ (skips' force s = false ->
      renderAnalysers (this s) = true ->
      highPerformanceMode (synth (this s)) = false ->
      In (RenderWaveforms (idleBranch' force (this s)))
         (events (render' auto force s))).
Proof.
  split; [|split].
  - intros Hs Hn Ht Hh.
    assert (Hf : filter is_layer_call (events (render' auto force s))
                 = [ComputeNotePositions true]).
    { rewrite (render_draw auto _ _ Hs).
      set (b := idleBranch' force (this s)).
      assert (Hl : events (drawLayers' b (this (with_flag b s)) (with_flag b s))
                   = [ComputeNotePositions true]).
      { apply drawLayers_highPerformance_events; [|exact Hh].
        cbn [this with_flag]. rewrite Hn, Ht. reflexivity. }
      destruct (drawLayers_outcome b (this (with_flag b s)) (with_flag b s))
        as [H | [x H]].
      - rewrite (drawFrame_normal auto _ _ H). projections.
        rewrite !filter_app, preamble_no_layer_call, Hl.
        rewrite (filter_none is_layer_call
                   (events (drawOverlay' (this (with_flag b s)) (with_flag b s)))).
        + reflexivity.
        + eapply Forall_impl; [|apply drawOverlay_events].
          intros e. apply overlay_not_layer_call.
      - rewrite (drawFrame_throw auto _ _ _ H). projections.
        rewrite !filter_app, preamble_no_layer_call, Hl. reflexivity. }
    split; [exact Hf|]. split.
    + intros notes sw Hin.
      assert (Hin' : In (DrawNotes notes sw)
                        (filter is_layer_call (events (render' auto force s))))
        by (apply filter_In; split; [exact Hin | reflexivity]).
      rewrite Hf in Hin'. destruct Hin' as [Heq|[]]. discriminate Heq.
    + intros b Hin.
      assert (Hin' : In (RenderWaveforms b)
                        (filter is_layer_call (events (render' auto force s))))
        by (apply filter_In; split; [exact Hin | reflexivity]).
      rewrite Hf in Hin'. destruct Hin' as [Heq|[]]. discriminate Heq.
  - intros b Hin.
    destruct (skips' force s) eqn:Hs.
    + rewrite (render_skip auto _ _ Hs) in Hin. unfold skipFrame in Hin.
      rewrite events_mk in Hin.
      destruct auto; cbn [In] in Hin; [destruct Hin as [Heq|[]]|destruct Hin].
      discriminate Heq.
    + rewrite (render_draw auto _ _ Hs) in Hin.
      apply drawFrame_In in Hin. cbn [this with_flag] in Hin.
      destruct Hin as [Hin | [Hin | Hin]].
      * destruct auto; cbn [scheduleAndClearEvents In] in Hin;
          [destruct Hin as [Heq|[Heq|[]]]; discriminate Heq | destruct Hin].
      * destruct (renderAnalysers (this s)
                  && negb (highPerformanceMode (synth (this s)))) eqn:Hg.
        -- apply andb_prop in Hg. destruct Hg as [Ha Hh].
           apply negb_true_iff in Hh. split; assumption.
        -- pose proof (drawLayers_waveforms_gate
                          (idleBranch' force (this s)) (this s)
                          (with_flag (idleBranch' force (this s)) s) Hg)
             as Hall.
           rewrite Forall_forall in Hall. destruct (Hall _ Hin).
      * pose proof (drawOverlay_events (this s)
                      (with_flag (idleBranch' force (this s)) s)) as Hall.
        rewrite Forall_forall in Hall. specialize (Hall _ Hin).
        discriminate Hall.
  - intros Hs Ha Hh. rewrite (render_draw auto _ _ Hs).
    apply drawFrame_In_layers. apply drawLayers_waveforms_called.
    cbn [this with_flag]. rewrite Ha, Hh. reflexivity.
Qed.

(** C6, amended. A skipped frame leaves the frame timer and the clock
    alone.  A drawn frame whose layers complete reads the clock twice, at
    lines 70 and 71: it shows [1000 / (now - frameTimeStart)], rounded, as
    the FPS, where [now] is the first reading, and stores the second
    reading in [frameTimeStart].  A difference of exactly 100 gives 10,
    so a drawn frame whose first reading is 100 ms after the reading
    that the drawn frame before it stored shows 10 FPS.  When the two
    readings of a frame are the same [now], the frame shows
    [1000 / (now - frameTimeStart)] and stores [now]. *)
Theorem frame_timer auto force (s : State) :
  (skips' force s = true -> final (render' auto force s) = s)
  /\ (skips' force s = false ->
      outcome (drawLayers' (idleBranch' force (this s)) (this s) s)
      = Normal tt ->
      In (FillText
            (fpsLabel (1000 / (performance_now (clockReads s)
                               - frameTimeStart (this s)))%float)
            (width (canvas (this s))) (FONT_SIZE * 2 + 5)%float)
         (events (render' auto force s))
      /\ frameTimeStart (this (final (render' auto force s)))
         = performance_now (S (clockReads s))
      /\ clockReads (final (render' auto force s)) = S (S (clockReads s)))
  /\ (forall t last : float,
         (t - last)%float = 100%float ->
         (1000 / (t - last))%float = 10%float
         /\ fpsLabel (1000 / (t - last))%float = "10 FPS")
  /\ (forall c : Call,
         skips' force s = false ->
         outcome (drawLayers' (idleBranch' force (this s)) (this s) s)
         = Normal tt ->
         let s1 := final (render' auto force s) in
         frameTimeStart (hostUpdate c (this s1)) = frameTimeStart (this s1) ->
         skips' (callForce c) (enter c s1) = false ->
         outcome (drawLayers' (idleBranch' (callForce c) (this (enter c s1)))
                    (this (enter c s1)) (enter c s1))
         = Normal tt ->
         (performance_now (S (S (clockReads s)))
          - performance_now (S (clockReads s)))%float = 100%float ->
         In (FillText "10 FPS" (width (canvas (this (enter c s1))))
               (FONT_SIZE * 2 + 5)%float)
            (events (invoke' c s1)))
  /\ (forall now : float,
         skips' force s = false ->
         outcome (drawLayers' (idleBranch' force (this s)) (this s) s)
         = Normal tt ->
         performance_now (clockReads s) = now ->
         performance_now (S (clockReads s)) = now ->
         In (FillText
               (fpsLabel (1000 / (now - frameTimeStart (this s)))%float)
               (width (canvas (this s))) (FONT_SIZE * 2 + 5)%float)
            (events (render' auto force s))
         /\ frameTimeStart (this (final (render' auto force s))) = now).
Proof.
  split; [|split; [|split; [|split]]].
  - intros Hs. rewrite (render_skip auto _ _ Hs). reflexivity.
  - apply render_timer.
  - apply ten_fps.
  - intros c Hs Hl s1 Hhost Hs1 Hl1 Hclock.
    destruct (render_timer auto force s Hs Hl) as (_ & Hstart & Hreads).
    destruct (render_timer (callAuto c) (callForce c) (enter c s1) Hs1 Hl1)
      as (Hin & _).
    unfold invoke.
    cbn [enter this clockReads] in Hin. fold s1 in Hstart, Hreads.
    rewrite Hhost, Hstart, Hreads in Hin.
    destruct (ten_fps _ _ Hclock) as [_ Hlabel].
    rewrite Hlabel in Hin. exact Hin.
  - intros now Hs Hl Hnow Hnow'.
    destruct (render_timer auto force s Hs Hl) as (Hin & Hstart & _).
    rewrite Hnow in Hin. rewrite Hnow' in Hstart. split; assumption.
Qed.

(** X30. In a drawn frame whose layers complete, with note times and a
    sequencer, the overlay shows the tempo times the playback rate,
    rounded to hundredths by [Math.round(x * 100) / 100], followed by
    [BPM], at (0, 5).  The rounding is to the nearest hundredth, a half
    going up, also below zero: 120 at rate 1.5 reads [180BPM],
    120.0078125 reads [120.01BPM], 120.00390625 reads [120BPM], 90.25 at
    rate 1.5 (135.375) reads [135.38BPM], and 0.375 at rate -1 reads
    [-0.37BPM]. *)
Theorem tempo_label_drawn auto force (s : State) q :
  skips' force s = false ->
  outcome (drawLayers' (idleBranch' force (this s)) (this s) s) = Normal tt ->
  truthy (noteTimes (this s)) = true ->
  seq (this s) = Some q ->
  In (FillText (tempoLabel (currentTempo q) (playbackRate q)) 0 5)
     (events (render' auto force s))
  /\ tempoLabel 120 1.5 = "180BPM"
  /\ tempoLabel 120.0078125 1 = "120.01BPM"
  /\ tempoLabel 120.00390625 1 = "120BPM"
  /\ tempoLabel 90.25 1.5 = "135.38BPM"
  /\ tempoLabel 0.375 (-1) = "-0.37BPM".
Proof.
  intros Hs Hl Hn Hq.
  destruct (render_overlay auto force s Hs Hl) as (Hin & _).
  split.
  - apply Hin. apply drawOverlay_tempo; assumption.
  - repeat split; vm_compute; reflexivity.
Qed.

(** Unless note times are there without a sequencer, a drawn frame whose
    layers complete ends as its hook does, with the hold pedal line when
    it is asked for. *)
Lemma frame_completes auto force (s : State) :
  skips' force s = false ->
  outcome (drawLayers' (idleBranch' force (this s)) (this s) s) = Normal tt ->
  truthy (noteTimes (this s)) && is_undefined (seq (this s)) = false ->
  outcome (render' auto force s) = hookOutcome (this s)
  /\ (showHoldPedal (this s) = true ->
      In (FillText (holdPedalIsDownText (this s))
            (width (canvas (this s)) / 2)%float
            (height (canvas (this s)) / 4)%float)
         (events (render' auto force s))).
Proof.
  intros Hs Hl Hok.
  destruct (render_overlay auto force s Hs Hl) as (Hin & _ & Ho).
  split.
  - rewrite Ho, drawOverlay_outcome, Hok. reflexivity.
  - intros Hp. apply Hin. apply drawOverlay_holdPedal; assumption.
Qed.

(** With note times and without a sequencer, line 89 throws, and the
    frame ends there. *)
Lemma frame_aborts auto force (s : State) :
  skips' force s = false ->
  outcome (drawLayers' (idleBranch' force (this s)) (this s) s) = Normal tt ->
  truthy (noteTimes (this s)) = true ->
  seq (this s) = None ->
  outcome (render' auto force s) = Throw undefinedTempo.
Proof.
  intros Hs Hl Hn Hq.
  destruct (render_overlay auto force s Hs Hl) as (_ & _ & Ho).
  rewrite Ho, drawOverlay_outcome, Hn, Hq. reflexivity.
Qed.

(** ** Further properties of [render] *)

(** Without [auto] a drawn frame consists of layer calls and overlay
    operations only. *)
Lemma drawFrame_manual_events forceStraight (s : State) :
  Forall (fun e => is_schedule e = false /\ is_clear e = false)
         (events (drawFrame' false forceStraight s)).
Proof.
  pose proof (drawLayers_events forceStraight (this s) s) as Hl.
  pose proof (drawOverlay_events (this s) s) as Ho.
  assert (Hl' : Forall (fun e => is_schedule e = false /\ is_clear e = false)
                       (events (drawLayers' forceStraight (this s) s))).
  { eapply Forall_impl; [|exact Hl].
    intros e He. apply body_event_kind. left. exact He. }
  destruct (drawLayers_outcome forceStraight (this s) s) as [H | [x H]].
  - rewrite (drawFrame_normal false _ _ H). projections.
    cbn [scheduleAndClearEvents app].
    apply Forall_app. split; [exact Hl'|].
    eapply Forall_impl; [|exact Ho].
    intros e He. apply body_event_kind. right. exact He.
  - rewrite (drawFrame_throw false _ _ _ H). projections.
    cbn [scheduleAndClearEvents app]. exact Hl'.
Qed.

(** X1. The documented contract of [auto = false]: whatever the state and
    [force], the invocation neither asks for an animation frame nor clears
    the canvas. *)
Theorem manual_frame_never_schedules force (s : State) :
  scheduled (events (render' false force s)) = 0%nat
  /\ filter is_clear (events (render' false force s)) = [].
Proof.
  assert (H : Forall (fun e => is_schedule e = false /\ is_clear e = false)
                     (events (render' false force s))).
  { destruct (skips' force s) eqn:Hs.
    - rewrite (render_skip false _ _ Hs). constructor.
    - rewrite (render_draw false _ _ Hs). apply drawFrame_manual_events. }
  split.
  - apply not_scheduled. exact H.
  - apply filter_none. eapply Forall_impl; [|exact H].
    intros e [_ He]. exact He.
Qed.

(** X2. With [auto] every invocation, skipped or drawn, completed or aborted
    by an exception, asks for exactly one next frame, and does so before
    anything else. *)
Theorem auto_frame_schedules_once force (s : State) :
  scheduled (events (render' true force s)) = 1%nat
  /\ exists rest,
       events (render' true force s) = RequestAnimationFrame :: rest
       /\ Forall (fun e => is_schedule e = false) rest.
Proof.
  destruct (skips' force s) eqn:Hs.
  - rewrite (render_skip true _ _ Hs). unfold skipFrame. projections.
    split; [reflexivity|]. exists []. split; [reflexivity | constructor].
  - rewrite (render_draw true _ _ Hs).
    destruct (drawFrame_auto_events (idleBranch' force (this s))
                (with_flag (idleBranch' force (this s)) s))
      as (rest & -> & Hrest).
    split.
    + unfold scheduled. cbn [filter is_schedule length].
      f_equal. apply (not_scheduled rest Hrest).
    + eexists. split; [reflexivity|].
      constructor; [reflexivity|].
      eapply Forall_impl; [|exact Hrest]. intros e [He _]. exact He.
Qed.

(** X3. [renderWaveforms] is told to draw straight lines exactly on the settle
    frame: its argument is [true] only when line 20 took the idle branch
    with the flag down, and [false] only on an active frame. *)
Theorem straight_analysers_on_settle_only auto force (s : State) b :
  In (RenderWaveforms b) (events (render' auto force s)) ->
  b = idleBranch' force (this s)
  /\ (b = true -> hasRenderedNoVoices s = false)
  /\ (b = false ->
      renderBool (this s) = true /\ nothingToDo' force (this s) = false).
Proof.
  intros Hin.
  destruct (skips' force s) eqn:Hs.
  - rewrite (render_skip auto _ _ Hs) in Hin. unfold skipFrame in Hin.
    rewrite events_mk in Hin.
    destruct auto; cbn [In] in Hin; [destruct Hin as [Heq|[]]|destruct Hin].
    discriminate Heq.
  - rewrite (render_draw auto _ _ Hs) in Hin.
    apply drawFrame_In in Hin. cbn [this with_flag] in Hin.
    assert (Hb : b = idleBranch' force (this s)).
    { destruct Hin as [Hin | [Hin | Hin]].
      - destruct auto; cbn [scheduleAndClearEvents In] in Hin;
          [destruct Hin as [Heq|[Heq|[]]]; discriminate Heq | destruct Hin].
      - pose proof (drawLayers_waveforms_flag
                      (idleBranch' force (this s)) (this s)
                      (with_flag (idleBranch' force (this s)) s)) as Hall.
        rewrite Forall_forall in Hall. exact (Hall _ Hin).
      - pose proof (drawOverlay_events (this s)
                      (with_flag (idleBranch' force (this s)) s)) as Hall.
        rewrite Forall_forall in Hall. specialize (Hall _ Hin).
        discriminate Hall. }
    split; [exact Hb|]. split.
    + intros Ht. unfold skips in Hs. rewrite <- Hb, Ht in Hs. exact Hs.
    + intros Hf. rewrite Hf in Hb. symmetry in Hb.
      unfold idleBranch in Hb. apply orb_false_iff in Hb.
      destruct Hb as [Hr Hn]. apply negb_false_iff in Hr. split; assumption.
Qed.

Lemma tempo_step_outcome r (s : State) :
  outcome (when (truthy (noteTimes r)) (drawTempo FONT_SIZE r) s)
  = if truthy (noteTimes r) && is_undefined (seq r)
    then Throw undefinedTempo
    else Normal tt.
Proof.
  destruct (truthy (noteTimes r)); cbn [when andb]; [|reflexivity].
  rewrite drawTempo_outcome. destruct (seq r); reflexivity.
Qed.

Lemma holdPedal_step_outcome r (s : State) :
  outcome (when (showHoldPedal r) (drawHoldPedal FONT_SIZE r) s) = Normal tt.
Proof.
  destruct (showHoldPedal r); cbn [when];
    [apply drawHoldPedal_outcome | reflexivity].
Qed.

(** The overlay calls the hook when there is one, unless line 89 threw. *)
Lemma drawOverlay_hook r (s : State) :
  In OnRender (events (drawOverlay' r s))
  <-> truthy (noteTimes r) && is_undefined (seq r) = false
      /\ onRender r <> None.
Proof.
  split.
  - intros Hin.
    assert (Hall : Forall (fun e => match e with
                                    | OnRender =>
                                        truthy (noteTimes r)
                                        && is_undefined (seq r) = false
                                        /\ onRender r <> None
                                    | _ => True
                                    end)
                          (events (drawOverlay' r s))).
    { unfold drawOverlay.
      do 11 (apply Forall_events_bind; [repeat constructor | intros ? _]).
      apply Forall_events_bind.
      - unfold drawTempo, seq_property. forall_events.
      - intros u Hu. rewrite tempo_step_outcome in Hu.
        destruct (truthy (noteTimes r) && is_undefined (seq r)) eqn:Hc;
          [discriminate Hu|].
        apply Forall_events_bind.
        + unfold drawHoldPedal. forall_events.
        + intros ? _. destruct (onRender r) as [hook|] eqn:Hh.
          * constructor; [|constructor]. split; [reflexivity | discriminate].
          * constructor. }
    rewrite Forall_forall in Hall. exact (Hall _ Hin).
  - intros [Hc Hh]. unfold drawOverlay. do 11 next_step.
    eapply In_events_bind_r.
    { rewrite tempo_step_outcome, Hc. reflexivity. }
    eapply In_events_bind_r.
    { apply holdPedal_step_outcome. }
    destruct (onRender r) as [hook|]; [|congruence].
    left. reflexivity.
Qed.

(** X4. The [onRender] hook is called exactly in the frames that are drawn to
    the end: not skipped, no layer threw, line 89 did not throw, and a
    hook is set. *)
Theorem hook_called_iff auto force (s : State) :
  In OnRender (events (render' auto force s))
  <-> skips' force s = false
      /\ outcome (drawLayers' (idleBranch' force (this s)) (this s) s)
         = Normal tt
      /\ truthy (noteTimes (this s)) && is_undefined (seq (this s)) = false
      /\ onRender (this s) <> None.
Proof.
  set (b := idleBranch' force (this s)).
  destruct (skips' force s) eqn:Hs.
  - rewrite (render_skip auto _ _ Hs). unfold skipFrame. projections.
    split.
    + intros Hin.
      destruct auto; cbn [In] in Hin; [destruct Hin as [Heq|[]]|destruct Hin].
      discriminate Heq.
    + intros [Hf _]. discriminate Hf.
  - rewrite (render_draw auto _ _ Hs). fold b.
    destruct (drawLayers_state b (this s) s (with_flag b s)) as [Hout _].
    assert (Hpre : ~ In OnRender (scheduleAndClearEvents auto (this s))).
    { intros Hin.
      destruct auto; cbn [scheduleAndClearEvents In] in Hin;
        [destruct Hin as [Heq|[Heq|[]]]; discriminate Heq | destruct Hin]. }
    assert (Hlayers : ~ In OnRender
                        (events (drawLayers' b (this s) (with_flag b s)))).
    { intros Hin.
      pose proof (drawLayers_events b (this s) (with_flag b s)) as Hall.
      rewrite Forall_forall in Hall. specialize (Hall _ Hin).
      discriminate Hall. }
    destruct (drawLayers_outcome b (this s) (with_flag b s)) as [H | [x H]].
    + rewrite (drawFrame_normal auto _ _ H). projections.
      cbn [this with_flag]. rewrite !in_app_iff, drawOverlay_hook.
      rewrite Hout, H. split.
      * intros [Hin | [Hin | Hin]]; [contradiction | contradiction |].
        split; [reflexivity|]. split; [reflexivity | exact Hin].
      * intros (_ & _ & Hin). right. right. exact Hin.
    + rewrite (drawFrame_throw auto _ _ _ H). projections.
      cbn [this with_flag]. rewrite in_app_iff, Hout, H. split.
      * intros [Hin | Hin]; contradiction.
      * intros (_ & Hl & _). discriminate Hl.
Qed.

(** X5. How an invocation ends.  A skipped frame completes; a drawn frame
    rethrows what a layer threw, else throws the [TypeError] of line 89
    when note times are there without a sequencer, else ends as the hook
    does.  [render] raises nothing else. *)
Theorem render_outcome auto force (s : State) :
  outcome (render' auto force s)
  = if skips' force s then Normal tt
    else match outcome (drawLayers' (idleBranch' force (this s)) (this s) s)
         with
         | Throw e => Throw e
         | Normal _ =>
             if truthy (noteTimes (this s)) && is_undefined (seq (this s))
             then Throw undefinedTempo
             else hookOutcome (this s)
         end.
Proof.
  set (b := idleBranch' force (this s)).
  destruct (skips' force s) eqn:Hs.
  - rewrite (render_skip auto _ _ Hs). reflexivity.
  - rewrite (render_draw auto _ _ Hs). fold b.
    destruct (drawLayers_state b (this s) s (with_flag b s)) as [Hout _].
    rewrite Hout.
    destruct (drawLayers_outcome b (this s) (with_flag b s)) as [H | [x H]].
    + rewrite (drawFrame_normal auto _ _ H). projections.
      cbn [this with_flag]. rewrite H. apply drawOverlay_outcome.
    + rewrite (drawFrame_throw auto _ _ _ H). projections.
      cbn [this with_flag]. rewrite H. reflexivity.
Qed.

Lemma infinite_fps (t last : float) :
  (t - last)%float = 0%float ->
  fpsLabel (1000 / (t - last))%float = "Infinity FPS".
Proof. intros ->. vm_compute. reflexivity. Qed.

(** X6. Division by zero in the frame timer: when the clock has not advanced
    since the last drawn frame, a drawn frame shows [Infinity FPS]. *)
Theorem frozen_clock_shows_infinity auto force (s : State) :
  skips' force s = false ->
  outcome (drawLayers' (idleBranch' force (this s)) (this s) s) = Normal tt ->
  (performance_now (clockReads s) - frameTimeStart (this s))%float = 0%float ->
  In (FillText "Infinity FPS" (width (canvas (this s)))
        (FONT_SIZE * 2 + 5)%float)
     (events (render' auto force s)).
Proof.
  intros Hs Hl Hz.
  destruct (render_timer auto force s Hs Hl) as (Hin & _).
  rewrite (infinite_fps _ _ Hz) in Hin. exact Hin.
Qed.

Lemma drawTempo_signature r q (s : State) :
  seq r = Some q ->
  In (FillText (currentTimeSignature r) 0 (FONT_SIZE + 5)%float)
     (events (drawTempo FONT_SIZE r s)).
Proof.
  intros Hq. unfold drawTempo, seq_property. rewrite Hq.
  do 4 next_step. left. reflexivity.
Qed.

Lemma drawOverlay_no_start r (s : State) :
  truthy (noteTimes r) = false ->
  Forall (fun e => match e with
                   | TextAlign v => v <> "start"
                   | _ => True
                   end)
         (events (drawOverlay' r s)).
Proof.
  intros Hn. unfold drawOverlay, drawHoldPedal. rewrite Hn.
  forall_events; discriminate.
Qed.

(** X7. The time signature follows the note times: without note times no
    invocation switches to start alignment, so neither tempo nor time
    signature is drawn; with note times and a sequencer a drawn frame
    whose layers complete shows the time signature below the tempo. *)
Theorem time_signature_follows_noteTimes auto force (s : State) :
  (truthy (noteTimes (this s)) = false ->
   ~ In (TextAlign "start") (events (render' auto force s)))
  /\ (forall q,
         skips' force s = false ->
         outcome (drawLayers' (idleBranch' force (this s)) (this s) s)
         = Normal tt ->
         truthy (noteTimes (this s)) = true ->
         seq (this s) = Some q ->
         In (FillText (currentTimeSignature (this s)) 0 (FONT_SIZE + 5)%float)
            (events (render' auto force s))).
Proof.
  split.
  - intros Hn Hin.
    destruct (skips' force s) eqn:Hs.
    + rewrite (render_skip auto _ _ Hs) in Hin. unfold skipFrame in Hin.
      rewrite events_mk in Hin.
      destruct auto; cbn [In] in Hin; [destruct Hin as [Heq|[]]|destruct Hin].
      discriminate Heq.
    + rewrite (render_draw auto _ _ Hs) in Hin.
      apply drawFrame_In in Hin. cbn [this with_flag] in Hin.
      destruct Hin as [Hin | [Hin | Hin]].
      * destruct auto; cbn [scheduleAndClearEvents In] in Hin;
          [destruct Hin as [Heq|[Heq|[]]]; discriminate Heq | destruct Hin].
      * pose proof (drawLayers_events (idleBranch' force (this s)) (this s)
                      (with_flag (idleBranch' force (this s)) s)) as Hall.
        rewrite Forall_forall in Hall. specialize (Hall _ Hin).
        discriminate Hall.
      * pose proof (drawOverlay_no_start (this s)
                      (with_flag (idleBranch' force (this s)) s) Hn) as Hall.
        rewrite Forall_forall in Hall. specialize (Hall _ Hin).
        apply Hall. reflexivity.
  - intros q Hs Hl Hn Hq.
    destruct (render_overlay auto force s Hs Hl) as (Hin & _).
    apply Hin. unfold drawOverlay. do 11 next_step.
    apply In_events_bind_l. rewrite Hn. cbn [when].
    apply (drawTempo_signature _ q). exact Hq.
Qed.

End Properties.

(** ** The claims on concrete renderers *)

Module Concrete.

Import Demo.

Local Abbreviation F := Demo.FONT_SIZE.
Local Abbreviation W := Demo.waveformsMode.
Local Abbreviation D := Demo.drawNotes.
Local Abbreviation P := Demo.performance_now.

(** The song ends, the loop idles, the song resumes: a settle frame, a
    skipped frame, a full frame. *)
Example settle_skip_resume :
  map drawn
      (fst (run [become silent true false; keep true false;
                 become playing true false]
                (start false playing)))
  = [true; false; true]
  /\ hasRenderedNoVoices
       (snd (run [become silent true false; keep true false;
                  become playing true false]
                 (start false playing)))
     = false.
Proof. split; vm_compute; reflexivity. Qed.

Lemma idle_frame_skipped_witness :
  events (render true false (start true silent)) = [RequestAnimationFrame]
  /\ events (render false false (start true silent)) = [].
Proof.
  split.
  - exact (proj1 (idle_frame_skipped F W D P true false (start true silent)
                    eq_refl eq_refl)).
  - exact (proj1 (idle_frame_skipped F W D P false false (start true silent)
                    eq_refl eq_refl)).
Defined.

Lemma settle_once_then_resume_witness :
  drawn (events (render true false (start false silent))) = true
  /\ surface_ops (events (render true false (start true silent))) = []
  /\ (framesDrawn
        (fst (run [keep true false; keep true false; keep true false]
                  (start false silent))) <= 1)%nat
  /\ hasRenderedNoVoices (final (render false true (start true silent)))
     = false
  /\ drawn (events (render true false (start true playing))) = true
  /\ hasRenderedNoVoices (final (render true false (start true playing)))
     = false.
Proof.
  split; [|split; [|split; [|split]]].
  - exact (proj1 (proj2 (proj1 (settle_once_then_resume F W D P true false
                                  (start false silent)) eq_refl))).
  - exact (proj1 (proj1 (settle_once_then_resume F W D P true false
                           (start true silent)) eq_refl)).
  - exact (proj1 (proj2 (settle_once_then_resume F W D P true false
                           (start false silent)))
             [keep true false; keep true false; keep true false] eq_refl).
  - exact (proj2 (proj2 (proj1 (proj2 (proj2 (settle_once_then_resume
                                                F W D P false true
                                                (start true silent))))
                           eq_refl eq_refl))).
  - exact (proj2 (proj2 (proj2 (proj2 (settle_once_then_resume F W D P
                                         true false (start true playing))))
                    eq_refl eq_refl)).
Defined.

(** Voices sound and nothing is forced, but [renderBool] is off and the
    flag is up: nothing is drawn and the flag stays up. *)
Lemma activity_without_renderBool_draws_nothing :
  ~ (0 < voicesAmount (synth (this (start true disabled))) ->
     nothingToDo W false (this (start true disabled)) = false ->
     drawn (events (render true false (start true disabled))) = true
     /\ hasRenderedNoVoices (final (render true false (start true disabled)))
        = false).
Proof.
  intros H. destruct (H eq_refl eq_refl) as [Hd _].
  vm_compute in Hd. discriminate Hd.
Qed.

Lemma force_draws_when_enabled_witness :
  drawn (events (render true true (start true silent))) = true
  /\ hasRenderedNoVoices (final (render true true (start true silent)))
     = false.
Proof.
  exact (proj2 (proj2 (force_draws_when_enabled F W D P true
                         (start true silent) eq_refl))).
Defined.

(** [force] is set, but [renderBool] is off and the flag is up: nothing
    is drawn. *)
Lemma force_without_renderBool_draws_nothing :
  ~ (drawn (events (render true true (start true disabled))) = true).
Proof. vm_compute. discriminate. Qed.

Lemma highPerformance_frame_witness :
  filter is_layer_call (events (render true false (start false dense)))
  = [ComputeNotePositions true]
  /\ In (RenderWaveforms false)
        (events (render true false (start false playing)))
  /\ (renderAnalysers (this (start false playing)) = true
      /\ highPerformanceMode (synth (this (start false playing))) = false).
Proof.
  split; [|split].
  - exact (proj1 (proj1 (highPerformance_frame F W D P true false
                           (start false dense))
                    eq_refl eq_refl eq_refl eq_refl)).
  - exact (proj2 (proj2 (highPerformance_frame F W D P true false
                           (start false playing)))
             eq_refl eq_refl eq_refl).
  - apply (proj1 (proj2 (highPerformance_frame F W D P true false
                           (start false playing)))
             false).
    right. right. left. reflexivity.
Defined.

(** Note times are there and high-performance mode is on, but
    [renderNotes] is off: the frame is drawn and [computeNotePositions]
    is not called. *)
Lemma positions_not_computed_without_renderNotes :
  ~ (skips W false (start false denseNoNotes) = false ->
     truthy (noteTimes (this (start false denseNoNotes))) = true ->
     highPerformanceMode (synth (this (start false denseNoNotes))) = true ->
     In (ComputeNotePositions true)
        (events (render true false (start false denseNoNotes)))).
Proof.
  intros H. specialize (H eq_refl eq_refl eq_refl).
  apply (in_map is_layer_call) in H.
  vm_compute in H.
  repeat (destruct H as [H|H]; [discriminate H|]). exact H.
Qed.

Lemma frame_timer_witness :
  final (render true false (start true silent)) = start true silent
  /\ In (FillText "10 FPS" 800 37)
        (events (render true false (start false playing)))
  /\ In (FillText "10 FPS" 800 37)
        (events (invoke (keep true false)
                   (final (render true false (start false playing)))))
  /\ frameTimeStart (this (final (render true false (start false playing))))
     = 100%float
  /\ fpsLabel (1000 / (200 - 100)) = "10 FPS".
Proof.
  split; [|split; [|split; [|split]]].
  - exact (proj1 (frame_timer F W D P true false (start true silent))
             eq_refl).
  - exact (proj1 (proj1 (proj2 (frame_timer F W D P true false
                                  (start false playing)))
                    eq_refl eq_refl)).
  - exact (proj1 (proj2 (proj2 (proj2 (frame_timer F W D P true false
                                         (start false playing)))))
             (keep true false) eq_refl eq_refl eq_refl eq_refl eq_refl
             eq_refl).
  - exact (proj2 (proj2 (proj2 (proj2 (proj2 (frame_timer F W D P true false
                                                (start false playing)))))
                    100%float eq_refl eq_refl eq_refl eq_refl)).
  - exact (proj2 (proj1 (proj2 (proj2 (frame_timer F W D P true false
                                         (start false playing))))
                    200%float 100%float eq_refl)).
Defined.

Lemma tempo_label_drawn_witness :
  In (FillText "180BPM" 0 5)
     (events (render true false (start false playing))).
Proof.
  exact (proj1 (tempo_label_drawn F W D P true false (start false playing)
                  (song false) eq_refl eq_refl eq_refl eq_refl)).
Defined.

(** C8 at the input where the code departs from it: note times without a
    sequencer.  The frame is drawn up to the tempo line, where reading
    [this.seq.currentTempo] throws; the time signature, the hold pedal
    line (asked for) and the hook (present) are lost with it. *)
Theorem orphaned_frame_aborts :
  seq (this (start false orphaned)) = None
  /\ showHoldPedal (this (start false orphaned)) = true
  /\ events (render true false (start false orphaned))
     = [RequestAnimationFrame; ClearRect 0 0 800 600;
        RenderWaveforms false; ComputeNotePositions false;
        DrawNotes [tt; tt] false;
        TextBaseline "hanging"; TextAlign "end"; Font "16px monospace";
        FillStyle "white"; StrokeStyle "white";
        FillText "10 FPS" 800 37; FillText "v3.0" 800 5;
        FillText "12 notes" 800 21; TextAlign "start"]
  /\ outcome (render true false (start false orphaned))
     = Throw (TypeError
                "Cannot read properties of undefined (reading 'currentTempo')").
Proof. repeat split; vm_compute; reflexivity. Qed.

Lemma renderBool_gates_drawing_witness :
  surface_ops (events (render true true (start true disabled))) = []
  /\ hasRenderedNoVoices (final (render true true (start true disabled)))
     = true
  /\ drawn (events (render true true (start false disabled))) = true
  /\ (framesDrawn
        (fst (run [keep true true; keep false false; keep true false]
                  (start false disabled))) <= 1)%nat
  /\ (drawn (events (render true true (start true playing))) = true
      <-> renderBool (this (start true playing)) = true
          /\ nothingToDo W true (this (start true playing)) = false).
Proof.
  split; [|split; [|split; [|split]]].
  - exact (proj1 (proj2 (renderBool_gates_drawing F W D P true true
                           (start true disabled) eq_refl))).
  - exact (proj1 (proj2 (proj2 (renderBool_gates_drawing F W D P true true
                                  (start true disabled) eq_refl)))).
  - exact (proj2 (proj1 (proj2 (renderBool_gates_drawing F W D P true true
                                  (start false disabled) eq_refl)))).
  - exact (proj1 (proj2 (proj2 (proj2 (renderBool_gates_drawing F W D P
                                         true true (start false disabled)
                                         eq_refl))))
             [keep true true; keep false false; keep true false] eq_refl).
  - exact (proj1 (proj2 (proj2 (proj2 (proj2 (renderBool_gates_drawing
                                                F W D P true true
                                                (start false disabled)
                                                eq_refl))))
                    true true (start true playing) eq_refl)).
Defined.

Lemma next_frame_scheduled_first_witness :
  outcome (render true false (start false failing))
  = Throw (CollaboratorError "analyser")
  /\ exists rest,
       events (render true false (start false failing))
       = RequestAnimationFrame :: ClearRect 0 0 800 600 :: rest
       /\ Forall (fun e => is_schedule e = false /\ is_clear e = false) rest
       /\ scheduled (events (render true false (start false failing)))
          = 1%nat.
Proof.
  split; [reflexivity|].
  exact (next_frame_scheduled_first F W D P false (start false failing)
           eq_refl).
Defined.

(** C6 as stated, at a clock that advances between the two readings of
    a frame (100, 105, 200, 205): two consecutive drawn frames whose
    readings are exactly 100 ms apart, the first with the second and the
    second with the second.  The first frame stores 105, not the 100 that
    its FPS was computed from, and the second frame shows
    [1000 / (200 - 105)], which is 11 FPS and not 10. *)
Lemma two_readings_show_eleven_fps :
  drawn (events (renderDrifting true false (firstFrame playing))) = true
  /\ drawn (events (renderDrifting true false
                      (final (renderDrifting true false
                                (firstFrame playing))))) = true
  /\ (drifting_now 2 - drifting_now 0)%float = 100%float
  /\ (drifting_now 3 - drifting_now 1)%float = 100%float
  /\ texts (events (renderDrifting true false (firstFrame playing)))
     = ["10 FPS"; "v3.0"; "12 notes"; "180BPM"; "4/4"; "Hold pedal is down"]
  /\ frameTimeStart
       (this (final (renderDrifting true false (firstFrame playing))))
     = 105%float
  /\ texts (events (renderDrifting true false
                      (final (renderDrifting true false
                                (firstFrame playing)))))
     = ["11 FPS"; "v3.0"; "12 notes"; "180BPM"; "4/4"; "Hold pedal is down"].
Proof. repeat split; vm_compute; reflexivity. Qed.

(** C7 at the input where the code departs from it: a drawn frame with
    note times and without a sequencer.  The frame draws the FPS, the
    version and the note count; line 89 throws before [fillText] is
    called, so no tempo label is drawn (the defect of C8). *)
Theorem orphaned_frame_shows_no_tempo :
  skips W false (start false orphaned) = false
  /\ truthy (noteTimes (this (start false orphaned))) = true
  /\ drawn (events (render true false (start false orphaned))) = true
  /\ texts (events (render true false (start false orphaned)))
     = ["10 FPS"; "v3.0"; "12 notes"].
Proof. repeat split; vm_compute; reflexivity. Qed.

(** *** Further properties *)

Lemma straight_analysers_on_settle_only_witness :
  true = idleBranch W false (this (start false silent))
  /\ (true = true -> hasRenderedNoVoices (start false silent) = false)
  /\ (true = false ->
      renderBool (this (start false silent)) = true
      /\ nothingToDo W false (this (start false silent)) = false).
Proof.
  apply (straight_analysers_on_settle_only F W D P true false
           (start false silent) true).
  vm_compute. right. right. left. reflexivity.
Defined.

Lemma frozen_clock_shows_infinity_witness :
  In (FillText "Infinity FPS" (width (canvas (this (firstFrame playing))))
        (F * 2 + 5)%float)
     (events (render true false (firstFrame playing))).
Proof.
  apply (frozen_clock_shows_infinity F W D P true false (firstFrame playing));
    reflexivity.
Defined.

Lemma time_signature_follows_noteTimes_witness :
  ~ In (TextAlign "start") (events (render true false (start false unloaded)))
  /\ In (FillText (currentTimeSignature (this (start false playing))) 0
           (F + 5)%float)
        (events (render true false (start false playing))).
Proof.
  split.
  - exact (proj1 (time_signature_follows_noteTimes F W D P true false
                    (start false unloaded)) eq_refl).
  - exact (proj2 (time_signature_follows_noteTimes F W D P true false
                    (start false playing))
             (song false) eq_refl eq_refl eq_refl eq_refl).
Defined.

End Concrete.

(** ** Properties of the playlist manager *)

Module PlaylistProperties.

Import Playlist.

Local Open Scope list_scope.

(** *** Computations *)

Lemma step_eta {A} (r : Step A) :
  mkStep (effects r) (after r) (result r) = r.
Proof. destruct r; reflexivity. Qed.

Lemma andThen_done {A B} (a : A) (k : A -> Action B) p :
  andThen (done a) k p = k a p.
Proof. unfold andThen, done. cbn [result after effects app]. apply step_eta. Qed.

Lemma andThen_raise {A B} (e : exn) (k : A -> Action B) p :
  andThen (raise e) k p = mkStep [] p (Throw e).
Proof. reflexivity. Qed.

Lemma andThen_getThis {B} (k : PlaylistManager -> Action B) p :
  andThen getThis k p = k (this p) p.
Proof.
  unfold andThen, getThis. cbn [result after effects app]. apply step_eta.
Qed.

Lemma andThen_getDocument {B} (k : Document -> Action B) p :
  andThen getDocument k p = k (document p) p.
Proof.
  unfold andThen, getDocument. cbn [result after effects app]. apply step_eta.
Qed.

Lemma andThen_setThis {B} f (k : unit -> Action B) p :
  andThen (setThis f) k p
  = k tt {| this := f (this p); document := document p |}.
Proof.
  unfold andThen, setThis. cbn [result after effects app]. apply step_eta.
Qed.

Lemma andThen_setDocument {B} f (k : unit -> Action B) p :
  andThen (setDocument f) k p
  = k tt {| this := this p; document := f (document p) |}.
Proof.
  unfold andThen, setDocument. cbn [result after effects app]. apply step_eta.
Qed.

Lemma andThen_perform {B} e (k : unit -> Action B) p :
  andThen (perform e) k p
  = mkStep (e :: effects (k tt p)) (after (k tt p)) (result (k tt p)).
Proof. reflexivity. Qed.

Lemma andThen_normal {A B} (m : Action A) (k : A -> Action B) p ev p' a :
  m p = mkStep ev p' (Normal a) ->
  andThen m k p
  = mkStep (ev ++ effects (k a p')) (after (k a p')) (result (k a p')).
Proof. intros H. unfold andThen. rewrite H. reflexivity. Qed.

Lemma andThen_throw {A B} (m : Action A) (k : A -> Action B) p ev p' e :
  m p = mkStep ev p' (Throw e) ->
  andThen m k p = mkStep ev p' (Throw e).
Proof. intros H. unfold andThen. rewrite H. reflexivity. Qed.

Lemma tryCatch_normal {A} (m : Action A) handler p ev p' a :
  m p = mkStep ev p' (Normal a) ->
  tryCatch m handler p = mkStep ev p' (Normal a).
Proof. intros H. unfold tryCatch. rewrite H. reflexivity. Qed.

Lemma tryCatch_throw {A} (m : Action A) handler p ev p' e :
  m p = mkStep ev p' (Throw e) ->
  tryCatch m handler p
  = mkStep (ev ++ effects (handler e p')) (after (handler e p'))
           (result (handler e p')).
Proof. intros H. unfold tryCatch. rewrite H. reflexivity. Qed.

Lemma effects_mk {A} ev p (o : completion A) : effects (mkStep ev p o) = ev.
Proof. reflexivity. Qed.

Lemma after_mk {A} ev p (o : completion A) : after (mkStep ev p o) = p.
Proof. reflexivity. Qed.

Lemma result_mk {A} ev p (o : completion A) : result (mkStep ev p o) = o.
Proof. reflexivity. Qed.

Lemma andThen_assoc {A B C} (m : Action A) (k1 : A -> Action B)
    (k2 : B -> Action C) p :
  andThen (andThen m k1) k2 p = andThen m (fun a => andThen (k1 a) k2) p.
Proof.
  unfold andThen. destruct (m p) as [ev p' [a|e]]; cbn [result after effects];
    [|reflexivity].
  destruct (k1 a p') as [ev1 p1 [b|e]]; cbn [result after effects];
    [|reflexivity].
  rewrite app_assoc. reflexivity.
Qed.

Ltac basic_steps :=
  repeat first
    [ rewrite andThen_assoc
    | rewrite andThen_getThis
    | rewrite andThen_getDocument
    | rewrite andThen_setThis
    | rewrite andThen_setDocument
    | rewrite andThen_done
    | rewrite andThen_raise
    | rewrite andThen_perform
    | rewrite effects_mk
    | rewrite after_mk
    | rewrite result_mk ];
  cbv beta.

Lemma showNotification_result message p :
  showNotification message p
  = mkStep [notification (document p) message] p (Normal tt).
Proof.
  unfold showNotification, notification. basic_steps.
  destruct (windowShowNotification (document p)); reflexivity.
Qed.

Lemma andThen_showNotification {B} message (k : unit -> Action B) p :
  andThen (showNotification message) k p
  = mkStep (notification (document p) message :: effects (k tt p))
           (after (k tt p)) (result (k tt p)).
Proof.
  rewrite (andThen_normal _ _ _ _ _ _ (showNotification_result message p)).
  reflexivity.
Qed.

Ltac steps :=
  repeat first
    [ rewrite andThen_assoc
    | rewrite andThen_getThis
    | rewrite andThen_getDocument
    | rewrite andThen_setThis
    | rewrite andThen_setDocument
    | rewrite andThen_done
    | rewrite andThen_raise
    | rewrite andThen_perform
    | rewrite andThen_showNotification
    | rewrite showNotification_result
    | rewrite effects_mk
    | rewrite after_mk
    | rewrite result_mk ];
  cbv beta.

(** *** The labels and the buttons *)

Lemma playlistAt_in_range t i :
  0 <= i < playlistLength t ->
  exists item, playlistAt t i = Some item
               /\ nth (Z.to_nat i) (map name (playlist t)) [] = name item.
Proof.
  unfold playlistLength, playlistAt. intros [H0 H1].
  assert ((i <? 0) = false) as -> by (apply Z.ltb_ge; lia).
  destruct (nth_error (playlist t) (Z.to_nat i)) as [item|] eqn:Hn.
  - exists item. split; [reflexivity|].
    apply (map_nth_error name) in Hn.
    apply nth_error_nth. exact Hn.
  - apply nth_error_None in Hn. lia.
Qed.

Lemma whenever_setDocument {B} b f (k : unit -> Action B) p :
  andThen (whenever b (setDocument f)) k p
  = k tt {| this := this p;
            document := if b then f (document p) else document p |}.
Proof.
  destruct b; cbn [whenever].
  - apply andThen_setDocument.
  - rewrite andThen_done. destruct p; reflexivity.
Qed.

Lemma updatePlaylistInfo_text t :
  (if (0 <=? currentIndex t) && (currentIndex t <? playlistLength t)
   then match playlistAt t (currentIndex t) with
        | Some currentItem => done (playingText currentItem)
        | None =>
            raise (TypeError
                     "Cannot read properties of undefined (reading 'name')")
        end
   else done noTrackText)
  = done (A := jsstring) (trackText t).
Proof.
  unfold trackText.
  destruct ((0 <=? currentIndex t) && (currentIndex t <? playlistLength t))
    eqn:Hr; [|reflexivity].
  apply andb_prop in Hr. destruct Hr as [H0 H1].
  apply Z.leb_le in H0. apply Z.ltb_lt in H1.
  destruct (playlistAt_in_range t (currentIndex t) (conj H0 H1))
    as (item & Hat & Hname).
  rewrite Hat, Hname. reflexivity.
Qed.

Lemma updatePlaylistInfo_result p :
  updatePlaylistInfo p
  = mkStep []
      {| this := this p;
         document :=
           {| prevBtn := prevBtn (document p);
              nextBtn := nextBtn (document p);
              clearBtn := clearBtn (document p);
              playlistCount :=
                option_map (fun _ => countText (this p))
                           (playlistCount (document p));
              currentTrack :=
                option_map (fun _ => trackText (this p))
                           (currentTrack (document p));
              windowShowNotification :=
                windowShowNotification (document p) |} |}
      (Normal tt).
Proof.
  destruct p as [t d]. cbn [this document].
  unfold updatePlaylistInfo. steps. cbn [this document].
  rewrite whenever_setDocument. cbn [this document].
  rewrite updatePlaylistInfo_text.
  destruct d as [pb nb cb [pc|] [ct|] w];
    cbn [truthy is_undefined negb whenever prevBtn nextBtn clearBtn
         playlistCount currentTrack windowShowNotification option_map];
    steps; reflexivity.
Qed.

Lemma updateControlButtons_result p :
  updateControlButtons p
  = mkStep [] {| this := this p; document := refreshed (this p) (document p) |}
           (Normal tt).
Proof.
  destruct p as [t d]. cbn [this document].
  unfold updateControlButtons. steps. cbn [this document].
  rewrite !whenever_setDocument. cbn [this document].
  rewrite updatePlaylistInfo_result. cbn [this document]. unfold refreshed.
  destruct d as [[pb|] [nb|] [cb|] pc ct w]; reflexivity.
Qed.

(** *** The list *)

Lemma updatePlaylistUI_result activeIndex p lis :
  playlistElement (this p) = Some lis ->
  updatePlaylistUI activeIndex p
  = mkStep
      (if (0 <=? activeIndex) && (activeIndex <? Z.of_nat (length lis))
       then [ScrollIntoView activeIndex] else [])
      {| this := set_playlistElement (Some (highlighted activeIndex lis))
                   (this p);
         document := refreshed (this p) (document p) |}
      (Normal tt).
Proof.
  intros He. destruct p as [t d]. cbn [this document] in *.
  unfold updatePlaylistUI, highlighted. steps. cbn [this document].
  rewrite He. steps. cbn [this document].
  destruct ((0 <=? activeIndex) && (activeIndex <? Z.of_nat (length lis)));
    cbn [whenever]; steps; cbn [this document];
    rewrite updateControlButtons_result; cbn [this document]; steps;
    reflexivity.
Qed.

Lemma updatePlaylistUI_null activeIndex p :
  playlistElement (this p) = None ->
  updatePlaylistUI activeIndex p
  = mkStep [] p (Throw (nullElement "read" "reading 'querySelectorAll'")).
Proof.
  intros He. unfold updatePlaylistUI. steps. rewrite He. reflexivity.
Qed.

Lemma renderPlaylistItem_result item index p lis :
  playlistElement (this p) = Some lis ->
  renderPlaylistItem item index p
  = mkStep []
      {| this := set_playlistElement
                   (Some (lis ++ rendered index [item])) (this p);
         document := document p |}
      (Normal tt).
Proof.
  intros He. unfold renderPlaylistItem. steps. rewrite He. reflexivity.
Qed.

Lemma renderPlaylistItem_null item index p :
  playlistElement (this p) = None ->
  renderPlaylistItem item index p
  = mkStep [] p (Throw (nullElement "read" "reading 'appendChild'")).
Proof.
  intros He. unfold renderPlaylistItem. steps. rewrite He. reflexivity.
Qed.

Lemma rendered_app index items more :
  rendered index (items ++ more)
  = rendered index items
    ++ rendered (index + Z.of_nat (length items)) more.
Proof.
  revert index. induction items as [|item items IH]; intros index.
  - cbn [app rendered length Z.of_nat]. rewrite Z.add_0_r. reflexivity.
  - cbn [app rendered length]. rewrite IH. do 3 f_equal. lia.
Qed.

Lemma rendered_length index items :
  length (rendered index items) = length items.
Proof.
  revert index. induction items as [|item items IH]; intros index;
    [reflexivity|]. cbn [rendered length]. rewrite IH. reflexivity.
Qed.

Lemma rendered_unmarked index items :
  unmarked (rendered index items) = rendered index items.
Proof.
  revert index. induction items as [|item items IH]; intros index;
    [reflexivity|]. cbn [rendered]. unfold unmarked in *. cbn [map].
  rewrite IH. reflexivity.
Qed.

Lemma rendered_inactive index items :
  filter active (rendered index items) = [].
Proof.
  revert index. induction items as [|item items IH]; intros index;
    [reflexivity|]. cbn [rendered filter active]. apply IH.
Qed.

Lemma unmarked_length lis : length (unmarked lis) = length lis.
Proof. apply length_map. Qed.

Lemma unmarked_inactive lis : filter active (unmarked lis) = [].
Proof.
  induction lis as [|li lis IH]; [reflexivity|].
  unfold unmarked in *. cbn [map filter deactivate active]. exact IH.
Qed.

Lemma unmarked_idempotent lis : unmarked (unmarked lis) = unmarked lis.
Proof.
  unfold unmarked. rewrite map_map. apply map_ext. intros li. reflexivity.
Qed.

Lemma activateAt_unmarked n lis :
  unmarked (activateAt n lis) = unmarked lis.
Proof.
  revert n. induction lis as [|li lis IH]; intros n; [destruct n; reflexivity|].
  destruct n as [|n]; cbn [activateAt]; unfold unmarked in *; cbn [map].
  - reflexivity.
  - rewrite IH. reflexivity.
Qed.

Lemma activateAt_one n lis :
  filter active lis = [] ->
  (length (filter active (activateAt n lis)) <= 1)%nat.
Proof.
  revert n. induction lis as [|li lis IH]; intros n Hnone;
    [destruct n; cbn; lia|].
  cbn [filter] in Hnone. destruct (active li) eqn:Ha; [discriminate|].
  destruct n as [|n]; cbn [activateAt filter activate active].
  - rewrite Hnone. cbn. lia.
  - rewrite Ha. apply IH. exact Hnone.
Qed.

Lemma highlighted_unmarked activeIndex lis :
  unmarked (highlighted activeIndex lis) = unmarked lis.
Proof.
  unfold highlighted.
  destruct ((0 <=? activeIndex) && (activeIndex <? Z.of_nat (length lis))).
  - fold (unmarked lis). rewrite activateAt_unmarked.
    apply unmarked_idempotent.
  - fold (unmarked lis). apply unmarked_idempotent.
Qed.

Lemma highlighted_one activeIndex lis :
  (length (filter active (highlighted activeIndex lis)) <= 1)%nat.
Proof.
  unfold highlighted.
  destruct ((0 <=? activeIndex) && (activeIndex <? Z.of_nat (length lis))).
  - fold (unmarked lis). apply activateAt_one. apply unmarked_inactive.
  - fold (unmarked lis). rewrite unmarked_inactive. cbn. lia.
Qed.

Lemma addToPlaylist_result f p lis :
  playlistElement (this p) = Some lis ->
  addToPlaylist f p
  = mkStep []
      {| this :=
           set_playlistElement
             (Some (lis ++ rendered (Z.of_nat (length (playlist (this p))))
                             [itemOf f]))
             (set_playlist (playlist (this p) ++ [itemOf f]) (this p));
         document :=
           refreshed (set_playlist (playlist (this p) ++ [itemOf f]) (this p))
                     (document p) |}
      (Normal tt).
Proof.
  intros He. destruct p as [t d]. cbn [this document] in *.
  unfold addToPlaylist. steps. cbn [this document].
  erewrite andThen_normal
    by (apply renderPlaylistItem_result; cbn [this set_playlist playlistElement];
        exact He).
  rewrite updateControlButtons_result. steps. cbn [this document].
  unfold itemOf, playlistLength. cbn [playlist set_playlist].
  rewrite length_app. cbn [length].
  replace (Z.of_nat (length (playlist t) + 1) - 1)
    with (Z.of_nat (length (playlist t))) by lia.
  reflexivity.
Qed.

Lemma addToPlaylist_null f p :
  playlistElement (this p) = None ->
  addToPlaylist f p
  = mkStep []
      {| this := set_playlist (playlist (this p) ++ [itemOf f]) (this p);
         document := document p |}
      (Throw (nullElement "read" "reading 'appendChild'")).
Proof.
  intros He. destruct p as [t d]. cbn [this document] in *.
  unfold addToPlaylist. steps. cbn [this document].
  erewrite andThen_throw
    by (apply renderPlaylistItem_null; cbn [this set_playlist playlistElement];
        exact He).
  reflexivity.
Qed.

(** *** [playFile] *)

Lemma playFile_outside index p :
  index < 0 \/ playlistLength (this p) <= index ->
  playFile index p = mkStep [] p (Normal None).
Proof.
  intros H. unfold playFile. steps.
  assert ((index <? 0) || (playlistLength (this p) <=? index) = true) as ->.
  { apply orb_true_iff. destruct H; [left; apply Z.ltb_lt | right; apply Z.leb_le];
      assumption. }
  reflexivity.
Qed.

Lemma inside_test index p :
  0 <= index < playlistLength (this p) ->
  (index <? 0) || (playlistLength (this p) <=? index) = false.
Proof.
  intros [H0 H1]. apply orb_false_iff.
  split; [apply Z.ltb_ge | apply Z.leb_gt]; assumption.
Qed.

Lemma playFile_result index p lis item :
  0 <= index < playlistLength (this p) ->
  playlistElement (this p) = Some lis ->
  playlistAt (this p) index = Some item ->
  playFile index p
  = mkStep (scrolled index lis ++ requested (this p) item)
      {| this := set_currentIndex index
                   (set_playlistElement (Some (highlighted index lis))
                      (this p));
         document := refreshed (this p) (document p) |}
      (Normal (pendingFor (this p) item)).
Proof.
  intros Hin He Hat. unfold playFile. steps.
  rewrite (inside_test _ _ Hin), Hat.
  apply tryCatch_normal.
  erewrite andThen_normal by (apply updatePlaylistUI_result; exact He).
  fold (scrolled index lis).
  steps. cbn [this document manager set_currentIndex set_playlistElement].
  unfold requested, pendingFor.
  destruct (manager (this p)) as [m|]; [destruct (seq m)|];
    steps; cbn [app]; rewrite ?app_nil_r; reflexivity.
Qed.

Lemma playFile_null index p item :
  0 <= index < playlistLength (this p) ->
  playlistElement (this p) = None ->
  playlistAt (this p) index = Some item ->
  playFile index p
  = mkStep
      [ConsoleError (js "Error playing file:")
         (nullElement "read" "reading 'querySelectorAll'");
       notification (document p) (failedText item)]
      p (Normal None).
Proof.
  intros Hin He Hat. unfold playFile. steps.
  rewrite (inside_test _ _ Hin), Hat.
  erewrite tryCatch_throw
    by (erewrite andThen_throw by (apply updatePlaylistUI_null; exact He);
        reflexivity).
  unfold playFileFailed. steps. reflexivity.
Qed.

(** *** Clearing and rendering the list *)

Lemma notification_refreshed t d message :
  notification (refreshed t d) message = notification d message.
Proof. reflexivity. Qed.

Lemma refreshed_refreshed t t' d :
  refreshed t' (refreshed t d) = refreshed t' d.
Proof.
  unfold refreshed. destruct d as [[pb|] [nb|] [cb|] [pc|] [ct|] w]; reflexivity.
Qed.

Lemma refreshed_ext t t' d :
  playlist t' = playlist t -> currentIndex t' = currentIndex t ->
  refreshed t' d = refreshed t d.
Proof.
  intros Hp Hc. unfold refreshed, countText, trackText, playlistLength.
  rewrite Hp, Hc. reflexivity.
Qed.

Lemma emptyPlaylistElement_result p lis :
  playlistElement (this p) = Some lis ->
  emptyPlaylistElement p
  = mkStep [] {| this := set_playlistElement (Some []) (this p);
                 document := document p |} (Normal tt).
Proof.
  intros He. unfold emptyPlaylistElement. steps. rewrite He. reflexivity.
Qed.

Lemma emptyPlaylistElement_null p :
  playlistElement (this p) = None ->
  emptyPlaylistElement p
  = mkStep [] p (Throw (nullElement "set" "setting 'innerHTML'")).
Proof.
  intros He. unfold emptyPlaylistElement. steps. rewrite He. reflexivity.
Qed.

Lemma clearPlaylist_result p lis :
  playlistElement (this p) = Some lis ->
  clearPlaylist p
  = mkStep [notification (document p) clearedText]
      {| this := cleared (this p);
         document := refreshed (cleared (this p)) (document p) |}
      (Normal tt).
Proof.
  intros He. destruct p as [t d]. cbn [this document] in *.
  unfold clearPlaylist. steps. cbn [this document].
  erewrite andThen_normal
    by (apply emptyPlaylistElement_result with (lis := lis); exact He).
  erewrite andThen_normal by apply updateControlButtons_result.
  steps. cbn [this document app]. reflexivity.
Qed.

Lemma clearPlaylist_null p :
  playlistElement (this p) = None ->
  clearPlaylist p
  = mkStep []
      {| this := set_isPlaying false
                   (set_currentIndex (-1) (set_playlist [] (this p)));
         document := document p |}
      (Throw (nullElement "set" "setting 'innerHTML'")).
Proof.
  intros He. destruct p as [t d]. cbn [this document] in *.
  unfold clearPlaylist. steps. cbn [this document].
  erewrite andThen_throw by (apply emptyPlaylistElement_null; exact He).
  reflexivity.
Qed.

Lemma set_playlistElement_same t lis :
  playlistElement t = Some lis -> set_playlistElement (Some lis) t = t.
Proof. intros H. destruct t. cbn in *. subst. reflexivity. Qed.

Lemma renderItemsFrom_result items : forall index p lis,
  playlistElement (this p) = Some lis ->
  renderItemsFrom index items p
  = mkStep []
      {| this := set_playlistElement (Some (lis ++ rendered index items))
                   (this p);
         document := document p |}
      (Normal tt).
Proof.
  induction items as [|item items IH]; intros index p lis He.
  - cbn [renderItemsFrom rendered]. rewrite app_nil_r.
    rewrite (set_playlistElement_same _ _ He). destruct p; reflexivity.
  - cbn [renderItemsFrom].
    erewrite andThen_normal by (apply renderPlaylistItem_result; exact He).
    rewrite (IH _ _ (lis ++ rendered index [item])) by reflexivity.
    steps. cbn [this document app rendered set_playlistElement].
    rewrite <- app_assoc. reflexivity.
Qed.

Lemma renderPlaylist_result p lis :
  playlistElement (this p) = Some lis ->
  renderPlaylist p
  = mkStep (scrolled (currentIndex (this p)) (rendered 0 (playlist (this p))))
      {| this :=
           set_playlistElement
             (Some (highlighted (currentIndex (this p))
                      (rendered 0 (playlist (this p)))))
             (this p);
         document := refreshed (this p) (document p) |}
      (Normal tt).
Proof.
  intros He. destruct p as [t d]. cbn [this document] in *.
  unfold renderPlaylist.
  erewrite andThen_normal
    by (apply emptyPlaylistElement_result with (lis := lis); exact He).
  steps. cbn [this document set_playlistElement playlist app].
  erewrite andThen_normal by (apply renderItemsFrom_result; reflexivity).
  steps. cbn [this document set_playlistElement currentIndex app].
  erewrite updatePlaylistUI_result by reflexivity.
  cbn [this document]. unfold scrolled. reflexivity.
Qed.

Lemma renderPlaylist_null p :
  playlistElement (this p) = None ->
  renderPlaylist p
  = mkStep [] p (Throw (nullElement "set" "setting 'innerHTML'")).
Proof.
  intros He. unfold renderPlaylist.
  erewrite andThen_throw by (apply emptyPlaylistElement_null; exact He).
  reflexivity.
Qed.

Lemma removeFromPlaylist_outside index p :
  index < 0 \/ playlistLength (this p) <= index ->
  removeFromPlaylist index p = mkStep [] p (Normal tt).
Proof.
  intros H. unfold removeFromPlaylist. steps.
  assert ((index <? 0) || (playlistLength (this p) <=? index) = true) as ->.
  { apply orb_true_iff.
    destruct H; [left; apply Z.ltb_lt | right; apply Z.leb_le]; assumption. }
  reflexivity.
Qed.

Lemma removeFromPlaylist_result index p lis :
  0 <= index < playlistLength (this p) ->
  playlistElement (this p) = Some lis ->
  removeFromPlaylist index p
  = mkStep
      (scrolled (currentIndex (this p))
         (rendered 0 (splice1 (Z.to_nat index) (playlist (this p))))
       ++ [notification (document p) removedText])
      {| this := removed index (this p);
         document := refreshed (removed index (this p)) (document p) |}
      (Normal tt).
Proof.
  intros Hin He. unfold removeFromPlaylist. steps.
  rewrite (inside_test _ _ Hin).
  destruct p as [t d]. cbn [this document] in *.
  steps. cbn [this document].
  erewrite andThen_normal
    by (apply renderPlaylist_result with (lis := lis); exact He).
  steps. cbn [this document set_playlist set_playlistElement playlist
              currentIndex].
  unfold removed, adjusted.
  destruct (index <=? currentIndex t); cbn [whenever]; steps;
    cbn [this document];
    (erewrite andThen_normal by apply updateControlButtons_result);
    steps; cbn [this document]; rewrite refreshed_refreshed;
    reflexivity.
Qed.

(** *** Navigation *)

Lemma playNext_playFile p : playNext p = playFile (nextIndex (this p)) p.
Proof.
  unfold playNext, nextIndex. steps.
  destruct (currentIndex (this p) <? playlistLength (this p) - 1);
    [reflexivity|].
  destruct (0 <? playlistLength (this p)) eqn:Hl; [reflexivity|].
  symmetry. apply playFile_outside. right. apply Z.ltb_ge in Hl. exact Hl.
Qed.

Lemma playPrevious_playFile p :
  playPrevious p = playFile (previousIndex (this p)) p.
Proof.
  unfold playPrevious, previousIndex. steps.
  destruct (0 <? currentIndex (this p)); [reflexivity|].
  destruct (0 <? playlistLength (this p)) eqn:Hl; [reflexivity|].
  symmetry. apply playFile_outside. left. apply Z.ltb_ge in Hl. lia.
Qed.

Lemma playlistAt_inside t index :
  0 <= index < playlistLength t -> exists item, playlistAt t index = Some item.
Proof.
  intros H. destruct (playlistAt_in_range t index H) as (item & Hat & _).
  exists item. exact Hat.
Qed.

(** [playFile] on any page: what it leaves of the manager. *)
Lemma playFile_cases index p :
  (playFile index p = mkStep [] p (Normal None))
  \/ (exists item,
        playlistAt (this p) index = Some item
        /\ playlistElement (this p) = None
        /\ playFile index p
           = mkStep
               [ConsoleError (js "Error playing file:")
                  (nullElement "read" "reading 'querySelectorAll'");
                notification (document p) (failedText item)]
               p (Normal None))
  \/ (exists item lis,
        0 <= index < playlistLength (this p)
        /\ playlistAt (this p) index = Some item
        /\ playlistElement (this p) = Some lis
        /\ playFile index p
           = mkStep (scrolled index lis ++ requested (this p) item)
               {| this := set_currentIndex index
                            (set_playlistElement
                               (Some (highlighted index lis)) (this p));
                  document := refreshed (this p) (document p) |}
               (Normal (pendingFor (this p) item))).
Proof.
  destruct (Z.ltb_spec index 0) as [Hneg|H0].
  { left. apply playFile_outside. left. exact Hneg. }
  destruct (Z.leb_spec (playlistLength (this p)) index) as [Hout|H1].
  { left. apply playFile_outside. right. exact Hout. }
  destruct (playlistAt_inside (this p) index (conj H0 H1)) as [item Hat].
  destruct (playlistElement (this p)) as [lis|] eqn:He.
  - right. right. exists item, lis. repeat split; try assumption.
    apply playFile_result; [split|..]; assumption.
  - right. left. exists item. repeat split; try assumption.
    apply playFile_null; [split|..]; assumption.
Qed.

(** *** The continuation of [playFile] *)

Lemma playFileFailed_result item e p :
  playFileFailed item e p = mkStep (failure (document p) item e) p (Normal tt).
Proof. unfold playFileFailed, failure. steps. reflexivity. Qed.

Lemma tryCatch_raise {A} e (handler : exn -> Action A) p :
  tryCatch (raise e) handler p = handler e p.
Proof.
  unfold tryCatch, raise. cbn [result after effects app]. apply step_eta.
Qed.

Lemma resumed_rejected pending reason p :
  playFileResumed pending (Throw reason) p
  = mkStep (failure (document p) (pendingItem pending) reason) p (Normal tt).
Proof.
  destruct pending as [item|item]; cbn [playFileResumed pendingItem];
    rewrite tryCatch_raise; apply playFileFailed_result.
Qed.

Lemma resumed_no_manager pending buffer p :
  manager (this p) = None ->
  playFileResumed pending (Normal buffer) p
  = mkStep
      (failure (document p) (pendingItem pending)
         (nullProperty
            match pending with
            | AwaitForSequencer _ => "seq"
            | AwaitForManager _ => "play"
            end))
      p (Normal tt).
Proof.
  intros Hm.
  destruct pending as [item|item]; cbn [playFileResumed pendingItem].
  - erewrite tryCatch_throw
      by (unfold theSequencer; steps; rewrite Hm; steps; reflexivity).
    rewrite playFileFailed_result. reflexivity.
  - erewrite tryCatch_throw by (steps; rewrite Hm; reflexivity).
    rewrite playFileFailed_result. reflexivity.
Qed.

Lemma resumed_no_sequencer item buffer p m :
  manager (this p) = Some m -> seq m = None ->
  playFileResumed (AwaitForSequencer item) (Normal buffer) p
  = mkStep
      (failure (document p) item (undefinedProperty "loadNewSongList"))
      p (Normal tt).
Proof.
  intros Hm Hq. cbn [playFileResumed].
  erewrite tryCatch_throw
    by (unfold theSequencer; steps; rewrite Hm, Hq; steps; reflexivity).
  rewrite playFileFailed_result. reflexivity.
Qed.

Lemma andThen_invokeMethod {A B} e (c : completion A) (k : A -> Action B) p :
  andThen (invokeMethod e c) k p
  = match c with
    | Normal a => mkStep (e :: effects (k a p)) (after (k a p)) (result (k a p))
    | Throw x => mkStep [e] p (Throw x)
    end.
Proof. destruct c; reflexivity. Qed.

Lemma resumed_load_failed item buffer p m q e :
  manager (this p) = Some m -> seq m = Some q ->
  loadNewSongList q [{| binary := buffer; altName := name item |}] = Throw e ->
  playFileResumed (AwaitForSequencer item) (Normal buffer) p
  = mkStep
      (CallLoadNewSongList [{| binary := buffer; altName := name item |}]
         :: failure (document p) item e)
      p (Normal tt).
Proof.
  intros Hm Hq Hl. cbn [playFileResumed].
  erewrite tryCatch_throw
    by (unfold theSequencer; steps; rewrite Hm, Hq; steps; cbn [snd fst];
        rewrite andThen_invokeMethod, Hl; reflexivity).
  rewrite playFileFailed_result. reflexivity.
Qed.

Lemma resumed_loaded item buffer p m q data :
  manager (this p) = Some m -> seq m = Some q ->
  loadNewSongList q [{| binary := buffer; altName := name item |}]
  = Normal data ->
  playFileResumed (AwaitForSequencer item) (Normal buffer) p
  = mkStep
      [CallLoadNewSongList [{| binary := buffer; altName := name item |}];
       notification (document p) (playingText item)]
      {| this := loaded m q data item (this p); document := document p |}
      (Normal tt).
Proof.
  intros Hm Hq Hl. cbn [playFileResumed].
  apply tryCatch_normal.
  unfold theSequencer. steps. rewrite Hm, Hq. steps. cbn [snd fst].
  rewrite andThen_invokeMethod, Hl. steps. cbn [this document].
  destruct data as [data|]; cbn [truthy is_undefined negb whenever]; steps;
    reflexivity.
Qed.

Lemma resumed_play_failed item buffer p m e :
  manager (this p) = Some m ->
  play m [{| binary := buffer; altName := name item |}] = Throw e ->
  playFileResumed (AwaitForManager item) (Normal buffer) p
  = mkStep
      (CallManagerPlay [{| binary := buffer; altName := name item |}]
         :: failure (document p) item e)
      p (Normal tt).
Proof.
  intros Hm Hl. cbn [playFileResumed].
  erewrite tryCatch_throw
    by (steps; rewrite Hm; rewrite andThen_invokeMethod, Hl; reflexivity).
  rewrite playFileFailed_result. reflexivity.
Qed.

Lemma resumed_played item buffer p m :
  manager (this p) = Some m ->
  play m [{| binary := buffer; altName := name item |}] = Normal tt ->
  playFileResumed (AwaitForManager item) (Normal buffer) p
  = mkStep
      [CallManagerPlay [{| binary := buffer; altName := name item |}];
       notification (document p) (playingText item)]
      {| this := set_isPlaying true (this p); document := document p |}
      (Normal tt).
Proof.
  intros Hm Hl. cbn [playFileResumed].
  apply tryCatch_normal.
  steps. rewrite Hm. rewrite andThen_invokeMethod, Hl. steps. reflexivity.
Qed.

(** *** The keys *)

Lemma jsstring_eqb_eq a : forall b, jsstring_eqb a b = true <-> a = b.
Proof.
  induction a as [|x a IH]; intros [|y b]; cbn [jsstring_eqb];
    try (split; [discriminate|discriminate]); [tauto|].
  rewrite andb_true_iff, N.eqb_eq, IH.
  split; [intros [-> ->]; reflexivity | intros H; injection H; auto].
Qed.

Lemma forget_result {A} (m : Action A) p ev p' a :
  m p = mkStep ev p' (Normal a) -> forget m p = mkStep ev p' (Normal tt).
Proof. intros H. unfold forget. rewrite H. reflexivity. Qed.

(** Every outcome of the continuation of [playFile]. *)
Lemma playFileResumed_cases pending settled p :
  (exists ev t',
     playFileResumed pending settled p
     = mkStep (ev ++ [notification (document p)
                        (playingText (pendingItem pending))])
         {| this := t'; document := document p |} (Normal tt)
     /\ sameList (this p) t' /\ isPlaying t' = true)
  \/ (exists ev e,
        playFileResumed pending settled p
        = mkStep (ev ++ failure (document p) (pendingItem pending) e) p
                 (Normal tt)).
Proof.
  destruct settled as [buffer|reason].
  2:{ right. exists [], reason. apply resumed_rejected. }
  destruct (manager (this p)) as [m|] eqn:Hm.
  2:{ right. eexists [], _. apply resumed_no_manager. exact Hm. }
  destruct pending as [item|item]; cbn [pendingItem].
  - destruct (seq m) as [q|] eqn:Hq.
    2:{ right. eexists [], _. eapply resumed_no_sequencer; eassumption. }
    destruct (loadNewSongList q [{| binary := buffer; altName := name item |}])
      as [data|e] eqn:Hl.
    + left. eexists [_], _. split.
      * eapply resumed_loaded; eassumption.
      * repeat split.
    + right. eexists [_], _. eapply resumed_load_failed; eassumption.
  - destruct (play m [{| binary := buffer; altName := name item |}])
      as [[]|e] eqn:Hl.
    + left. eexists [_], _. split.
      * eapply resumed_played; eassumption.
      * repeat split.
    + right. eexists [_], _. eapply resumed_play_failed; eassumption.
Qed.

(** X21. The space key on the body toggles [isPlaying] and pauses or resumes
    the sequencer; when the sequencer throws, [isPlaying] keeps its value
    and the exception leaves the handler. *)
Theorem space_toggles event p m q :
  target_tagName event <> js "INPUT" ->
  target_tagName event <> js "TEXTAREA" ->
  key event = js " " ->
  targetIsBody event = true ->
  manager (this p) = Some m -> seq m = Some q ->
  handleKeyboardShortcuts event p
  = if isPlaying (this p)
    then match pause q with
         | Normal _ =>
             mkStep [PreventDefault; CallPause]
               {| this := set_isPlaying false (this p);
                  document := document p |} (Normal None)
         | Throw e => mkStep [PreventDefault; CallPause] p (Throw e)
         end
    else match seq_play q with
         | Normal _ =>
             mkStep [PreventDefault; CallPlay]
               {| this := set_isPlaying true (this p);
                  document := document p |} (Normal None)
         | Throw e => mkStep [PreventDefault; CallPlay] p (Throw e)
         end.
Proof.
  intros Hi Ht Hk Hb Hm Hq. unfold handleKeyboardShortcuts.
  assert (jsstring_eqb (target_tagName event) (js "INPUT") = false) as ->.
  { apply not_true_is_false. rewrite jsstring_eqb_eq. exact Hi. }
  assert (jsstring_eqb (target_tagName event) (js "TEXTAREA") = false) as ->.
  { apply not_true_is_false. rewrite jsstring_eqb_eq. exact Ht. }
  rewrite Hk, Hb. cbn [orb].
  change (jsstring_eqb (js " ") (js "ArrowRight")) with false.
  change (jsstring_eqb (js " ") (js "ArrowLeft")) with false.
  change (jsstring_eqb (js " ") (js " ")) with true.
  cbv iota. steps. rewrite Hm, Hq.
  destruct (isPlaying (this p)); rewrite andThen_assoc, andThen_invokeMethod.
  - destruct (pause q) as [[]|e]; [|reflexivity]. steps. reflexivity.
  - destruct (seq_play q) as [[]|e]; [|reflexivity]. steps. reflexivity.
Qed.

(** What a key can do. *)
Lemma handleKeyboardShortcuts_cases event p :
  (exists ev t' o,
     handleKeyboardShortcuts event p
     = mkStep ev {| this := t'; document := document p |} o
     /\ sameList (this p) t')
  \/ (exists index,
        handleKeyboardShortcuts event p
        = mkStep (PreventDefault :: effects (playFile index p))
            (after (playFile index p)) (result (playFile index p))).
Proof.
  assert (Hsame : exists ev t' o,
            done (A := option Pending) None p
            = mkStep ev {| this := t'; document := document p |} o
            /\ sameList (this p) t').
  { exists [], (this p), (Normal None). split; [destruct p; reflexivity|].
    repeat split. }
  unfold handleKeyboardShortcuts.
  destruct (jsstring_eqb (target_tagName event) (js "INPUT")
            || jsstring_eqb (target_tagName event) (js "TEXTAREA"));
    [left; exact Hsame|].
  destruct (jsstring_eqb (key event) (js "ArrowRight")).
  { destruct (ctrlKey event); [|left; exact Hsame].
    right. exists (nextIndex (this p)). steps. rewrite playNext_playFile.
    reflexivity. }
  destruct (jsstring_eqb (key event) (js "ArrowLeft")).
  { destruct (ctrlKey event); [|left; exact Hsame].
    right. exists (previousIndex (this p)). steps.
    rewrite playPrevious_playFile. reflexivity. }
  destruct (jsstring_eqb (key event) (js " ")); [|left; exact Hsame].
  destruct (targetIsBody event); [|left; exact Hsame].
  left. steps.
  destruct (manager (this p)) as [m|];
    [destruct (seq m) as [q|]|].
  - destruct (isPlaying (this p)); rewrite andThen_assoc, andThen_invokeMethod.
    + destruct (pause q) as [[]|e].
      * steps. eexists _, _, _. split; [reflexivity|]. repeat split.
      * eexists _, (this p), _. split; [destruct p; reflexivity|].
        repeat split.
    + destruct (seq_play q) as [[]|e].
      * steps. eexists _, _, _. split; [reflexivity|]. repeat split.
      * eexists _, (this p), _. split; [destruct p; reflexivity|].
        repeat split.
  - steps. eexists _, (this p), _. split; [destruct p; reflexivity|].
    repeat split.
  - steps. eexists _, (this p), _. split; [destruct p; reflexivity|].
    repeat split.
Qed.

(** *** The import *)

Lemma addAll_result files : forall p lis,
  playlistElement (this p) = Some lis ->
  addAll files p
  = mkStep []
      {| this := extended files lis (this p);
         document :=
           match files with
           | [] => document p
           | _ :: _ => refreshed (extended files lis (this p)) (document p)
           end |}
      (Normal tt).
Proof.
  induction files as [|f files IH]; intros p lis He.
  - cbn [addAll]. unfold done, extended. cbn [map rendered].
    rewrite !app_nil_r, <- He. destruct p as [[] ?]; reflexivity.
  - cbn [addAll].
    erewrite andThen_normal by (apply addToPlaylist_result; exact He).
    rewrite (IH _ (lis ++ rendered (Z.of_nat (length (playlist (this p))))
                            [itemOf f])) by reflexivity.
    steps. cbn [app this document]. f_equal. 
    assert (Hthis :
      extended files
        (lis ++ rendered (Z.of_nat (length (playlist (this p)))) [itemOf f])
        (set_playlistElement
           (Some (lis ++ rendered (Z.of_nat (length (playlist (this p))))
                           [itemOf f]))
           (set_playlist (playlist (this p) ++ [itemOf f]) (this p)))
      = extended (f :: files) lis (this p)).
    { unfold extended, playlistLength.
      cbn [playlist set_playlist set_playlistElement currentIndex isPlaying
           manager map rendered].
      rewrite <- !app_assoc, length_app. cbn [app length].
      replace (Z.of_nat (length (playlist (this p)) + 1))
        with (Z.of_nat (length (playlist (this p))) + 1) by lia.
      reflexivity. }
    rewrite Hthis. f_equal.
    destruct files as [|g files].
    + apply refreshed_ext; reflexivity || (cbn; rewrite ?app_nil_r; reflexivity).
    + rewrite refreshed_refreshed. reflexivity.
Qed.

Section ImportProperties.

Variable toLowerCase : jsstring -> jsstring.
Variable localeCompare : jsstring -> jsstring -> Z.

Local Abbreviation isMidi := (isMidiFile toLowerCase).
Local Abbreviation sorted := (sortByName localeCompare).
Local Abbreviation import := (handleFolderImport toLowerCase localeCompare).

Lemma insertByName_permutation f l :
  Permutation (insertByName localeCompare f l) (f :: l).
Proof.
  induction l as [|g l IH]; cbn [insertByName]; [reflexivity|].
  destruct (localeCompare (file_name f) (file_name g) <=? 0); [reflexivity|].
  rewrite IH. apply perm_swap.
Qed.

Lemma sortByName_permutation l : Permutation (sorted l) l.
Proof.
  induction l as [|f l IH]; cbn [sortByName fold_right]; [reflexivity|].
  rewrite insertByName_permutation. apply perm_skip. exact IH.
Qed.

Lemma import_start f files p lis :
  playlistElement (this p) = Some lis ->
  import (Some (f :: files)) p
  = let p' := {| this := cleared (this p);
                 document := refreshed (cleared (this p)) (document p) |} in
    let k :=
      match filter isMidi (f :: files) with
      | [] => andThen (showNotification noMidiText) (fun _ => done None)
      | _ :: _ =>
          andThen (addAll (sorted (filter isMidi (f :: files))))
            (fun _ =>
               andThen
                 (showNotification
                    (importedText
                       (length (sorted (filter isMidi (f :: files))))))
                 (fun _ =>
                    andThen getThis
                      (fun t => if 0 <? playlistLength t
                                then playFile 0 else done None)))
      end in
    mkStep (notification (document p) clearedText :: effects (k p'))
           (after (k p')) (result (k p')).
Proof.
  intros He. destruct p as [t d]. cbn [this document] in *.
  unfold handleFolderImport. steps. cbn [this document].
  erewrite andThen_normal
    by (apply clearPlaylist_result with (lis := lis); exact He).
  cbn [this document app]. cbv zeta.
  destruct (filter isMidi (f :: files)); reflexivity.
Qed.

Lemma import_nothing f files p lis :
  playlistElement (this p) = Some lis ->
  filter isMidi (f :: files) = [] ->
  import (Some (f :: files)) p
  = mkStep [notification (document p) clearedText;
            notification (document p) noMidiText]
      {| this := cleared (this p);
         document := refreshed (cleared (this p)) (document p) |}
      (Normal None).
Proof.
  intros He Hn. rewrite (import_start _ _ _ _ He). cbv zeta. rewrite Hn.
  steps. reflexivity.
Qed.

Lemma import_result f files p lis first rest :
  playlistElement (this p) = Some lis ->
  sorted (filter isMidi (f :: files)) = first :: rest ->
  import (Some (f :: files)) p
  = mkStep
      ([notification (document p) clearedText;
        notification (document p) (importedText (S (length rest)));
        ScrollIntoView 0]
       ++ requested (this p) (itemOf first))
      {| this := imported (map itemOf (first :: rest)) (this p);
         document :=
           refreshed (listed (map itemOf (first :: rest)) (this p))
                     (document p) |}
      (Normal (pendingFor (this p) (itemOf first))).
Proof.
  intros He Hs. rewrite (import_start _ _ _ _ He). cbv zeta.
  destruct (filter isMidi (f :: files)) as [|g midi] eqn:Hf.
  { cbn in Hs. discriminate. }
  rewrite Hs. destruct p as [t d]. cbn [this document] in *.
  erewrite andThen_normal by (apply addAll_result; reflexivity).
  steps. cbn [this document app length].
  assert (Hlen : (0 <? playlistLength (extended (first :: rest) [] (cleared t)))
                 = true).
  { apply Z.ltb_lt. unfold playlistLength, extended. cbn. lia. }
  rewrite Hlen. apply Z.ltb_lt in Hlen.
  erewrite playFile_result with (item := itemOf first)
                                (lis := rendered 0 (map itemOf (first :: rest)));
    [| split; [lia | exact Hlen] | reflexivity | reflexivity].
  steps. cbn [this document]. rewrite !refreshed_refreshed.
  f_equal.
Qed.

Lemma import_files f files p lis :
  playlistElement (this p) = Some lis ->
  Permutation
    (map file (playlist (this (after (import (Some (f :: files)) p)))))
    (filter isMidi (f :: files)).
Proof.
  intros He.
  destruct (sorted (filter isMidi (f :: files))) as [|first rest] eqn:Hs.
  - assert (Hn : filter isMidi (f :: files) = []).
    { apply Permutation_nil. rewrite <- Hs. apply sortByName_permutation. }
    rewrite (import_nothing _ _ _ _ He Hn), Hn. reflexivity.
  - rewrite (import_result _ _ _ _ _ _ He Hs). cbn [after this imported playlist].
    rewrite map_map. cbn [itemOf file]. rewrite map_id.
    rewrite <- Hs. apply sortByName_permutation.
Qed.

End ImportProperties.

(** *** The invariant *)

Lemma removeFromPlaylist_null index p :
  0 <= index < playlistLength (this p) ->
  playlistElement (this p) = None ->
  removeFromPlaylist index p
  = mkStep []
      {| this := set_playlist (splice1 (Z.to_nat index) (playlist (this p)))
                   (this p);
         document := document p |}
      (Throw (nullElement "set" "setting 'innerHTML'")).
Proof.
  intros Hin He. unfold removeFromPlaylist. steps.
  rewrite (inside_test _ _ Hin).
  destruct p as [t d]. cbn [this document] in *.
  steps. cbn [this document].
  erewrite andThen_throw by (apply renderPlaylist_null; exact He).
  reflexivity.
Qed.

Lemma splice1_length {A} n (l : list A) :
  (n < length l)%nat -> length (splice1 n l) = (length l - 1)%nat.
Proof.
  intros H. unfold splice1.
  rewrite length_app, length_firstn, length_skipn. lia.
Qed.

Lemma unmarked_app lis more :
  unmarked (lis ++ more) = unmarked lis ++ unmarked more.
Proof. apply map_app. Qed.

Lemma sameList_refl t : sameList t t.
Proof. repeat split. Qed.

Lemma sameList_indexInRange t t' :
  sameList t t' -> indexInRange t -> indexInRange t'.
Proof.
  intros (Hp & Hc & _). unfold indexInRange, playlistLength.
  rewrite Hp, Hc. exact (fun H => H).
Qed.

Lemma sameList_mirrored t t' : sameList t t' -> mirrored t -> mirrored t'.
Proof.
  intros (Hp & Hc & He). unfold mirrored. rewrite Hp, Hc, He.
  exact (fun H => H).
Qed.

Lemma highlighted_mirrored index items :
  unmarked (highlighted index (rendered 0 items)) = rendered 0 items
  /\ (length (filter active (highlighted index (rendered 0 items))) <= 1)%nat.
Proof.
  split; [|apply highlighted_one].
  rewrite highlighted_unmarked. apply rendered_unmarked.
Qed.

Lemma playFile_consistent index p :
  indexInRange (this p) -> mirrored (this p) ->
  indexInRange (this (after (playFile index p)))
  /\ mirrored (this (after (playFile index p))).
Proof.
  intros Hi Hm.
  destruct (playFile_cases index p)
    as [H | [(item & _ & _ & H) | (item & lis & Hin & _ & He & H)]];
    rewrite H; cbn [after this]; [split; assumption | split; assumption |].
  unfold indexInRange, mirrored, playlistLength in *.
  cbn [set_currentIndex set_playlistElement currentIndex playlist
       playlistElement].
  rewrite He in Hm. destruct Hm as [Hu _].
  split; [lia|]. split; [|apply highlighted_one].
  rewrite highlighted_unmarked. exact Hu.
Qed.

Lemma addToPlaylist_consistent f p :
  indexInRange (this p) -> mirrored (this p) ->
  indexInRange (this (after (addToPlaylist f p)))
  /\ mirrored (this (after (addToPlaylist f p))).
Proof.
  intros Hi Hm. destruct (playlistElement (this p)) as [lis|] eqn:He.
  - rewrite (addToPlaylist_result _ _ _ He). cbn [after this].
    unfold indexInRange, mirrored, playlistLength in *.
    cbn [set_currentIndex set_playlistElement set_playlist currentIndex
         playlist playlistElement].
    rewrite He in Hm. destruct Hm as [Hu Ha].
    rewrite length_app. cbn [length]. split; [lia|]. split.
    + rewrite unmarked_app, rendered_unmarked, rendered_app, Hu.
      reflexivity.
    + rewrite filter_app, rendered_inactive, app_nil_r. exact Ha.
  - rewrite (addToPlaylist_null _ _ He). cbn [after this].
    unfold indexInRange, mirrored, playlistLength in *.
    cbn [set_playlist currentIndex playlist playlistElement].
    rewrite He in *. split; [lia | exact Hm].
Qed.

Lemma clearPlaylist_consistent p :
  indexInRange (this (after (clearPlaylist p)))
  /\ mirrored (this (after (clearPlaylist p))).
Proof.
  destruct (playlistElement (this p)) as [lis|] eqn:He.
  - rewrite (clearPlaylist_result _ _ He). cbn [after this].
    unfold indexInRange, mirrored, cleared, playlistLength. cbn.
    repeat split; lia.
  - rewrite (clearPlaylist_null _ He). cbn [after this].
    unfold indexInRange, mirrored, playlistLength.
    cbn [set_isPlaying set_currentIndex set_playlist currentIndex playlist
         playlistElement length].
    rewrite He. split; [cbn; lia | reflexivity].
Qed.

Lemma renderPlaylist_consistent p :
  indexInRange (this p) -> mirrored (this p) ->
  indexInRange (this (after (renderPlaylist p)))
  /\ mirrored (this (after (renderPlaylist p))).
Proof.
  intros Hi Hm. destruct (playlistElement (this p)) as [lis|] eqn:He.
  - rewrite (renderPlaylist_result _ _ He). cbn [after this].
    split; [exact Hi|]. unfold mirrored.
    cbn [set_playlistElement playlistElement playlist].
    apply highlighted_mirrored.
  - rewrite (renderPlaylist_null _ He). split; assumption.
Qed.

Lemma removeFromPlaylist_consistent index p :
  indexInRange (this p) -> mirrored (this p) ->
  indexInRange (this (after (removeFromPlaylist index p)))
  /\ mirrored (this (after (removeFromPlaylist index p))).
Proof.
  intros Hi Hm.
  destruct (Z.ltb_spec index 0) as [Hneg|H0].
  { rewrite removeFromPlaylist_outside by (left; exact Hneg).
    split; assumption. }
  destruct (Z.leb_spec (playlistLength (this p)) index) as [Hout|H1].
  { rewrite removeFromPlaylist_outside by (right; exact Hout).
    split; assumption. }
  assert (Hlen : length (splice1 (Z.to_nat index) (playlist (this p)))
                 = (length (playlist (this p)) - 1)%nat).
  { apply splice1_length. unfold playlistLength in H1. lia. }
  destruct (playlistElement (this p)) as [lis|] eqn:He.
  - rewrite (removeFromPlaylist_result _ _ _ (conj H0 H1) He).
    cbn [after this]. unfold indexInRange, mirrored, removed, playlistLength in *.
    cbn [currentIndex playlist playlistElement]. rewrite Hlen.
    split; [|apply highlighted_mirrored].
    unfold adjusted. destruct (Z.leb_spec index (currentIndex (this p))); lia.
  - rewrite (removeFromPlaylist_null _ _ (conj H0 H1) He).
    cbn [after this]. unfold indexInRange, mirrored, playlistLength in *.
    cbn [set_playlist currentIndex playlist playlistElement].
    rewrite He in *. rewrite Hlen. split; [lia | exact Hm].
Qed.

Lemma playFileResumed_consistent pending settled p :
  indexInRange (this p) -> mirrored (this p) ->
  indexInRange (this (after (playFileResumed pending settled p)))
  /\ mirrored (this (after (playFileResumed pending settled p))).
Proof.
  intros Hi Hm.
  destruct (playFileResumed_cases pending settled p)
    as [(ev & t' & H & Hs & _) | (ev & e & H)]; rewrite H; cbn [after this].
  - split; [eapply sameList_indexInRange | eapply sameList_mirrored];
      eassumption.
  - split; assumption.
Qed.

Lemma handleKeyboardShortcuts_consistent event p :
  indexInRange (this p) -> mirrored (this p) ->
  indexInRange (this (after (handleKeyboardShortcuts event p)))
  /\ mirrored (this (after (handleKeyboardShortcuts event p))).
Proof.
  intros Hi Hm.
  destruct (handleKeyboardShortcuts_cases event p)
    as [(ev & t' & o & H & Hs) | (index & H)]; rewrite H; cbn [after this].
  - split; [eapply sameList_indexInRange | eapply sameList_mirrored];
      eassumption.
  - apply playFile_consistent; assumption.
Qed.

Section HostProperties.

Variable toLowerCase : jsstring -> jsstring.
Variable localeCompare : jsstring -> jsstring -> Z.

Local Abbreviation import := (handleFolderImport toLowerCase localeCompare).
Local Abbreviation serve' := (serve toLowerCase localeCompare).
Local Abbreviation serveAll' := (serveAll toLowerCase localeCompare).

Lemma import_null f files p :
  playlistElement (this p) = None ->
  import (Some (f :: files)) p
  = mkStep []
      {| this := set_isPlaying false
                   (set_currentIndex (-1) (set_playlist [] (this p)));
         document := document p |}
      (Throw (nullElement "set" "setting 'innerHTML'")).
Proof.
  intros He. destruct p as [t d]. cbn [this document] in *.
  unfold handleFolderImport. steps. cbn [this document].
  erewrite andThen_throw by (apply clearPlaylist_null; exact He).
  reflexivity.
Qed.

Lemma import_consistent files p :
  indexInRange (this p) -> mirrored (this p) ->
  indexInRange (this (after (import files p)))
  /\ mirrored (this (after (import files p))).
Proof.
  intros Hi Hm. destruct files as [[|f files]|]; [split; assumption| |split; assumption].
  destruct (playlistElement (this p)) as [lis|] eqn:He.
  - destruct (sortByName localeCompare
                (filter (isMidiFile toLowerCase) (f :: files)))
      as [|first rest] eqn:Hs.
    + assert (Hn : filter (isMidiFile toLowerCase) (f :: files) = []).
      { apply Permutation_nil. rewrite <- Hs. apply sortByName_permutation. }
      rewrite (import_nothing _ _ _ _ _ _ He Hn). cbn [after this].
      unfold indexInRange, mirrored, cleared, playlistLength. cbn.
      repeat split; lia.
    + rewrite (import_result _ _ _ _ _ _ _ _ He Hs). cbn [after this].
      unfold indexInRange, mirrored, imported, playlistLength.
      cbn [currentIndex playlist playlistElement].
      split; [cbn [map length]; lia | apply highlighted_mirrored].
  - rewrite (import_null _ _ _ He). cbn [after this].
    unfold indexInRange, mirrored, playlistLength.
    cbn [set_isPlaying set_currentIndex set_playlist currentIndex playlist
         playlistElement length].
    rewrite He. split; [cbn; lia | reflexivity].
Qed.

Lemma serve_consistent r p :
  indexInRange (this p) -> mirrored (this p) ->
  indexInRange (this (after (serve' r p)))
  /\ mirrored (this (after (serve' r p))).
Proof.
  intros Hi Hm. destruct r; cbn [serve forget after].
  - apply import_consistent; assumption.
  - apply addToPlaylist_consistent; assumption.
  - apply playFile_consistent; assumption.
  - apply playFileResumed_consistent; assumption.
  - rewrite playNext_playFile. apply playFile_consistent; assumption.
  - rewrite playPrevious_playFile. apply playFile_consistent; assumption.
  - apply clearPlaylist_consistent.
  - apply removeFromPlaylist_consistent; assumption.
  - apply renderPlaylist_consistent; assumption.
  - apply handleKeyboardShortcuts_consistent; assumption.
  - split; assumption.
Qed.

(** X29. Every call that the page or the host makes on the manager keeps the
    current index within the playlist and the playlist element in step
    with the playlist, also when the call ends in an exception. *)
Theorem requests_keep_consistent rs : forall p,
  indexInRange (this p) -> mirrored (this p) ->
  indexInRange (this (serveAll' rs p)) /\ mirrored (this (serveAll' rs p)).
Proof.
  induction rs as [|r rs IH]; intros p Hi Hm; cbn [serveAll];
    [split; assumption|].
  destruct (serve_consistent r p Hi Hm) as [Hi' Hm'].
  apply IH; assumption.
Qed.

End HostProperties.

(** *** Marks and positions *)

Lemma activateAt_nth k : forall lis n li,
  (forall li', In li' lis -> active li' = false) ->
  nth_error (activateAt k lis) n = Some li ->
  active li = (n =? k)%nat.
Proof.
  induction k as [|k IH]; intros [|l lis] n li Hall Hn.
  - destruct n; discriminate Hn.
  - destruct n as [|n]; cbn [activateAt nth_error] in Hn.
    + injection Hn as <-. reflexivity.
    + cbn [Nat.eqb]. apply Hall. right. eapply nth_error_In. exact Hn.
  - destruct n; discriminate Hn.
  - destruct n as [|n]; cbn [activateAt nth_error] in Hn.
    + injection Hn as <-. cbn [Nat.eqb]. apply Hall. left. reflexivity.
    + cbn [Nat.eqb]. apply (IH lis); [|exact Hn].
      intros li' Hin. apply Hall. right. exact Hin.
Qed.

Lemma unmarked_all_inactive lis li :
  In li (unmarked lis) -> active li = false.
Proof.
  unfold unmarked. rewrite in_map_iff. intros (li' & <- & _). reflexivity.
Qed.

Lemma highlighted_active index lis n li :
  nth_error (highlighted index lis) n = Some li ->
  active li = (Z.of_nat n =? index).
Proof.
  unfold highlighted. fold (unmarked lis).
  destruct ((0 <=? index) && (index <? Z.of_nat (length lis))) eqn:Hr;
    intros Hn.
  - apply andb_prop in Hr. destruct Hr as [H0 _]. apply Z.leb_le in H0.
    rewrite (activateAt_nth _ _ _ _ (unmarked_all_inactive lis) Hn).
    destruct (Nat.eqb_spec n (Z.to_nat index)) as [->|Hne]; symmetry.
    + apply Z.eqb_eq. lia.
    + apply Z.eqb_neq. lia.
  - rewrite (unmarked_all_inactive lis li) by (eapply nth_error_In; exact Hn).
    assert (Hlt : (n < length lis)%nat).
    { rewrite <- unmarked_length. apply nth_error_Some. congruence. }
    symmetry. apply Z.eqb_neq. intros <-.
    apply andb_false_iff in Hr. destruct Hr as [Hr|Hr];
      [apply Z.leb_gt in Hr | apply Z.ltb_ge in Hr]; lia.
Qed.

Lemma highlighted_length index lis :
  length (highlighted index lis) = length lis.
Proof.
  rewrite <- (unmarked_length (highlighted index lis)), highlighted_unmarked.
  apply unmarked_length.
Qed.

Lemma splice1_nth_after {A} i c (l : list A) :
  (i < c)%nat -> (i < length l)%nat ->
  nth_error (splice1 i l) (c - 1) = nth_error l c.
Proof.
  intros Hic Hil. unfold splice1.
  rewrite nth_error_app2 by (rewrite length_firstn; lia).
  rewrite length_firstn, nth_error_skipn. f_equal. lia.
Qed.

Lemma playFile_inside index p lis :
  0 <= index < playlistLength (this p) ->
  playlistElement (this p) = Some lis ->
  exists item,
    playlistAt (this p) index = Some item
    /\ playFile index p
       = mkStep (scrolled index lis ++ requested (this p) item)
           {| this := set_currentIndex index
                        (set_playlistElement (Some (highlighted index lis))
                           (this p));
              document := refreshed (this p) (document p) |}
           (Normal (pendingFor (this p) item)).
Proof.
  intros Hin He. destruct (playlistAt_inside _ _ Hin) as [item Hat].
  exists item. split; [exact Hat|]. apply playFile_result; assumption.
Qed.

(** ** Further properties of the playlist manager *)

(** X8. The text of an entry has at most 30 code units and starts as the
    file name does. *)
Theorem formatFileName_length filename :
  (length (formatFileName filename) <= 30)%nat
  /\ firstn 27 (formatFileName filename) = firstn 27 filename.
Proof.
  unfold formatFileName.
  destruct (Nat.ltb_spec 30 (length filename)) as [Hl|Hl].
  - assert (H27 : length (firstn 27 filename) = 27%nat).
    { rewrite length_firstn. lia. }
    split.
    + rewrite length_app, H27. change (length (js "...")) with 3%nat. lia.
    + rewrite firstn_app, H27, Nat.sub_diag, firstn_O, app_nil_r,
        firstn_firstn, Nat.min_id.
      reflexivity.
  - split; [exact Hl | reflexivity].
Qed.

(** X9. [playFile] and [removeFromPlaylist] with an index outside the
    playlist leave the page as it is and do nothing. *)
Theorem out_of_range_does_nothing index p :
  index < 0 \/ playlistLength (this p) <= index ->
  playFile index p = mkStep [] p (Normal None)
  /\ removeFromPlaylist index p = mkStep [] p (Normal tt).
Proof.
  intros H. split;
    [apply playFile_outside | apply removeFromPlaylist_outside]; exact H.
Qed.

(** X10. The synchronous part of [playFile] never throws. *)
Theorem playFile_never_throws index p :
  exists pending, result (playFile index p) = Normal pending.
Proof.
  destruct (playFile_cases index p)
    as [H | [(item & _ & _ & H) | (item & lis & _ & _ & _ & H)]];
    rewrite H; eexists; reflexivity.
Qed.

(** X11. [playFile] makes the index current and marks exactly the [li] at
    that position. *)
Theorem playFile_marks_entry index p lis :
  0 <= index < playlistLength (this p) ->
  playlistElement (this p) = Some lis ->
  currentIndex (this (after (playFile index p))) = index
  /\ playlist (this (after (playFile index p))) = playlist (this p)
  /\ exists lis',
       playlistElement (this (after (playFile index p))) = Some lis'
       /\ length lis' = length lis
       /\ forall n li, nth_error lis' n = Some li ->
                       active li = (Z.of_nat n =? index).
Proof.
  intros Hin He. destruct (playFile_inside _ _ _ Hin He) as (item & _ & ->).
  cbn [after this set_currentIndex set_playlistElement currentIndex playlist
       playlistElement].
  split; [reflexivity|]. split; [reflexivity|].
  exists (highlighted index lis). split; [reflexivity|].
  split; [apply highlighted_length|]. apply highlighted_active.
Qed.

(** X12. [playFile] brings the buttons and labels up to date before it
    assigns [currentIndex]: they show the index before the call. *)
Theorem playFile_label_lags index p lis label :
  0 <= index < playlistLength (this p) ->
  playlistElement (this p) = Some lis ->
  currentTrack (document p) = Some label ->
  currentIndex (this (after (playFile index p))) = index
  /\ document (after (playFile index p)) = refreshed (this p) (document p)
  /\ currentTrack (document (after (playFile index p)))
     = Some (trackText (this p)).
Proof.
  intros Hin He Hl. destruct (playFile_inside _ _ _ Hin He) as (item & _ & ->).
  cbn [after this document set_currentIndex currentIndex].
  split; [reflexivity|]. split; [reflexivity|].
  unfold refreshed. cbn [currentTrack]. rewrite Hl. reflexivity.
Qed.

(** X13. Without a playlist element [playFile] selects nothing. *)
Theorem playFile_without_element index p :
  0 <= index < playlistLength (this p) ->
  playlistElement (this p) = None ->
  exists item,
    playlistAt (this p) index = Some item
    /\ playFile index p
       = mkStep
           (failure (document p) item
              (nullElement "read" "reading 'querySelectorAll'"))
           p (Normal None).
Proof.
  intros Hin He. destruct (playlistAt_inside _ _ Hin) as [item Hat].
  exists item. split; [exact Hat|]. apply playFile_null; assumption.
Qed.

Lemma playFile_index index p lis :
  0 <= index < playlistLength (this p) ->
  playlistElement (this p) = Some lis ->
  currentIndex (this (after (playFile index p))) = index
  /\ playlistLength (this (after (playFile index p))) = playlistLength (this p)
  /\ playlistElement (this (after (playFile index p)))
     = Some (highlighted index lis).
Proof.
  intros Hin He. destruct (playFile_inside _ _ _ Hin He) as (item & _ & ->).
  repeat split.
Qed.

(** X14. Next and previous go round the playlist. *)
Theorem navigation_cycles p lis :
  playlistElement (this p) = Some lis ->
  0 <= currentIndex (this p) < playlistLength (this p) ->
  currentIndex (this (after (playNext p)))
  = (currentIndex (this p) + 1) mod playlistLength (this p)
  /\ currentIndex (this (after (playPrevious p)))
     = (currentIndex (this p) - 1) mod playlistLength (this p).
Proof.
  intros He Hc. rewrite playNext_playFile, playPrevious_playFile. split.
  - unfold nextIndex.
    destruct (Z.ltb_spec (currentIndex (this p)) (playlistLength (this p) - 1)).
    + destruct (playFile_index (currentIndex (this p) + 1) p lis) as [-> _];
        [lia | exact He |].
      symmetry. apply Z.mod_small. lia.
    + destruct (playFile_index 0 p lis) as [-> _]; [lia | exact He |].
      replace (currentIndex (this p) + 1) with (playlistLength (this p))
        by lia.
      symmetry. apply Z_mod_same_full.
  - unfold previousIndex.
    destruct (Z.ltb_spec 0 (currentIndex (this p))).
    + destruct (playFile_index (currentIndex (this p) - 1) p lis) as [-> _];
        [lia | exact He |].
      symmetry. apply Z.mod_small. lia.
    + destruct (playFile_index (playlistLength (this p) - 1) p lis)
        as [-> _]; [lia | exact He |].
      apply Z.mod_unique with (q := -1); lia.
Qed.

(** X15. Next and previous undo each other. *)
Theorem next_then_previous p lis :
  playlistElement (this p) = Some lis ->
  0 <= currentIndex (this p) < playlistLength (this p) ->
  currentIndex (this (after (playPrevious (after (playNext p)))))
  = currentIndex (this p)
  /\ currentIndex (this (after (playNext (after (playPrevious p)))))
     = currentIndex (this p).
Proof.
  intros He Hc. split.
  - rewrite playPrevious_playFile, playNext_playFile.
    assert (Hn : 0 <= nextIndex (this p) < playlistLength (this p)).
    { unfold nextIndex.
      destruct (Z.ltb_spec (currentIndex (this p))
                  (playlistLength (this p) - 1)); lia. }
    destruct (playFile_index _ p lis Hn He) as (Hi & Hl & He').
    unfold previousIndex at 1. rewrite Hi, Hl.
    assert (Hp : (if 0 <? nextIndex (this p)
                  then nextIndex (this p) - 1
                  else playlistLength (this p) - 1)
                 = currentIndex (this p)).
    { unfold nextIndex.
      destruct (Z.ltb_spec (currentIndex (this p))
                  (playlistLength (this p) - 1)).
      - destruct (Z.ltb_spec 0 (currentIndex (this p) + 1)); lia.
      - cbn. lia. }
    rewrite Hp.
    destruct (playFile_index (currentIndex (this p))
                (after (playFile (nextIndex (this p)) p))
                (highlighted (nextIndex (this p)) lis)) as [-> _];
      [rewrite Hl; exact Hc | exact He' | reflexivity].
  - rewrite playNext_playFile, playPrevious_playFile.
    assert (Hn : 0 <= previousIndex (this p) < playlistLength (this p)).
    { unfold previousIndex.
      destruct (Z.ltb_spec 0 (currentIndex (this p))); lia. }
    destruct (playFile_index _ p lis Hn He) as (Hi & Hl & He').
    unfold nextIndex at 1. rewrite Hi, Hl.
    assert (Hp : (if previousIndex (this p) <? playlistLength (this p) - 1
                  then previousIndex (this p) + 1
                  else 0)
                 = currentIndex (this p)).
    { unfold previousIndex.
      destruct (Z.ltb_spec 0 (currentIndex (this p))).
      - destruct (Z.ltb_spec (currentIndex (this p) - 1)
                    (playlistLength (this p) - 1)); lia.
      - destruct (Z.ltb_spec (playlistLength (this p) - 1)
                    (playlistLength (this p) - 1)); lia. }
    rewrite Hp.
    destruct (playFile_index (currentIndex (this p))
                (after (playFile (previousIndex (this p)) p))
                (highlighted (previousIndex (this p)) lis)) as [-> _];
      [rewrite Hl; exact Hc | exact He' | reflexivity].
Qed.

(** X16. On an empty playlist next and previous do nothing. *)
Theorem navigation_on_empty_playlist p :
  playlist (this p) = [] ->
  playNext p = mkStep [] p (Normal None)
  /\ playPrevious p = mkStep [] p (Normal None).
Proof.
  intros Hp. rewrite playNext_playFile, playPrevious_playFile.
  assert (Hl : playlistLength (this p) = 0).
  { unfold playlistLength. rewrite Hp. reflexivity. }
  split; apply playFile_outside; rewrite Hl.
  - unfold nextIndex.
    destruct (Z.ltb_spec (currentIndex (this p)) (playlistLength (this p) - 1));
      lia.
  - unfold previousIndex. rewrite Hl.
    destruct (Z.ltb_spec 0 (currentIndex (this p))); lia.
Qed.

(** X17. [clearPlaylist] empties the playlist and the list, disables the
    three buttons and resets the labels; it tells the user, and it calls
    neither the sequencer nor the manager. *)
Theorem clearPlaylist_resets p lis :
  playlistElement (this p) = Some lis ->
  clearPlaylist p
  = mkStep [notification (document p) clearedText]
      {| this :=
           {| playlist := []; currentIndex := -1; isPlaying := false;
              playlistElement := Some []; manager := manager (this p) |};
         document :=
           {| prevBtn := option_map (fun _ => true) (prevBtn (document p));
              nextBtn := option_map (fun _ => true) (nextBtn (document p));
              clearBtn := option_map (fun _ => true) (clearBtn (document p));
              playlistCount :=
                option_map (fun _ => js "0 bài hát")
                           (playlistCount (document p));
              currentTrack :=
                option_map (fun _ => noTrackText) (currentTrack (document p));
              windowShowNotification :=
                windowShowNotification (document p) |} |}
      (Normal tt).
Proof.
  intros He. rewrite (clearPlaylist_result _ _ He).
  assert (Hcount : countText (cleared (this p)) = js "0 bài hát")
    by (vm_compute; reflexivity).
  unfold refreshed. rewrite Hcount. reflexivity.
Qed.

(** X18. The removal of an entry before the current one keeps the current
    entry current. *)
Theorem remove_keeps_current_track index p lis :
  0 <= index < currentIndex (this p) ->
  currentIndex (this p) < playlistLength (this p) ->
  playlistElement (this p) = Some lis ->
  currentIndex (this (after (removeFromPlaylist index p)))
  = currentIndex (this p) - 1
  /\ playlistAt (this (after (removeFromPlaylist index p)))
       (currentIndex (this (after (removeFromPlaylist index p))))
     = playlistAt (this p) (currentIndex (this p)).
Proof.
  intros Hi Hc He.
  rewrite (removeFromPlaylist_result index p lis) by first [exact He | lia].
  cbn [after this removed currentIndex].
  assert (Ha : adjusted index (currentIndex (this p))
               = currentIndex (this p) - 1).
  { unfold adjusted.
    destruct (Z.leb_spec index (currentIndex (this p))); lia. }
  rewrite Ha. split; [reflexivity|].
  unfold playlistAt. cbn [playlist].
  destruct (Z.ltb_spec (currentIndex (this p) - 1) 0); [lia|].
  destruct (Z.ltb_spec (currentIndex (this p)) 0); [lia|].
  replace (Z.to_nat (currentIndex (this p) - 1))
    with (Z.to_nat (currentIndex (this p)) - 1)%nat by lia.
  apply splice1_nth_after; unfold playlistLength in Hc; lia.
Qed.

(** X19. [removeFromPlaylist] marks the [li]s before it adjusts the index:
    after the removal of the current entry or of one before it, the
    marked [li] is the one that follows the current entry. *)
Theorem remove_highlight_lags index p lis :
  0 <= index <= currentIndex (this p) ->
  0 < currentIndex (this p) < playlistLength (this p) ->
  playlistElement (this p) = Some lis ->
  exists lis',
    playlistElement (this (after (removeFromPlaylist index p))) = Some lis'
    /\ forall n li,
         nth_error lis' n = Some li ->
         active li
         = (Z.of_nat n
            =? currentIndex (this (after (removeFromPlaylist index p))) + 1).
Proof.
  intros Hi Hc He.
  rewrite (removeFromPlaylist_result index p lis) by first [exact He | lia].
  cbn [after this removed currentIndex playlistElement].
  assert (Ha : adjusted index (currentIndex (this p)) + 1
               = currentIndex (this p)).
  { unfold adjusted.
    destruct (Z.leb_spec index (currentIndex (this p))); lia. }
  rewrite Ha. eexists. split; [reflexivity|]. apply highlighted_active.
Qed.

Lemma filter_playback_scrolled index lis :
  filter is_playback (scrolled index lis) = [].
Proof.
  unfold scrolled.
  destruct ((0 <=? index) && (index <? Z.of_nat (length lis))); reflexivity.
Qed.

Lemma is_playback_notification d message :
  is_playback (notification d message) = false.
Proof. unfold notification. destruct (windowShowNotification d); reflexivity. Qed.

(** X20. A removal never touches the playback: [isPlaying] and the manager
    stay, and neither the sequencer nor the manager is called, also when
    the entry that plays is removed. *)
Theorem remove_never_stops_playback index p :
  isPlaying (this (after (removeFromPlaylist index p))) = isPlaying (this p)
  /\ manager (this (after (removeFromPlaylist index p))) = manager (this p)
  /\ filter is_playback (effects (removeFromPlaylist index p)) = [].
Proof.
  destruct (Z.ltb_spec index 0) as [Hneg|H0].
  { rewrite removeFromPlaylist_outside by (left; exact Hneg). repeat split. }
  destruct (Z.leb_spec (playlistLength (this p)) index) as [Hout|H1].
  { rewrite removeFromPlaylist_outside by (right; exact Hout). repeat split. }
  destruct (playlistElement (this p)) as [lis|] eqn:He.
  - rewrite (removeFromPlaylist_result _ _ _ (conj H0 H1) He).
    cbn [after this effects removed isPlaying manager].
    split; [reflexivity|]. split; [reflexivity|].
    rewrite filter_app, filter_playback_scrolled. cbn [filter app].
    rewrite is_playback_notification. reflexivity.
  - rewrite (removeFromPlaylist_null _ _ (conj H0 H1) He). repeat split.
Qed.

(** X22. No key changes the playlist. *)
Theorem keys_keep_playlist event p :
  playlist (this (after (handleKeyboardShortcuts event p)))
  = playlist (this p).
Proof.
  destruct (handleKeyboardShortcuts_cases event p)
    as [(ev & t' & o & H & Hs) | (index & H)]; rewrite H; cbn [after this].
  - apply Hs.
  - destruct (playFile_cases index p)
      as [H' | [(item & _ & _ & H') | (item & lis & _ & _ & _ & H')]];
      rewrite H'; reflexivity.
Qed.


(** X24. Nothing cancels a pending [playFile]: when a second entry is
    selected before the file of the first one has been read, the first
    one is loaded and announced while the second one is current. *)
Theorem last_read_wins i j p lis m q a buffer data :
  playlistElement (this p) = Some lis ->
  manager (this p) = Some m -> seq m = Some q ->
  0 <= i < playlistLength (this p) ->
  0 <= j < playlistLength (this p) ->
  playlistAt (this p) i = Some a ->
  loadNewSongList q [{| binary := buffer; altName := name a |}]
  = Normal data ->
  result (playFile i p) = Normal (Some (AwaitForSequencer a))
  /\ currentIndex
       (this (after (playFileResumed (AwaitForSequencer a) (Normal buffer)
                       (after (playFile j (after (playFile i p)))))))
     = j
  /\ effects (playFileResumed (AwaitForSequencer a) (Normal buffer)
                (after (playFile j (after (playFile i p)))))
     = [CallLoadNewSongList [{| binary := buffer; altName := name a |}];
        notification (document p) (playingText a)].
Proof.
  intros He Hm Hq Hi Hj Ha Hl.
  rewrite (playFile_result i p lis a Hi He Ha).
  cbn [result after]. split.
  { unfold pendingFor. rewrite Hm, Hq. reflexivity. }
  destruct (playFile_inside j
              {| this := set_currentIndex i
                           (set_playlistElement (Some (highlighted i lis))
                              (this p));
                 document := refreshed (this p) (document p) |}
              (highlighted i lis) Hj eq_refl) as (b & _ & ->).
  cbn [after this document].
  erewrite resumed_loaded; [| exact Hm | exact Hq | exact Hl].
  cbn [after effects this document loaded currentIndex set_currentIndex].
  split; reflexivity.
Qed.

(** X25. Without a playlist element [addToPlaylist] throws, but only after
    it has pushed the entry; the buttons and labels are not brought up to
    date. *)
Theorem addToPlaylist_without_element f p :
  playlistElement (this p) = None ->
  addToPlaylist f p
  = mkStep []
      {| this := set_playlist (playlist (this p) ++ [itemOf f]) (this p);
         document := document p |}
      (Throw (nullElement "read" "reading 'appendChild'")).
Proof. apply addToPlaylist_null. Qed.

Section ImportTheorems.

Variable toLowerCase : jsstring -> jsstring.
Variable localeCompare : jsstring -> jsstring -> Z.

(** X26. An import replaces the playlist by the MIDI files in sorted order,
    makes the first one current and marks it, and asks for its bytes when
    there is a manager; the buttons and labels are those of the playlist
    with nothing current. *)
Theorem import_replaces_playlist f files p lis first rest :
  playlistElement (this p) = Some lis ->
  sortByName localeCompare (filter (isMidiFile toLowerCase) (f :: files))
  = first :: rest ->
  handleFolderImport toLowerCase localeCompare (Some (f :: files)) p
  = mkStep
      ([notification (document p) clearedText;
        notification (document p) (importedText (S (length rest)));
        ScrollIntoView 0]
       ++ requested (this p) (itemOf first))
      {| this := imported (map itemOf (first :: rest)) (this p);
         document :=
           refreshed (listed (map itemOf (first :: rest)) (this p))
                     (document p) |}
      (Normal (pendingFor (this p) (itemOf first))).
Proof. apply import_result. Qed.

(** X27. An import of files none of which is a MIDI file empties the
    playlist and says so. *)
Theorem import_without_midi_files f files p lis :
  playlistElement (this p) = Some lis ->
  filter (isMidiFile toLowerCase) (f :: files) = [] ->
  handleFolderImport toLowerCase localeCompare (Some (f :: files)) p
  = mkStep [notification (document p) clearedText;
            notification (document p) noMidiText]
      {| this := cleared (this p);
         document := refreshed (cleared (this p)) (document p) |}
      (Normal None).
Proof. apply import_nothing. Qed.

(** X28. After an import the playlist holds the MIDI files of the
    selection, each once, and nothing else. *)
Theorem import_takes_the_midi_files f files p lis :
  playlistElement (this p) = Some lis ->
  Permutation
    (map file
       (playlist
          (this (after (handleFolderImport toLowerCase localeCompare
                          (Some (f :: files)) p)))))
    (filter (isMidiFile toLowerCase) (f :: files)).
Proof. apply import_files. Qed.

End ImportTheorems.

End PlaylistProperties.

(** ** The playlist manager on a concrete page *)

Module PlaylistConcrete.

Import Playlist PlaylistDemo PlaylistProperties.

Local Open Scope list_scope.

Local Abbreviation L := PlaylistDemo.toLowerCase.
Local Abbreviation C := PlaylistDemo.localeCompare.

Lemma out_of_range_does_nothing_witness :
  playFile 3 listening = mkStep [] listening (Normal None)
  /\ removeFromPlaylist 3 listening = mkStep [] listening (Normal tt).
Proof.
  apply (out_of_range_does_nothing 3 listening). right. vm_compute.
  discriminate.
Defined.

Lemma playFile_marks_entry_witness :
  currentIndex (this (after (playFile 2 listening))) = 2
  /\ playlist (this (after (playFile 2 listening))) = playlist (this listening)
  /\ exists lis',
       playlistElement (this (after (playFile 2 listening))) = Some lis'
       /\ length lis' = length (highlighted 1 (rendered 0 songs))
       /\ forall n li, nth_error lis' n = Some li ->
                       active li = (Z.of_nat n =? 2).
Proof.
  apply (playFile_marks_entry 2 listening (highlighted 1 (rendered 0 songs))).
  - vm_compute. split; [discriminate | reflexivity].
  - reflexivity.
Defined.

Lemma playFile_label_lags_witness :
  currentIndex (this (after (playFile 2 listening))) = 2
  /\ document (after (playFile 2 listening))
     = refreshed (this listening) (document listening)
  /\ currentTrack (document (after (playFile 2 listening)))
     = Some (trackText (this listening)).
Proof.
  apply (playFile_label_lags 2 listening (highlighted 1 (rendered 0 songs))
           (js "-")).
  - vm_compute. split; [discriminate | reflexivity].
  - reflexivity.
  - reflexivity.
Defined.

Lemma playFile_without_element_witness :
  exists item,
    playlistAt (this headless) 0 = Some item
    /\ playFile 0 headless
       = mkStep
           (failure (document headless) item
              (nullElement "read" "reading 'querySelectorAll'"))
           headless (Normal None).
Proof.
  apply (playFile_without_element 0 headless).
  - vm_compute. split; [discriminate | reflexivity].
  - reflexivity.
Defined.

Lemma navigation_cycles_witness :
  currentIndex (this (after (playNext listening)))
  = (currentIndex (this listening) + 1) mod playlistLength (this listening)
  /\ currentIndex (this (after (playPrevious listening)))
     = (currentIndex (this listening) - 1) mod playlistLength (this listening).
Proof.
  apply (navigation_cycles listening (highlighted 1 (rendered 0 songs))).
  - reflexivity.
  - vm_compute. split; [discriminate | reflexivity].
Defined.

Lemma next_then_previous_witness :
  currentIndex (this (after (playPrevious (after (playNext listening)))))
  = currentIndex (this listening)
  /\ currentIndex (this (after (playNext (after (playPrevious listening)))))
     = currentIndex (this listening).
Proof.
  apply (next_then_previous listening (highlighted 1 (rendered 0 songs))).
  - reflexivity.
  - vm_compute. split; [discriminate | reflexivity].
Defined.

Lemma navigation_on_empty_playlist_witness :
  playNext fresh = mkStep [] fresh (Normal None)
  /\ playPrevious fresh = mkStep [] fresh (Normal None).
Proof. apply (navigation_on_empty_playlist fresh). reflexivity. Defined.

Lemma clearPlaylist_resets_witness :
  clearPlaylist listening
  = mkStep [notification (document listening) clearedText]
      {| this :=
           {| playlist := []; currentIndex := -1; isPlaying := false;
              playlistElement := Some [];
              manager := manager (this listening) |};
         document :=
           {| prevBtn :=
                option_map (fun _ => true) (prevBtn (document listening));
              nextBtn :=
                option_map (fun _ => true) (nextBtn (document listening));
              clearBtn :=
                option_map (fun _ => true) (clearBtn (document listening));
              playlistCount :=
                option_map (fun _ => js "0 bài hát")
                           (playlistCount (document listening));
              currentTrack :=
                option_map (fun _ => noTrackText)
                           (currentTrack (document listening));
              windowShowNotification :=
                windowShowNotification (document listening) |} |}
      (Normal tt).
Proof.
  apply (clearPlaylist_resets listening (highlighted 1 (rendered 0 songs))).
  reflexivity.
Defined.

Lemma remove_keeps_current_track_witness :
  currentIndex (this (after (removeFromPlaylist 0 listening)))
  = currentIndex (this listening) - 1
  /\ playlistAt (this (after (removeFromPlaylist 0 listening)))
       (currentIndex (this (after (removeFromPlaylist 0 listening))))
     = playlistAt (this listening) (currentIndex (this listening)).
Proof.
  apply (remove_keeps_current_track 0 listening
           (highlighted 1 (rendered 0 songs))).
  - vm_compute. split; [discriminate | reflexivity].
  - vm_compute. reflexivity.
  - reflexivity.
Defined.

Lemma remove_highlight_lags_witness :
  exists lis',
    playlistElement (this (after (removeFromPlaylist 0 listening)))
    = Some lis'
    /\ forall n li,
         nth_error lis' n = Some li ->
         active li
         = (Z.of_nat n
            =? currentIndex (this (after (removeFromPlaylist 0 listening)))
               + 1).
Proof.
  apply (remove_highlight_lags 0 listening
           (highlighted 1 (rendered 0 songs))).
  - vm_compute. split; discriminate.
  - vm_compute. split; reflexivity.
  - reflexivity.
Defined.

Lemma space_toggles_witness :
  handleKeyboardShortcuts spaceKey listening
  = if isPlaying (this listening)
    then match pause sequencer with
         | Normal _ =>
             mkStep [PreventDefault; CallPause]
               {| this := set_isPlaying false (this listening);
                  document := document listening |} (Normal None)
         | Throw e => mkStep [PreventDefault; CallPause] listening (Throw e)
         end
    else match seq_play sequencer with
         | Normal _ =>
             mkStep [PreventDefault; CallPlay]
               {| this := set_isPlaying true (this listening);
                  document := document listening |} (Normal None)
         | Throw e => mkStep [PreventDefault; CallPlay] listening (Throw e)
         end.
Proof.
  apply (space_toggles spaceKey listening synthManager sequencer).
  - vm_compute. discriminate.
  - vm_compute. discriminate.
  - reflexivity.
  - reflexivity.
  - reflexivity.
  - reflexivity.
Defined.

(** Both outcomes of the continuation occur on the page. *)
Example resumes_on_the_page :
  resumes (AwaitForSequencer (itemOf (named "a.mid"))) (Normal [])
          (this listening) = true
  /\ resumes (AwaitForSequencer (itemOf (named "a.mid")))
             (Throw (CollaboratorError "read")) (this listening) = false
  /\ resumes (AwaitForManager (itemOf (named "a.mid"))) (Normal [])
             (this headless) = false.
Proof. repeat split. Qed.

Lemma last_read_wins_witness :
  result (playFile 0 listening)
  = Normal (Some (AwaitForSequencer (itemOf (named "a.mid"))))
  /\ currentIndex
       (this (after (playFileResumed
                       (AwaitForSequencer (itemOf (named "a.mid")))
                       (Normal [])
                       (after (playFile 2 (after (playFile 0 listening)))))))
     = 2
  /\ effects (playFileResumed
                (AwaitForSequencer (itemOf (named "a.mid"))) (Normal [])
                (after (playFile 2 (after (playFile 0 listening)))))
     = [CallLoadNewSongList
          [{| binary := []; altName := name (itemOf (named "a.mid")) |}];
        notification (document listening)
          (playingText (itemOf (named "a.mid")))].
Proof.
  apply (last_read_wins 0 2 listening (highlighted 1 (rendered 0 songs))
           synthManager sequencer (itemOf (named "a.mid")) []
           (Some {| midiName := [] |})).
  - reflexivity.
  - reflexivity.
  - reflexivity.
  - vm_compute. split; [discriminate | reflexivity].
  - vm_compute. split; [discriminate | reflexivity].
  - reflexivity.
  - reflexivity.
Defined.

Lemma addToPlaylist_without_element_witness :
  addToPlaylist (named "d.mid") headless
  = mkStep []
      {| this := set_playlist
                   (playlist (this headless) ++ [itemOf (named "d.mid")])
                   (this headless);
         document := document headless |}
      (Throw (nullElement "read" "reading 'appendChild'")).
Proof.
  apply (addToPlaylist_without_element (named "d.mid") headless). reflexivity.
Defined.

Lemma import_replaces_playlist_witness :
  handleFolderImport L C (Some folder) listening
  = mkStep
      ([notification (document listening) clearedText;
        notification (document listening) (importedText 2);
        ScrollIntoView 0]
       ++ requested (this listening) (itemOf (named "A.MID")))
      {| this := imported (map itemOf [named "A.MID"; named "b.mid"])
                   (this listening);
         document :=
           refreshed (listed (map itemOf [named "A.MID"; named "b.mid"])
                        (this listening))
                     (document listening) |}
      (Normal (pendingFor (this listening) (itemOf (named "A.MID")))).
Proof.
  apply (import_replaces_playlist L C (named "b.mid")
           [named "notes.txt"; named "A.MID"] listening
           (highlighted 1 (rendered 0 songs))
           (named "A.MID") [named "b.mid"]).
  - reflexivity.
  - vm_compute. reflexivity.
Defined.

Lemma import_without_midi_files_witness :
  handleFolderImport L C (Some [named "notes.txt"]) listening
  = mkStep [notification (document listening) clearedText;
            notification (document listening) noMidiText]
      {| this := cleared (this listening);
         document := refreshed (cleared (this listening))
                       (document listening) |}
      (Normal None).
Proof.
  apply (import_without_midi_files L C (named "notes.txt") [] listening
           (highlighted 1 (rendered 0 songs))).
  - reflexivity.
  - vm_compute. reflexivity.
Defined.

Lemma import_takes_the_midi_files_witness :
  Permutation
    (map file
       (playlist (this (after (handleFolderImport L C (Some folder) fresh)))))
    (filter (isMidiFile L) folder).
Proof.
  apply (import_takes_the_midi_files L C (named "b.mid")
           [named "notes.txt"; named "A.MID"] fresh []).
  reflexivity.
Defined.

Lemma requests_keep_consistent_witness :
  indexInRange
    (this (serveAll L C
             [FolderImport (Some folder); KeyDown nextKey;
              RemoveFromPlaylist 0; KeyDown spaceKey; AddToPlaylist (named "z.kar")]
             fresh))
  /\ mirrored
       (this (serveAll L C
                [FolderImport (Some folder); KeyDown nextKey;
                 RemoveFromPlaylist 0; KeyDown spaceKey;
                 AddToPlaylist (named "z.kar")]
                fresh)).
Proof.
  apply (requests_keep_consistent L C
           [FolderImport (Some folder); KeyDown nextKey;
            RemoveFromPlaylist 0; KeyDown spaceKey;
            AddToPlaylist (named "z.kar")]
           fresh).
  - vm_compute. split; discriminate.
  - split; [reflexivity | apply le_S, le_n].
Defined.

End PlaylistConcrete.
